(** * BOT GPT: context-window assembly, retrieval and turn handling

    A shallow embedding of the service layer of the BOT GPT backend
    ([src/services/llm_service.py], [src/services/document_service.py],
    [src/services/conversation_service.py], the upload route of
    [src/api/routes.py]) together with the properties of its
    specification.

    Conventions.
    - Python [int] is [Z]; list positions and counts handed to the
      vector index are [nat].
    - Python [str] is [string]; [len] is [String.length].
    - Python [float] (distances, similarity scores, the threshold) is
      idealised as the exact rationals [Qc].
    - Exceptions are values of [Exn]; a function that may raise returns
      [Exn + A].
    - The relational store, the vector index and the log of calls made
      to external collaborators are threaded explicitly in [World]. *)

From Stdlib Require Import ZArith QArith Qcanon Ascii String Lia.
From stdpp Require Import sorting pretty numbers base option list strings gmap.

Local Open Scope Z_scope.

(** ** Configuration ([src/config.py]) *)

Record Settings := mkSettings {
  upload_dir : string;
  max_file_size : Z;
  max_context_tokens : Z;
  max_response_tokens : Z;
  chunk_size : Z;
  chunk_overlap : Z;
  top_k_chunks : nat;
  similarity_threshold : Qc
}.

(** The defaults declared by [class Settings]. *)
Definition default_settings : Settings := {|
  upload_dir := "./data/uploads";
  max_file_size := 10 * 1024 * 1024;
  max_context_tokens := 8000;
  max_response_tokens := 512;
  chunk_size := 2000;
  chunk_overlap := 200;
  top_k_chunks := 5%nat;
  similarity_threshold := Q2Qc (7 # 10)
|}.

(** ** Exceptions *)

Inductive Exn :=
  | ValueError (msg : string)
  | Exception (msg : string)
  | HTTPException (status_code : Z) (detail : string).

(** [str(e)]. *)
Definition exn_str (e : Exn) : string :=
  match e with
  | ValueError msg => msg
  | Exception msg => msg
  | HTTPException _ detail => detail
  end.

(** ** Data model ([src/models/models.py]) *)

(** Summary stored by [set_metadata] on an assistant message produced
    with retrieval.  [extra_data] is JSON text in the table; [None] is
    the column default ["{}"]. *)
Record RagMetadata := mkRagMetadata {
  rag_chunks_used : Z;
  rag_similarity_scores : list Qc
}.

Module Message.
Record t := mk {
  id : string;
  conversation_id : string;
  role : string;
  content : string;
  tokens : Z;
  created_at : string;
  sequence_number : Z;
  extra_data : option RagMetadata
}.
End Message.

Abbreviation Message := Message.t.

Module Conversation.
Record t := mk {
  id : string;
  user_id : string;
  title : string;
  mode : string;
  (** [get_document_ids()]: the decoded JSON array *)
  document_ids : list string;
  created_at : string;
  updated_at : string;
  total_tokens : Z
}.
End Conversation.

Abbreviation Conversation := Conversation.t.

Module Document.
Record t := mk {
  id : string;
  user_id : string;
  filename : string;
  file_path : string;
  file_size : Z;
  file_type : string;
  chunk_count : Z;
  created_at : string
}.
End Document.

Abbreviation Document := Document.t.

Module User.
Record t := mk {
  id : string;
  username : string;
  email : string;
  created_at : string;
  updated_at : string
}.
End User.

Abbreviation User := User.t.

(** The relational store.  Tables with a primary-key lookup are maps
    from [id]; [messages] keeps insertion order. *)
Record Database := mkDatabase {
  users : gmap string User;
  conversations : gmap string Conversation;
  messages : list Message;
  documents : gmap string Document
}.

(** The roles admitted by the [check_role] constraint of the
    [messages] table. *)
Definition valid_role (m : Message) : Prop :=
  Message.role m ∈ ["user"; "assistant"; "system"].

(** Order of [order_by(Message.sequence_number)] and of
    [order_by(Message.sequence_number.desc())]. *)
Definition by_seq_asc : relation Message :=
  λ a b, Message.sequence_number a ≤ Message.sequence_number b.
Definition by_seq_desc : relation Message :=
  λ a b, Message.sequence_number b ≤ Message.sequence_number a.

#[global] Instance by_seq_asc_dec : RelDecision by_seq_asc.
Proof. intros a b. unfold by_seq_asc. apply _. Defined.
#[global] Instance by_seq_desc_dec : RelDecision by_seq_desc.
Proof. intros a b. unfold by_seq_desc. apply _. Defined.

(** The values an [Integer] column takes.  SQLite integers are signed
    and 64 bits wide: binding a Python int outside that range makes
    the driver raise [OverflowError], at the flush or commit that
    writes the row. *)
Definition sqlite_integer (z : Z) : Prop := - 2 ^ 63 ≤ z ≤ 2 ^ 63 - 1.

#[global] Instance sqlite_integer_dec (z : Z) : Decision (sqlite_integer z).
Proof. unfold sqlite_integer. apply _. Defined.

Definition overflow_error : Exn :=
  Exception "Python int too large to convert to SQLite INTEGER".

(** The [Integer] columns of a row of [messages]. *)
Definition message_storable (m : Message) : Prop :=
  sqlite_integer (Message.tokens m) ∧ sqlite_integer (Message.sequence_number m).

(** ** The vector index: the [all_documents] collection *)

(** The metadata dict written by [process_document]. *)
Module Metadata.
Record t := mk {
  document_id : string;
  chunk_index : Z;
  document_title : string;
  created_at : string
}.
End Metadata.

Record StoredChunk := mkStoredChunk {
  document : string;
  embedding : list Qc;
  metadata : Metadata.t
}.

(** Records of the collection by chunk id. *)
Abbreviation Collection := (gmap string StoredChunk).

(** The two [where] filters the services build:
    [{"document_id": {"$in": ids}}] and [{"document_id": id}]. *)
Inductive Where :=
  | DocumentIdIn (ids : list string)
  | DocumentIdEq (id : string).

Definition where_matches (where_filter : option Where) (md : Metadata.t) : bool :=
  match where_filter with
  | None => true
  | Some (DocumentIdIn ids) => bool_decide (Metadata.document_id md ∈ ids)
  | Some (DocumentIdEq id) => bool_decide (Metadata.document_id md = id)
  end.

(** The dict returned by [collection.query]: every field holds one
    inner list per query embedding. *)
Record QueryResult := mkQueryResult {
  res_ids : list (list string);
  res_documents : list (list string);
  res_metadatas : list (list Metadata.t);
  res_distances : list (list Qc)
}.

(** The record [collection.add] stores for one row. *)
Definition stored_row (row : string * (string * (list Qc * Metadata.t))) : StoredChunk :=
  {| document := row.2.1; embedding := row.2.2.1; metadata := row.2.2.2 |}.

(** [collection.add]: the four lists are read in step and each row is
    stored under its id; a row whose id is already in the collection is
    left out, the record stored under that id staying as it is. *)
Definition collection_add (coll : Collection) (documents : list string)
    (embeddings : list (list Qc)) (metadatas : list Metadata.t)
    (ids : list string) : Collection :=
  foldl (λ c row,
           match c !! row.1 with
           | Some _ => c
           | None => <[row.1 := stored_row row]> c
           end)
        coll (zip ids (zip documents (zip embeddings metadatas))).

(** [collection.query] checks [n_results] before it searches and
    raises [TypeError] unless the number is positive. *)
Definition validate_n_results (n_results : nat) : option Exn :=
  match n_results with
  | O => Some (Exception "Number of requested results 0, cannot be negative, or zero.")
  | S _ => None
  end.

(** [collection.get(where=..., include=[])["ids"]]. *)
Definition collection_get_ids (coll : Collection) (where_filter : option Where)
    : list string :=
  (filter (λ kv, where_matches where_filter (metadata kv.2)) (map_to_list coll)).*1.

(** [collection.delete(ids=...)]. *)
Definition collection_delete (coll : Collection) (ids : list string) : Collection :=
  foldr delete coll ids.

(** Order of the rows of a query: nearest first. *)
Definition by_distance {A} : relation (A * Qc) := λ a b, (a.2 ≤ b.2)%Qc.

#[global] Instance by_distance_dec {A} : RelDecision (@by_distance A).
Proof. intros a b. unfold by_distance. apply _. Defined.

(** ** Retrieval results *)

(** An entry of the list returned by [retrieve_relevant_chunks]. *)
Record RetrievedChunk := mkRetrievedChunk {
  chunk_content : string;
  chunk_metadata : Metadata.t;
  similarity_score : Qc;
  rank : Z
}.

(** The dict appended by [retrieve_relevant_chunks] for the row at
    position [i] of the query result. *)
Definition to_chunk (i : nat) (row : string * Metadata.t * Qc) : RetrievedChunk :=
  {| chunk_content := row.1.1;
     chunk_metadata := row.1.2;
     similarity_score := (1 - row.2)%Qc;
     rank := Z.of_nat i + 1 |}.

(** Orders on the result of a retrieval: similarity never increasing,
    and similarity always decreasing. *)
Definition chunks_descending : relation RetrievedChunk :=
  λ a b, (similarity_score b ≤ similarity_score a)%Qc.
Definition chunks_strictly_descending : relation RetrievedChunk :=
  λ a b, (similarity_score b < similarity_score a)%Qc.

(** The row of a query result as the loop of [retrieve_relevant_chunks]
    reads it. *)
Definition query_row (r : string * StoredChunk * Qc) : string * Metadata.t * Qc :=
  (document r.1.2, metadata r.1.2, r.2).

(** ** Strings and paths *)

Definition dquote : string := String "034"%char EmptyString.

Definition newline : string := String "010"%char EmptyString.

(** Truthiness of an optional [str]: [None] and the empty string are
    falsy. *)
Definition str_truthy (s : option string) : bool :=
  match s with
  | Some (String _ _) => true
  | _ => false
  end.

(** Whitespace as [str.strip] sees it on ASCII text. *)
Definition is_space (c : ascii) : bool :=
  let n := nat_of_ascii c in
  ((9 <=? n) && (n <=? 13) || (28 <=? n) && (n <=? 32))%nat.

Fixpoint lstrip (s : string) : string :=
  match s with
  | EmptyString => EmptyString
  | String c rest => if is_space c then lstrip rest else s
  end.

(** [str.strip()]. *)
Definition strip (s : string) : string :=
  String.rev (lstrip (String.rev (lstrip s))).

(** [s.endswith(suffix)]. *)
Definition endswith (s suffix : string) : bool :=
  String.prefix (String.rev suffix) (String.rev s).

(** [os.path.join] on two components. *)
Definition path_join (a b : string) : string :=
  if String.prefix "/" b then b
  else if bool_decide (a = EmptyString) || endswith a "/" then a +:+ b
  else a +:+ "/" +:+ b.

(** ** External collaborators *)

(** Prompt entries of [langchain_core.messages]. *)
Inductive LangchainMessage :=
  | SystemMessage (content : string)
  | HumanMessage (content : string)
  | AIMessage (content : string).

(** An embedding vector. *)
Abbreviation Embedding := (list Qc).

(** The collaborators the services hold handles to.  Each is an
    arbitrary function of its arguments; [uuid4] and [utcnow_isoformat]
    are indexed by the number of rows inserted so far. *)
Class Externals := {
  (** [HuggingFaceEmbeddings.embed_query] *)
  embed_query : string → Embedding;
  (** [HuggingFaceEmbeddings.embed_documents], one text at a time *)
  embed_document : string → Embedding;
  (** the distance of the [all_documents] collection
      (["hnsw:space": "cosine"]) *)
  cosine_distance : Embedding → Embedding → Qc;
  (** [RecursiveCharacterTextSplitter.split_text] *)
  split_text : string → list string;
  (** [PyPDF2.PdfReader]: [page.extract_text()] of every page of a
      file's bytes, [None] read as the empty string *)
  pdf_pages : string → Exn + list string;
  (** [ChatGroq.agenerate], the text of the first generation *)
  llm_agenerate : list LangchainMessage → Exn + string;
  (** [uuid.uuid4] and [datetime.utcnow().isoformat()] *)
  uuid4 : nat → string;
  utcnow_isoformat : nat → string
}.

(** ** The world of a request *)

(** The upload handed to the route: name, declared size, content. *)
Record UploadFile := mkUploadFile {
  upload_filename : string;
  upload_size : option Z;
  upload_bytes : string
}.

(** Calls made to the retrieval and generation services, in order. *)
Inductive Call :=
  | CallRetrieve (query : string) (document_ids : list string)
  | CallGenerate (messages : list Message) (rag_context : option string).

(** Everything a request can read or change: the relational store as
    committed, the vector index, the upload directory, the number of
    rows inserted so far, and the log of service calls. *)
Record World := mkWorld {
  db : Database;
  collection : Collection;
  fs : gmap string string;
  ticks : nat;
  calls : list Call
}.

(** The calls a request added to the log [before]. *)
Definition new_calls (before after : list Call) : list Call :=
  drop (length before) after.

(** A request invoked chunk retrieval. *)
Definition retrieval_invoked (before after : list Call) : Prop :=
  ∃ query document_ids, CallRetrieve query document_ids ∈ new_calls before after.

(** The dict returned by [add_message_and_get_response]. *)
Record TurnResult := mkTurnResult {
  user_message : Message;
  assistant_message : Message;
  turn_conversation : Conversation;
  retrieved_context : option (list RetrievedChunk)
}.

(** ** LLMService ([src/services/llm_service.py]) *)

(** [count_tokens]: [len(text) // 4]. *)
Definition count_tokens (text : string) : Z :=
  Z.of_nat (String.length text) / 4.

(** [sum(msg.tokens for msg in msgs)]. *)
Definition sum_tokens (msgs : list Message) : Z :=
  foldr (λ msg acc, Message.tokens msg + acc) 0 msgs.

(** The [for] loop of [get_context_window], run over the reversed
    history with the two loop variables [selected_messages] and
    [token_count]; [break] returns the messages selected so far. *)
Fixpoint context_window_loop (max_tokens : Z) (reversed_messages : list Message)
    (selected_messages : list Message) (token_count : Z) : list Message :=
  match reversed_messages with
  | [] => selected_messages
  | msg :: rest =>
      if decide (token_count + Message.tokens msg > max_tokens)
      then selected_messages
      else context_window_loop max_tokens rest
             (msg :: selected_messages) (token_count + Message.tokens msg)
  end.

(** The budget in force: [settings.max_context_tokens] when
    [max_tokens is None]. *)
Definition effective_max_tokens (settings : Settings) (max_tokens : option Z) : Z :=
  match max_tokens with
  | None => max_context_tokens settings
  | Some b => b
  end.

Definition get_context_window (settings : Settings)
    (messages : list Message) (max_tokens : option Z) : list Message :=
  let max_tokens := effective_max_tokens settings max_tokens in
  context_window_loop max_tokens (reverse messages) [] 0.

(** One iteration of the [for msg in messages] loop of
    [format_messages_for_llm]; a role outside the three known ones
    appends nothing. *)
Definition langchain_of_message (msg : Message) : option LangchainMessage :=
  if decide (Message.role msg = "user") then Some (HumanMessage (Message.content msg))
  else if decide (Message.role msg = "assistant") then Some (AIMessage (Message.content msg))
  else if decide (Message.role msg = "system") then Some (SystemMessage (Message.content msg))
  else None.

Definition format_messages_for_llm (messages : list Message)
    (system_prompt : option string) : list LangchainMessage :=
  let langchain_messages :=
    match system_prompt with
    | Some s => if str_truthy system_prompt then [SystemMessage s] else []
    | None => []
    end in
  langchain_messages ++ omap langchain_of_message messages.

(** The default system prompt of [generate_response]. *)
Definition default_system_prompt : string :=
  "You are BOT GPT, a helpful AI assistant. Provide direct, concise answers without showing your reasoning process or thinking steps. Never include internal thought processes like 'Okay, let me think' or 'I should'. Just give the final answer directly.".

(** The documents-only system prompt, up to the point where the
    grounding text is appended. *)
Definition rag_system_prompt_prefix : string :=
  "You are BOT GPT. You MUST answer questions STRICTLY based on the provided document context ONLY.

CRITICAL RULES:
1. Use ONLY information from the provided context below
2. DO NOT use your general knowledge or training data
3. If the answer is not in the context, say " +:+ dquote +:+
  "I don't have that information in the uploaded documents" +:+ dquote +:+ "
4. Never make assumptions or infer information not explicitly stated in the context
5. Provide direct answers without showing reasoning

Context from documents:
".

(** The system prompt chosen by the first two [if]s of
    [generate_response]. *)
Definition select_system_prompt (rag_context system_prompt : option string) : string :=
  let system_prompt :=
    match system_prompt with
    | None => default_system_prompt
    | Some s => s
    end in
  match rag_context with
  | Some ctx => if str_truthy rag_context then rag_system_prompt_prefix +:+ ctx
                else system_prompt
  | None => system_prompt
  end.

Record LLMResponse := mkLLMResponse {
  resp_content : string;
  input_tokens : Z;
  output_tokens : Z;
  total_tokens : Z
}.

Section Services.
Context `{!Externals}.
Variable settings : Settings.

Definition generate_response (messages : list Message)
    (rag_context system_prompt : option string) : Exn + LLMResponse :=
  let system_prompt := select_system_prompt rag_context system_prompt in
  let context_messages := get_context_window settings messages None in
  let langchain_messages :=
    format_messages_for_llm context_messages (Some system_prompt) in
  match llm_agenerate langchain_messages with
  | inl e => inl e
  | inr assistant_message =>
      let input_tokens := sum_tokens context_messages in
      let output_tokens := count_tokens assistant_message in
      inr {| resp_content := assistant_message;
             input_tokens := input_tokens;
             output_tokens := output_tokens;
             total_tokens := input_tokens + output_tokens |}
  end.

(** *** DocumentService ([src/services/document_service.py]) *)

(** The records a [where] filter lets through, with their ids. *)
Definition query_candidates (coll : Collection) (where_filter : option Where)
    : list (string * StoredChunk) :=
  filter (λ kv, where_matches where_filter (metadata kv.2)) (map_to_list coll).

(** The [n_results] nearest candidates, each with its distance to the
    query embedding, nearest first. *)
Definition nearest_rows (coll : Collection) (query_embedding : Embedding)
    (n_results : nat) (where_filter : option Where)
    : list (string * StoredChunk * Qc) :=
  let scored :=
    (λ kv, (kv, cosine_distance query_embedding (embedding kv.2)))
      <$> query_candidates coll where_filter in
  take n_results (merge_sort by_distance scored).

(** [collection.query(query_embeddings=[q], n_results=k, where=w,
    include=["documents", "metadatas", "distances"])], for a call the
    index accepts ([validate_n_results]): the dict it returns. *)
Definition collection_query (coll : Collection) (query_embedding : Embedding)
    (n_results : nat) (where_filter : option Where) : QueryResult :=
  let nearest := nearest_rows coll query_embedding n_results where_filter in
  {| res_ids := [(λ r, r.1.1) <$> nearest];
     res_documents := [(λ r, document r.1.2) <$> nearest];
     res_metadatas := [(λ r, metadata r.1.2) <$> nearest];
     res_distances := [(λ r, r.2) <$> nearest] |}.

(** The body of the [for i, (doc, metadata, distance) in enumerate(zip(...))]
    loop of [retrieve_relevant_chunks], from position [i] on. *)
Fixpoint retrieve_loop (i : nat) (rows : list (string * Metadata.t * Qc))
    : list RetrievedChunk :=
  match rows with
  | [] => []
  | (doc, md, distance) :: rest =>
      let similarity := (1 - distance)%Qc in
      if decide (similarity_threshold settings ≤ similarity)%Qc
      then to_chunk i (doc, md, distance) :: retrieve_loop (S i) rest
      else retrieve_loop (S i) rest
  end.

(** The formatting half of [retrieve_relevant_chunks]: what is built
    from the dict [results].  A field with no inner list is read as
    having an empty one. *)
Definition format_results (results : QueryResult) : list RetrievedChunk :=
  match res_documents results with
  | (_ :: _) as documents0 :: _ =>
      retrieve_loop 0
        (zip (zip documents0 (hd [] (res_metadatas results)))
             (hd [] (res_distances results)))
  | _ => []
  end.

(** The [where] filter built from [document_ids]. *)
Definition build_where_filter (document_ids : list string) : option Where :=
  match document_ids with
  | [] => None
  | _ :: _ => Some (DocumentIdIn document_ids)
  end.

(** The result count in force: [settings.top_k_chunks] when
    [top_k is None]. *)
Definition effective_top_k (top_k : option nat) : nat :=
  match top_k with
  | None => top_k_chunks settings
  | Some k => k
  end.

Definition retrieve_relevant_chunks (coll : Collection) (query : string)
    (document_ids : list string) (top_k : option nat) : list RetrievedChunk :=
  let top_k := effective_top_k top_k in
  let query_embedding := embed_query query in
  let where_filter := build_where_filter document_ids in
  let results := collection_query coll query_embedding top_k where_filter in
  format_results results.

(** A call of [retrieve_relevant_chunks]: the error of the index when
    it refuses the query, and otherwise the list above. *)
Definition retrieve_relevant_chunks_call (coll : Collection) (query : string)
    (document_ids : list string) (top_k : option nat)
    : Exn + list RetrievedChunk :=
  match validate_n_results (effective_top_k top_k) with
  | Some e => inl e
  | None => inr (retrieve_relevant_chunks coll query document_ids top_k)
  end.

Definition format_rag_context (chunks : list RetrievedChunk) : string :=
  match chunks with
  | [] => EmptyString
  | _ :: _ =>
      let context_parts :=
        (λ chunk,
           let source :=
             "[Source: " +:+ Metadata.document_title (chunk_metadata chunk) +:+ "]" in
           source +:+ newline +:+ chunk_content chunk +:+ newline) <$> chunks in
      String.concat newline context_parts
  end.

(** [delete_document_chunks]: scan for the ids, then delete them. *)
Definition delete_document_chunks (coll : Collection) (document_id : string)
    : Collection :=
  let results_ids := collection_get_ids coll (Some (DocumentIdEq document_id)) in
  match results_ids with
  | [] => coll
  | _ :: _ => collection_delete coll results_ids
  end.

(** The page loop of [extract_text_from_pdf]. *)
Fixpoint extract_pages (page_num : nat) (pages : list string) (text : string)
    : string :=
  match pages with
  | [] => text
  | page_text :: rest =>
      extract_pages (S page_num) rest
        (if str_truthy (Some page_text)
         then text +:+ newline +:+ "--- Page " +:+ pretty (page_num + 1)%nat
                   +:+ " ---" +:+ newline +:+ page_text
         else text)
  end.

(** [extract_text_from_pdf].  The file system maps a path to the
    bytes stored there. *)
Definition extract_text_from_pdf (fs : gmap string string) (file_path : string)
    : Exn + string :=
  let read :=
    match fs !! file_path with
    | None =>
        inl (Exception ("[Errno 2] No such file or directory: '" +:+ file_path +:+ "'"))
    | Some bytes => pdf_pages bytes
    end in
  match read with
  | inl e => inl (Exception ("Error extracting PDF text: " +:+ exn_str e))
  | inr pages =>
      let text := extract_pages 0 pages EmptyString in
      if str_truthy (Some (strip text)) then inr text
      else inl (Exception "No text could be extracted from PDF")
  end.

(** The metadata dict [process_document] builds for chunk [i]. *)
Definition chunk_metadata_of (doc : Document) (i : nat) : Metadata.t :=
  {| Metadata.document_id := Document.id doc;
     Metadata.chunk_index := Z.of_nat i;
     Metadata.document_title := Document.filename doc;
     Metadata.created_at := Document.created_at doc |}.

(** The id under which chunk [i] of a document is stored. *)
Definition chunk_id (document_id : string) (i : nat) : string :=
  document_id +:+ "_chunk_" +:+ pretty i.

(** [process_document]: the result and the collection afterwards. *)
Definition process_document (fs : gmap string string) (coll : Collection)
    (file_path : string) (doc : Document) : (Exn + Z) * Collection :=
  match extract_text_from_pdf fs file_path with
  | inl e => (inl e, coll)
  | inr text =>
      let chunks := split_text text in
      match chunks with
      | [] => (inl (Exception "No chunks created from document"), coll)
      | _ :: _ =>
          let metadatas := imap (λ i _, chunk_metadata_of doc i) chunks in
          let ids := imap (λ i _, chunk_id (Document.id doc) i) chunks in
          let embeddings := embed_document <$> chunks in
          (inr (Z.of_nat (length chunks)),
           collection_add coll chunks embeddings metadatas ids)
      end
  end.

(** [save_uploaded_file]: the path written, the size, and the upload
    directory afterwards, for a file name that names no directory of
    its own. *)
Definition save_uploaded_file (files : gmap string string) (file : UploadFile)
    (user_id : string) : (string * Z) * gmap string string :=
  let unique_filename := user_id +:+ "_" +:+ upload_filename file in
  let file_path := path_join (upload_dir settings) unique_filename in
  let file_size := Z.of_nat (String.length (upload_bytes file)) in
  ((file_path, file_size), <[file_path := upload_bytes file]> files).

(** *** ConversationService ([src/services/conversation_service.py]) *)

Definition get_conversation (d : Database) (conversation_id : string)
    : option Conversation :=
  conversations d !! conversation_id.

Definition get_messages (d : Database) (conversation_id : string) : list Message :=
  merge_sort by_seq_asc
    (filter (λ m, Message.conversation_id m = conversation_id) (messages d)).

Definition get_next_sequence_number (d : Database) (conversation_id : string) : Z :=
  let last_message :=
    head (merge_sort by_seq_desc
            (filter (λ m, Message.conversation_id m = conversation_id) (messages d))) in
  match last_message with
  | Some m => Message.sequence_number m + 1
  | None => 0
  end.

(** [add_message_and_get_response].  The session is committed only on
    the last line; on a path that raises, the store stays as it was
    committed.  Besides the missing conversation, a turn raises where
    [flush] or [commit] cannot write an [Integer] column, where the
    index refuses the query, and where the model call raises. *)
Definition add_message_and_get_response (w : World) (conversation_id : string)
    (user_message_content : string) : (Exn + TurnResult) * World :=
  match get_conversation (db w) conversation_id with
  | None => (inl (ValueError "Conversation not found"), w)
  | Some conversation =>
      let history := get_messages (db w) conversation_id in
      let user_seq := get_next_sequence_number (db w) conversation_id in
      let assistant_seq := user_seq + 1 in
      let user_tokens := count_tokens user_message_content in
      let user_message :=
        {| Message.id := uuid4 (ticks w);
           Message.conversation_id := conversation_id;
           Message.role := "user";
           Message.content := user_message_content;
           Message.tokens := user_tokens;
           Message.created_at := utcnow_isoformat (ticks w);
           Message.sequence_number := user_seq;
           Message.extra_data := None |} in
      (* an exception leaves the session without a commit: nothing
         that was added or flushed is stored *)
      let raised (e : Exn) (ticks' : nat) (calls' : list Call) :=
        (inl e,
         {| db := db w; collection := collection w; fs := fs w;
            ticks := ticks'; calls := calls' |}) in
      (* self.db.flush() writes the row of the user message *)
      if decide (message_storable user_message) then
        let '(retrieval, calls1) :=
          if decide (Conversation.mode conversation = "grounded") then
            let document_ids := Conversation.document_ids conversation in
            match document_ids with
            | [] => (inr [], calls w)
            | _ :: _ =>
                (retrieve_relevant_chunks_call (collection w) user_message_content
                   document_ids None,
                 calls w ++ [CallRetrieve user_message_content document_ids])
            end
          else (inr [], calls w) in
        match retrieval with
        | inl e => raised e (S (ticks w)) calls1
        | inr retrieved =>
            let rag_context_str :=
              match retrieved with
              | [] => None
              | _ :: _ => Some (format_rag_context retrieved)
              end in
            let all_messages := history ++ [user_message] in
            let calls2 := calls1 ++ [CallGenerate all_messages rag_context_str] in
            match generate_response all_messages rag_context_str None with
            | inl e => raised e (S (ticks w)) calls2
            | inr llm_response =>
                let assistant_message :=
                  {| Message.id := uuid4 (S (ticks w));
                     Message.conversation_id := conversation_id;
                     Message.role := "assistant";
                     Message.content := resp_content llm_response;
                     Message.tokens := output_tokens llm_response;
                     Message.created_at := utcnow_isoformat (S (ticks w));
                     Message.sequence_number := assistant_seq;
                     Message.extra_data :=
                       match retrieved with
                       | [] => None
                       | _ :: _ =>
                           Some {| rag_chunks_used := Z.of_nat (length retrieved);
                                   rag_similarity_scores :=
                                     similarity_score <$> retrieved |}
                       end |} in
                let conversation' :=
                  {| Conversation.id := Conversation.id conversation;
                     Conversation.user_id := Conversation.user_id conversation;
                     Conversation.title := Conversation.title conversation;
                     Conversation.mode := Conversation.mode conversation;
                     Conversation.document_ids := Conversation.document_ids conversation;
                     Conversation.created_at := Conversation.created_at conversation;
                     Conversation.updated_at := Message.created_at user_message;
                     Conversation.total_tokens :=
                       Conversation.total_tokens conversation
                       + (user_tokens + output_tokens llm_response) |} in
                (* self.db.commit() writes the row of the assistant
                   message and the new total *)
                if decide (message_storable assistant_message
                           ∧ sqlite_integer (Conversation.total_tokens conversation'))
                then
                  let db' :=
                    {| users := users (db w);
                       conversations :=
                         <[conversation_id := conversation']> (conversations (db w));
                       messages := messages (db w) ++ [user_message; assistant_message];
                       documents := documents (db w) |} in
                  (inr {| user_message := user_message;
                          assistant_message := assistant_message;
                          turn_conversation := conversation';
                          retrieved_context :=
                            if decide (Conversation.mode conversation = "grounded")
                            then Some retrieved else None |},
                   {| db := db'; collection := collection w; fs := fs w;
                      ticks := S (S (ticks w)); calls := calls2 |})
                else raised overflow_error (S (S (ticks w))) calls2
            end
        end
      else raised overflow_error (S (ticks w)) (calls w)
  end.

(** The user message a turn creates, whatever happens afterwards. *)
Definition new_user_message (w : World) (conversation_id content : string) : Message :=
  {| Message.id := uuid4 (ticks w);
     Message.conversation_id := conversation_id;
     Message.role := "user";
     Message.content := content;
     Message.tokens := count_tokens content;
     Message.created_at := utcnow_isoformat (ticks w);
     Message.sequence_number := get_next_sequence_number (db w) conversation_id;
     Message.extra_data := None |}.

(** The retrieval step of a turn: the chunks carried forward. *)
Definition turn_retrieved (w : World) (conv : Conversation) (content : string)
    : list RetrievedChunk :=
  if decide (Conversation.mode conv = "grounded") then
    match Conversation.document_ids conv with
    | [] => []
    | _ :: _ =>
        retrieve_relevant_chunks (collection w) content
          (Conversation.document_ids conv) None
    end
  else [].

(** *** The upload route ([upload_document] of [src/api/routes.py]) *)

Definition upload_document (w : World) (file : UploadFile) (user_id : string)
    : (Exn + Document) * World :=
  match users (db w) !! user_id with
  | None => (inl (HTTPException 404 "User not found"), w)
  | Some _ =>
      if negb (endswith (upload_filename file) ".pdf") then
        (inl (HTTPException 400 "Only PDF files are supported"), w)
      else if match upload_size file with
              | Some size => negb (size =? 0) && (max_file_size settings <? size)
              | None => false
              end then
        (inl (HTTPException 400
                ("File too large. Max size: " +:+ pretty (max_file_size settings)
                 +:+ " bytes")), w)
      else
        let '((file_path, file_size), fs1) := save_uploaded_file (fs w) file user_id in
        let doc :=
          {| Document.id := uuid4 (ticks w);
             Document.user_id := user_id;
             Document.filename := upload_filename file;
             Document.file_path := file_path;
             Document.file_size := file_size;
             Document.file_type := "application/pdf";
             Document.chunk_count := 0;
             Document.created_at := utcnow_isoformat (ticks w) |} in
        match process_document fs1 (collection w) file_path doc with
        | (inl e, coll') =>
            (* db.rollback(), then the saved file is removed *)
            (inl (HTTPException 500 ("Error processing document: " +:+ exn_str e)),
             {| db := db w; collection := coll'; fs := delete file_path fs1;
                ticks := S (ticks w); calls := calls w |})
        | (inr chunk_count, coll') =>
            let doc' :=
              {| Document.id := Document.id doc;
                 Document.user_id := Document.user_id doc;
                 Document.filename := Document.filename doc;
                 Document.file_path := Document.file_path doc;
                 Document.file_size := Document.file_size doc;
                 Document.file_type := Document.file_type doc;
                 Document.chunk_count := chunk_count;
                 Document.created_at := Document.created_at doc |} in
            (inr doc',
             {| db := {| users := users (db w);
                         conversations := conversations (db w);
                         messages := messages (db w);
                         documents := <[Document.id doc := doc']> (documents (db w)) |};
                collection := coll'; fs := fs1;
                ticks := S (ticks w); calls := calls w |})
        end
  end.

End Services.

(** ** A concrete instance

    Stand-ins for the external collaborators and a few states of the
    world, used to run the services. *)
Module Demo.

(** Texts are embedded by their length; the distance of two
    embeddings is a tenth of the difference. *)
Definition externals : Externals := {|
  embed_query q := [Q2Qc (Z.of_nat (String.length q) # 1)];
  embed_document d := [Q2Qc (Z.of_nat (String.length d) # 1)];
  cosine_distance a b :=
    match a, b with
    | [x], [y] =>
        if decide (x ≤ y)%Qc then ((y - x) / Q2Qc (10 # 1))%Qc
        else ((x - y) / Q2Qc (10 # 1))%Qc
    | _, _ => 1%Qc
    end;
  split_text t := if decide (t = EmptyString) then [] else [t; "tail"];
  pdf_pages bytes := inr [bytes];
  llm_agenerate prompt := inr "Hello there";
  uuid4 n := "id" +:+ pretty n;
  utcnow_isoformat n := "t" +:+ pretty n
|}.

Definition message (seq tok : Z) : Message :=
  {| Message.id := "m" +:+ pretty seq;
     Message.conversation_id := "c1";
     Message.role := "user";
     Message.content := "text";
     Message.tokens := tok;
     Message.created_at := "t";
     Message.sequence_number := seq;
     Message.extra_data := None |}.

(** Ten messages of 1000 tokens each. *)
Definition history : list Message :=
  (λ i, message (Z.of_nat i) 1000) <$> seq 0 10.

Definition chunk (document_id text : string) : StoredChunk :=
  {| document := text;
     embedding := [Q2Qc (Z.of_nat (String.length text) # 1)];
     metadata := {| Metadata.document_id := document_id;
                    Metadata.chunk_index := 0;
                    Metadata.document_title := document_id +:+ ".pdf";
                    Metadata.created_at := "t" |} |}.

(** Two documents holding the same text. *)
Definition twin_index : Collection :=
  {[ "d1_chunk_0" := chunk "d1" "hello"; "d2_chunk_0" := chunk "d2" "hello" ]}.

Definition conversation (mode : string) (document_ids : list string) : Conversation :=
  {| Conversation.id := "c1";
     Conversation.user_id := "u";
     Conversation.title := "T";
     Conversation.mode := mode;
     Conversation.document_ids := document_ids;
     Conversation.created_at := "t";
     Conversation.updated_at := "t";
     Conversation.total_tokens := 0 |}.

Definition world (mode : string) (document_ids : list string) : World :=
  {| db := {| users := {[ "u" := {| User.id := "u"; User.username := "n";
                                   User.email := "e"; User.created_at := "t";
                                   User.updated_at := "t" |} ]};
              conversations := {[ "c1" := conversation mode document_ids ]};
              messages := [];
              documents := ∅ |};
     collection := twin_index;
     fs := ∅;
     ticks := 0;
     calls := [] |}.

(** The result of the turn ["Hello"] on an empty open conversation. *)
Definition hello_turn : (Exn + TurnResult) * World :=
  @add_message_and_get_response externals default_settings
    (world "open_chat" []) "c1" "Hello".

Definition hello_result : TurnResult :=
  match hello_turn.1 with
  | inr res => res
  | inl _ =>
      {| user_message := message 0 0; assistant_message := message 0 0;
         turn_conversation := conversation "open_chat" [];
         retrieved_context := None |}
  end.

(** The query result of the specification's scenario: distances
    0.1, 0.5 and 0.9. *)
Definition scenario_results : QueryResult :=
  {| res_ids := [["a"; "b"; "c"]];
     res_documents := [["A"; "B"; "C"]];
     res_metadatas := [[metadata (chunk "d1" "A"); metadata (chunk "d1" "B");
                        metadata (chunk "d1" "C")]];
     res_distances := [[Q2Qc (1 # 10); Q2Qc (5 # 10); Q2Qc (9 # 10)]] |}.

Definition upload : UploadFile :=
  {| upload_filename := "a.pdf"; upload_size := None; upload_bytes := "hello world" |}.

(** As [externals], with a splitter that returns the stripped text as
    its one chunk, and none for a text that strips to nothing. *)
Definition stripping_externals : Externals := {|
  embed_query := @embed_query externals;
  embed_document := @embed_document externals;
  cosine_distance := @cosine_distance externals;
  split_text t := if decide (strip t = EmptyString) then [] else [strip t];
  pdf_pages := @pdf_pages externals;
  llm_agenerate := @llm_agenerate externals;
  uuid4 := @uuid4 externals;
  utcnow_isoformat := @utcnow_isoformat externals
|}.

(** A document of one page that holds three blanks. *)
Definition blank_upload : UploadFile :=
  {| upload_filename := "blank.pdf"; upload_size := None; upload_bytes := "   " |}.

Definition blank_files : gmap string string := {[ "p" := upload_bytes blank_upload ]}.

Definition document : Document :=
  {| Document.id := "d";
     Document.user_id := "u";
     Document.filename := "blank.pdf";
     Document.file_path := "p";
     Document.file_size := 3;
     Document.file_type := "application/pdf";
     Document.chunk_count := 0;
     Document.created_at := "t" |}.

(** The turn ["hello"] on a grounded conversation over the document
    [d1] of [twin_index]. *)
Definition grounded_turn : (Exn + TurnResult) * World :=
  @add_message_and_get_response externals default_settings
    (world "grounded" ["d1"]) "c1" "hello".

Definition grounded_result : TurnResult :=
  match grounded_turn.1 with
  | inr res => res
  | inl _ => hello_result
  end.

End Demo.

(** ** The rest of the service layer and the routes *)

(** [str.lstrip(chars)] and [str.strip(chars)]. *)
Fixpoint lstrip_chars (chars : list ascii) (s : string) : string :=
  match s with
  | EmptyString => EmptyString
  | String c rest => if bool_decide (c ∈ chars) then lstrip_chars chars rest else s
  end.

Definition strip_chars (chars : list ascii) (s : string) : string :=
  String.rev (lstrip_chars chars (String.rev (lstrip_chars chars s))).

(** The [check_mode] constraint of the [conversations] table. *)
Definition valid_mode (mode : string) : Prop :=
  mode ∈ ["open_chat"; "grounded"].

(** The rows of the [messages] table that belong to a conversation,
    in insertion order. *)
Definition conversation_messages (d : Database) (conversation_id : string)
    : list Message :=
  filter (λ m, Message.conversation_id m = conversation_id) (messages d).

(** No two messages of a conversation carry the same sequence
    number. *)
Definition sequence_numbers_distinct (d : Database) : Prop :=
  ∀ conversation_id,
    NoDup (Message.sequence_number <$> conversation_messages d conversation_id).

(** The running total of every conversation is the token sum of its
    messages. *)
Definition totals_consistent (d : Database) : Prop :=
  ∀ conversation_id c,
    conversations d !! conversation_id = Some c →
    Conversation.total_tokens c = sum_tokens (conversation_messages d conversation_id).

(** What the constraints of the tables ask of the stored rows: every
    message belongs to a stored conversation, has an admitted role and
    a token count that is not negative, and every conversation has an
    admitted mode. *)
Record database_wf (d : Database) : Prop := mkDatabaseWf {
  wf_attached :
    ∀ m, m ∈ messages d → is_Some (conversations d !! Message.conversation_id m);
  wf_roles : Forall valid_role (messages d);
  wf_tokens : Forall (λ m, 0 ≤ Message.tokens m) (messages d);
  wf_modes :
    ∀ conversation_id c,
      conversations d !! conversation_id = Some c → valid_mode (Conversation.mode c)
}.

(** What the [unique] columns of the [users] table ask: two stored
    users that share an email or a username are the same row. *)
Definition users_unique (d : Database) : Prop :=
  ∀ i j u v,
    users d !! i = Some u → users d !! j = Some v →
    User.email u = User.email v ∨ User.username u = User.username v →
    i = j.

(** The [content] attribute of a prompt entry. *)
Definition langchain_content (m : LangchainMessage) : string :=
  match m with
  | SystemMessage content | HumanMessage content | AIMessage content => content
  end.

(** The prompt of [generate_title]. *)
Definition title_prompt (first_message : string) : string :=
  "Generate a short, concise title (max 6 words) for a conversation that starts with: '"
  +:+ first_message +:+ "'. Return only the title, nothing else.".

(** Order of [order_by(Conversation.updated_at.desc())]: text compared
    byte by byte. *)
Definition by_updated_desc : relation Conversation :=
  λ a b, String.le (Conversation.updated_at b) (Conversation.updated_at a).

#[global] Instance by_updated_desc_dec : RelDecision by_updated_desc.
Proof. intros a b. unfold by_updated_desc. apply _. Defined.

(** The body of a [POST /conversations] request ([ConversationCreate]). *)
Record ConversationCreate := mkConversationCreate {
  req_user_id : string;
  req_title : string;
  req_mode : string;
  req_document_ids : list string;
  req_first_message : option string
}.

(** What [POST /conversations] returns: the conversation and, when a
    first message was sent, the two messages of the first turn. *)
Record ConversationCreated := mkConversationCreated {
  created_conversation : Conversation;
  created_messages : list Message
}.

(** What [GET /conversations/{id}] returns. *)
Record ConversationDetail := mkConversationDetail {
  detail_id : string;
  detail_title : string;
  detail_mode : string;
  detail_messages : list Message;
  detail_total_tokens : Z
}.

Section MoreServices.
Context `{!Externals}.
Variable settings : Settings.

(** [LLMService.generate_title]. *)
Definition generate_title (first_message : string) : Exn + string :=
  let prompt := title_prompt first_message in
  match llm_agenerate [HumanMessage prompt] with
  | inl e => inl e
  | inr text =>
      let title := strip_chars ["'"%char] (strip_chars ["034"%char] (strip text)) in
      inr (if decide (Z.of_nat (String.length title) > 60)
           then substring 0 57 title +:+ "..."
           else title)
  end.

(** The grounding text a turn hands to [generate_response]. *)
Definition turn_rag_context (w : World) (conv : Conversation) (content : string)
    : option string :=
  match turn_retrieved settings w conv content with
  | [] => None
  | _ :: _ => Some (format_rag_context (turn_retrieved settings w conv content))
  end.

(** [ConversationService.create_conversation].  The row gets its id
    and its two timestamps when it is inserted, each clock read taking
    the next index; a mode outside the [check_mode] constraint makes the
    commit fail. *)
Definition create_conversation (w : World) (user_id title mode : string)
    (document_ids : option (list string)) : (Exn + Conversation) * World :=
  let conversation :=
    {| Conversation.id := uuid4 (ticks w);
       Conversation.user_id := user_id;
       Conversation.title := title;
       Conversation.mode := mode;
       Conversation.document_ids :=
         match document_ids with
         | Some (d :: ds) => d :: ds
         | _ => []
         end;
       Conversation.created_at := utcnow_isoformat (ticks w);
       Conversation.updated_at := utcnow_isoformat (S (ticks w));
       Conversation.total_tokens := 0 |} in
  if decide (valid_mode mode) then
    (inr conversation,
     {| db := {| users := users (db w);
                 conversations :=
                   <[Conversation.id conversation := conversation]>
                     (conversations (db w));
                 messages := messages (db w);
                 documents := documents (db w) |};
        collection := collection w; fs := fs w;
        ticks := S (S (ticks w)); calls := calls w |})
  else
    (inl (Exception "IntegrityError: CHECK constraint failed: check_mode"),
     {| db := db w; collection := collection w; fs := fs w;
        ticks := S (S (ticks w)); calls := calls w |}).

(** [ConversationService.delete_conversation]; the messages of the
    conversation go with it ([cascade="all, delete-orphan"]). *)
Definition delete_conversation (w : World) (conversation_id : string)
    : bool * World :=
  match get_conversation (db w) conversation_id with
  | None => (false, w)
  | Some _ =>
      (true,
       {| db := {| users := users (db w);
                   conversations := delete conversation_id (conversations (db w));
                   messages :=
                     filter (λ m, Message.conversation_id m ≠ conversation_id)
                            (messages (db w));
                   documents := documents (db w) |};
          collection := collection w; fs := fs w;
          ticks := ticks w; calls := calls w |})
  end.

(** [ConversationService.list_conversations], for a limit and an
    offset that are not negative: the page and the total. *)
Definition list_conversations (d : Database) (user_id : string)
    (limit offset : nat) (mode : option string) : list Conversation * Z :=
  let query :=
    filter (λ c, Conversation.user_id c = user_id) (map_to_list (conversations d)).*2 in
  let query :=
    match mode with
    | Some m => if str_truthy mode
                then filter (λ c, Conversation.mode c = m) query
                else query
    | None => query
    end in
  let total := Z.of_nat (length query) in
  (take limit (drop offset (merge_sort by_updated_desc query)), total).

End MoreServices.

(** *** The routes of [src/api/routes.py] *)

Module Routes.
Section Routes.
Context `{!Externals}.
Variable settings : Settings.

(** [POST /users]. *)
Definition create_user (w : World) (username email : string)
    : (Exn + User) * World :=
  let existing_user :=
    head (filter (λ u, User.email u = email ∨ User.username u = username)
                 (map_to_list (users (db w))).*2) in
  match existing_user with
  | Some _ =>
      (inl (HTTPException 400 "User with this email or username already exists"), w)
  | None =>
      let db_user :=
        {| User.id := uuid4 (ticks w);
           User.username := username;
           User.email := email;
           User.created_at := utcnow_isoformat (ticks w);
           User.updated_at := utcnow_isoformat (S (ticks w)) |} in
      (inr db_user,
       {| db := {| users := <[User.id db_user := db_user]> (users (db w));
                   conversations := conversations (db w);
                   messages := messages (db w);
                   documents := documents (db w) |};
          collection := collection w; fs := fs w;
          ticks := S (S (ticks w)); calls := calls w |})
  end.

(** [GET /users/{user_id}]. *)
Definition get_user (w : World) (user_id : string) : Exn + User :=
  match users (db w) !! user_id with
  | None => inl (HTTPException 404 "User not found")
  | Some user => inr user
  end.

(** The document check of [POST /conversations]: the first listed
    document that does not exist. *)
Fixpoint first_missing_document (d : Database) (document_ids : list string)
    : option string :=
  match document_ids with
  | [] => None
  | doc_id :: rest =>
      match documents d !! doc_id with
      | None => Some doc_id
      | Some _ => first_missing_document d rest
      end
  end.

(** [POST /conversations]. *)
Definition create_conversation (w : World) (conversation : ConversationCreate)
    : (Exn + ConversationCreated) * World :=
  match users (db w) !! req_user_id conversation with
  | None => (inl (HTTPException 404 "User not found"), w)
  | Some _ =>
      let missing :=
        if decide (req_mode conversation = "grounded") then
          first_missing_document (db w) (req_document_ids conversation)
        else None in
      match missing with
      | Some doc_id =>
          (inl (HTTPException 404 ("Document " +:+ doc_id +:+ " not found")), w)
      | None =>
          match create_conversation w (req_user_id conversation)
                  (req_title conversation) (req_mode conversation)
                  (Some (req_document_ids conversation)) with
          | (inl e, w1) => (inl e, w1)
          | (inr db_conversation, w1) =>
              if str_truthy (req_first_message conversation) then
                match add_message_and_get_response settings w1
                        (Conversation.id db_conversation)
                        (default EmptyString (req_first_message conversation)) with
                | (inl e, w2) => (inl e, w2)
                | (inr result, w2) =>
                    (inr {| created_conversation := turn_conversation result;
                            created_messages :=
                              [user_message result; assistant_message result] |},
                     w2)
                end
              else
                (inr {| created_conversation := db_conversation;
                        created_messages := [] |}, w1)
          end
      end
  end.

(** [GET /conversations/{conversation_id}]. *)
Definition get_conversation (w : World) (conversation_id : string)
    : Exn + ConversationDetail :=
  match get_conversation (db w) conversation_id with
  | None => inl (HTTPException 404 "Conversation not found")
  | Some conversation =>
      inr {| detail_id := Conversation.id conversation;
             detail_title := Conversation.title conversation;
             detail_mode := Conversation.mode conversation;
             detail_messages := get_messages (db w) conversation_id;
             detail_total_tokens := Conversation.total_tokens conversation |}
  end.

(** [POST /conversations/{conversation_id}/messages]. *)
Definition add_message (w : World) (conversation_id content : string)
    : (Exn + TurnResult) * World :=
  match add_message_and_get_response settings w conversation_id content with
  | (inr result, w') => (inr result, w')
  | (inl (ValueError msg), w') => (inl (HTTPException 404 msg), w')
  | (inl e, w') =>
      (inl (HTTPException 500 ("Error generating response: " +:+ exn_str e)), w')
  end.

(** [DELETE /conversations/{conversation_id}]. *)
Definition delete_conversation (w : World) (conversation_id : string)
    : (Exn + string) * World :=
  match delete_conversation w conversation_id with
  | (false, w') => (inl (HTTPException 404 "Conversation not found"), w')
  | (true, w') => (inr conversation_id, w')
  end.

(** [GET /documents/{document_id}]. *)
Definition get_document (w : World) (document_id : string) : Exn + Document :=
  match documents (db w) !! document_id with
  | None => inl (HTTPException 404 "Document not found")
  | Some doc => inr doc
  end.

(** [DELETE /documents/{document_id}]: the file, the chunks, then the
    row. *)
Definition delete_document (w : World) (document_id : string)
    : (Exn + string) * World :=
  match documents (db w) !! document_id with
  | None => (inl (HTTPException 404 "Document not found"), w)
  | Some doc =>
      (inr document_id,
       {| db := {| users := users (db w);
                   conversations := conversations (db w);
                   messages := messages (db w);
                   documents := delete document_id (documents (db w)) |};
          collection := delete_document_chunks (collection w) document_id;
          fs := delete (Document.file_path doc) (fs w);
          ticks := ticks w; calls := calls w |})
  end.

End Routes.
End Routes.

(** ** Further concrete states *)
Module Scenario.

Definition document : Document :=
  {| Document.id := "d";
     Document.user_id := "u";
     Document.filename := "a.pdf";
     Document.file_path := "p";
     Document.file_size := 11;
     Document.file_type := "application/pdf";
     Document.chunk_count := 0;
     Document.created_at := "t" |}.

Definition files : gmap string string := {[ "p" := "hello world" ]}.

(** The document above, ingested into an empty index. *)
Definition ingested : (Exn + Z) * Collection :=
  @process_document Demo.externals files ∅ "p" document.

(** An upload by the user of [Demo.world]. *)
Definition uploaded : (Exn + Document) * World :=
  @upload_document Demo.externals default_settings (Demo.world "open_chat" [])
    Demo.upload "u".

Definition uploaded_document : Document :=
  match uploaded.1 with
  | inr doc => doc
  | inl _ => document
  end.

(** A message longer than the context budget of the default
    settings. *)
Definition long_message : Message := Demo.message 0 9000.

End Scenario.

Section ContextWindow.

Lemma sum_tokens_app (l1 l2 : list Message) :
  sum_tokens (l1 ++ l2) = sum_tokens l1 + sum_tokens l2.
Proof. induction l1 as [|m l1 IH]; simpl; [done | rewrite IH; lia]. Qed.

Lemma sum_tokens_reverse (l : list Message) : sum_tokens (reverse l) = sum_tokens l.
Proof.
  induction l as [|m l IH]; [done|].
  rewrite reverse_cons, sum_tokens_app, IH. simpl. lia.
Qed.

Lemma sum_tokens_nonneg (l : list Message) :
  Forall (λ m, 0 ≤ Message.tokens m) l → 0 ≤ sum_tokens l.
Proof. induction 1; simpl; lia. Qed.

Lemma sum_tokens_take_mono (l : list Message) (j k : nat) :
  Forall (λ m, 0 ≤ Message.tokens m) l → (j ≤ k)%nat →
  sum_tokens (take j l) ≤ sum_tokens (take k l).
Proof.
  intros Hl Hjk.
  replace k with (j + (k - j))%nat by lia.
  rewrite <-take_take_drop, sum_tokens_app.
  assert (0 ≤ sum_tokens (take (k - j) (drop j l))); [|lia].
  apply sum_tokens_nonneg, Forall_take, Forall_drop, Hl.
Qed.

(** The loop accepts the first [k] messages of the reversed history
    and stops at the first one that does not fit. *)
Lemma context_window_loop_spec (B : Z) (rs sel : list Message) (tc : Z) :
  ∃ k : nat,
    (k ≤ length rs)%nat ∧
    context_window_loop B rs sel tc = reverse (take k rs) ++ sel ∧
    (∀ j, (j < k)%nat → tc + sum_tokens (take (S j) rs) ≤ B) ∧
    ((k < length rs)%nat → tc + sum_tokens (take (S k) rs) > B).
Proof.
  revert sel tc. induction rs as [|msg rest IH]; intros sel tc.
  - exists 0%nat. simpl. repeat split; [lia | lia | lia].
  - simpl. case_decide as Hfit.
    + exists 0%nat. simpl. repeat split; [lia | lia | lia].
    + destruct (IH (msg :: sel) (tc + Message.tokens msg))
        as (k & Hk & Heq & Hacc & Hstop).
      exists (S k). repeat split.
      * simpl. lia.
      * rewrite Heq. simpl. rewrite reverse_cons, <-app_assoc. done.
      * intros [|j] Hj; simpl.
        -- destruct rest; simpl; lia.
        -- specialize (Hacc j ltac:(lia)). simpl in Hacc. lia.
      * intros Hlt. simpl in Hlt. specialize (Hstop ltac:(lia)).
        simpl in *. lia.
Qed.

End ContextWindow.

Lemma get_context_window_suffix settings (H : list Message) (max_tokens : option Z) :
  get_context_window settings H max_tokens `suffix_of` H.
Proof.
  unfold get_context_window.
  destruct (context_window_loop_spec (effective_max_tokens settings max_tokens)
              (reverse H) [] 0) as (k & _ & Heq & _).
  rewrite Heq, app_nil_r.
  apply suffix_prefix_reverse. rewrite reverse_involutive. apply prefix_take.
Qed.

Lemma get_context_window_remaining_budget settings (H : list Message)
    (max_tokens : option Z) (pre post : list Message) (m : Message) :
  get_context_window settings H max_tokens = pre ++ m :: post →
  Message.tokens m ≤ effective_max_tokens settings max_tokens - sum_tokens post.
Proof.
  unfold get_context_window.
  destruct (context_window_loop_spec (effective_max_tokens settings max_tokens)
              (reverse H) [] 0) as (k & Hk & Heq & Hacc & _).
  rewrite Heq, app_nil_r. intros Hsplit.
  apply (f_equal reverse) in Hsplit.
  rewrite reverse_involutive, reverse_app, reverse_cons, <-app_assoc in Hsplit.
  assert (Hlen : (length post < k)%nat).
  { apply (f_equal length) in Hsplit.
    rewrite length_take, !length_app, !length_reverse in Hsplit. simpl in Hsplit. lia. }
  specialize (Hacc (length post) Hlen).
  assert (Htake : take (S (length post)) (reverse H) = reverse post ++ [m]).
  { replace (take (S (length post)) (reverse H))
      with (take (S (length post)) (take k (reverse H)))
      by (rewrite take_take; f_equal; lia).
    rewrite Hsplit, take_app, take_ge by (rewrite length_reverse; lia).
    rewrite length_reverse. replace (S (length post) - length post)%nat with 1%nat by lia.
    done. }
  rewrite Htake, sum_tokens_app, sum_tokens_reverse in Hacc. simpl in Hacc. lia.
Qed.

Lemma get_context_window_most_recent_exceeds settings (H' : list Message)
    (m : Message) (max_tokens : option Z) :
  Message.tokens m > effective_max_tokens settings max_tokens →
  get_context_window settings (H' ++ [m]) max_tokens = [].
Proof.
  intros Hm. unfold get_context_window. rewrite reverse_app. simpl.
  case_decide; [done | lia].
Qed.

Lemma get_context_window_sum_le settings (H : list Message) (max_tokens : option Z) :
  0 ≤ effective_max_tokens settings max_tokens →
  sum_tokens (get_context_window settings H max_tokens)
    ≤ effective_max_tokens settings max_tokens.
Proof.
  intros HB. unfold get_context_window.
  destruct (context_window_loop_spec (effective_max_tokens settings max_tokens)
              (reverse H) [] 0) as (k & Hk & Heq & Hacc & _).
  rewrite Heq, app_nil_r, sum_tokens_reverse.
  destruct k as [|k]; [by rewrite take_0|].
  specialize (Hacc k ltac:(lia)). lia.
Qed.

Lemma get_context_window_maximal settings (H S : list Message) (max_tokens : option Z) :
  Forall (λ m, 0 ≤ Message.tokens m) H →
  S `suffix_of` H →
  sum_tokens S ≤ effective_max_tokens settings max_tokens →
  (length S ≤ length (get_context_window settings H max_tokens))%nat.
Proof.
  intros Hnn Hsuf Hsum. unfold get_context_window.
  destruct (context_window_loop_spec (effective_max_tokens settings max_tokens)
              (reverse H) [] 0) as (k & Hk & Heq & _ & Hstop).
  rewrite Heq, app_nil_r, length_reverse, length_take_le by done.
  destruct (decide (length S ≤ k)%nat) as [|Hgt]; [done|]. exfalso.
  apply suffix_prefix_reverse in Hsuf. 
  assert (HlenS : (length S ≤ length (reverse H))%nat).
  { apply prefix_length in Hsuf. by rewrite length_reverse in Hsuf. }
  assert (HS : reverse S = take (length S) (reverse H)).
  { destruct Hsuf as [r ->]. by rewrite <-(length_reverse S), take_app_length. }
  specialize (Hstop ltac:(lia)).
  assert (sum_tokens (take (Datatypes.S k) (reverse H))
            ≤ sum_tokens (take (length S) (reverse H))).
  { apply sum_tokens_take_mono; [|lia]. by apply Forall_reverse. }
  rewrite <-HS, sum_tokens_reverse in *. lia.
Qed.

(** [count_tokens] never returns a negative estimate. *)
Lemma count_tokens_nonneg (text : string) : 0 ≤ count_tokens text.
Proof. unfold count_tokens. apply Z.div_pos; lia. Qed.

(** C1.  [get_context_window] returns a suffix of the history [H], in
    the order of [H]; every message kept fits the budget that remained
    when the loop reached it; and when the most recent message alone
    exceeds the budget the result is empty.  For a non-negative budget
    the tokens of the result sum to at most the budget, and for token
    counts that are non-negative, as [count_tokens] gives them, the
    result is at least as long as every suffix of [H] that fits the
    budget. *)
Theorem get_context_window_longest_suffix (settings : Settings)
    (H : list Message) (max_tokens : option Z) :
  get_context_window settings H max_tokens `suffix_of` H ∧
  (0 ≤ effective_max_tokens settings max_tokens →
   sum_tokens (get_context_window settings H max_tokens)
     ≤ effective_max_tokens settings max_tokens) ∧
  (Forall (λ m, 0 ≤ Message.tokens m) H →
   ∀ S, S `suffix_of` H →
        sum_tokens S ≤ effective_max_tokens settings max_tokens →
        (length S ≤ length (get_context_window settings H max_tokens))%nat) ∧
  (∀ pre m post,
     get_context_window settings H max_tokens = pre ++ m :: post →
     Message.tokens m ≤ effective_max_tokens settings max_tokens - sum_tokens post) ∧
  (∀ H' m, H = H' ++ [m] →
           Message.tokens m > effective_max_tokens settings max_tokens →
           get_context_window settings H max_tokens = []).
Proof.
  split_and!.
  - apply get_context_window_suffix.
  - apply get_context_window_sum_le.
  - intros Hnn S. by apply get_context_window_maximal.
  - intros pre m post. apply get_context_window_remaining_budget.
  - intros H' m ->. apply get_context_window_most_recent_exceeds.
Qed.

Lemma Qc_one_minus_anti (d d' : Qc) : (d ≤ d')%Qc → (1 - d' ≤ 1 - d)%Qc.
Proof.
  intros Hd. unfold Qcminus. apply Qcplus_le_mono_l. by apply Qcopp_le_compat.
Qed.

Section Retrieval.
Context `{!Externals}.
Variable settings : Settings.

Lemma retrieve_loop_threshold (i : nat) (rows : list (string * Metadata.t * Qc)) :
  Forall (λ c, (similarity_threshold settings ≤ similarity_score c)%Qc)
         (retrieve_loop settings i rows).
Proof.
  revert i. induction rows as [|[[doc md] d] rest IH]; intros i; simpl; [constructor|].
  case_decide; [constructor; [done|]|]; apply IH.
Qed.

Lemma retrieve_loop_none (i : nat) (rows : list (string * Metadata.t * Qc)) :
  Forall (λ row, ¬ (similarity_threshold settings ≤ 1 - row.2)%Qc) rows →
  retrieve_loop settings i rows = [].
Proof.
  intros Hall. revert i.
  induction Hall as [|[[doc md] d] rest Hd _ IH]; intros i; simpl; [done|].
  case_decide; [done | apply IH].
Qed.

Lemma retrieve_loop_elem (i : nat) (rows : list (string * Metadata.t * Qc)) c :
  c ∈ retrieve_loop settings i rows →
  ∃ row, row ∈ rows ∧ chunk_content c = row.1.1 ∧ chunk_metadata c = row.1.2 ∧
         similarity_score c = (1 - row.2)%Qc.
Proof.
  revert i. induction rows as [|[[doc md] d] rest IH]; intros i; simpl.
  - by intros ?%elem_of_nil.
  - case_decide.
    + intros [->|Hin]%elem_of_cons.
      * exists (doc, md, d). split; [left|done].
      * destruct (IH _ Hin) as (row & ? & ?). exists row. split; [by right|done].
    + intros Hin. destruct (IH _ Hin) as (row & ? & ?).
      exists row. split; [by right|done].
Qed.

Lemma retrieve_loop_complete (i : nat) (rows : list (string * Metadata.t * Qc)) row :
  row ∈ rows → (similarity_threshold settings ≤ 1 - row.2)%Qc →
  ∃ c, c ∈ retrieve_loop settings i rows ∧
       chunk_content c = row.1.1 ∧ chunk_metadata c = row.1.2 ∧
       similarity_score c = (1 - row.2)%Qc.
Proof.
  intros Hin Hthr. revert i.
  induction rows as [|[[doc md] d] rest IH]; intros i; simpl.
  - by apply elem_of_nil in Hin.
  - apply elem_of_cons in Hin as [->|Hin].
    + simpl in Hthr. rewrite decide_True by done. eexists. split; [left|done].
    + destruct (IH Hin (S i)) as (c & ? & ?).
      exists c. split; [|done]. case_decide; [by right|done].
Qed.

(** On rows in non-decreasing order of distance the loop keeps a prefix. *)
Lemma retrieve_loop_sorted (i : nat) (rows : list (string * Metadata.t * Qc)) :
  StronglySorted Qcle rows.*2 →
  retrieve_loop settings i rows =
    imap (λ j row, to_chunk (i + j) row)
         (take (length (retrieve_loop settings i rows)) rows).
Proof.
  revert i. induction rows as [|[[doc md] d] rest IH]; intros i Hs; [done|].
  rewrite fmap_cons in Hs. apply StronglySorted_inv in Hs as [Hs Hall].
  cbn [retrieve_loop]. case_decide as Hthr.
  - cbn [length take]. rewrite imap_cons. f_equal.
    + unfold to_chunk. simpl. by rewrite Nat.add_0_r.
    + rewrite (IH (S i) Hs) at 1. apply imap_ext. intros j row _. simpl.
      by rewrite Nat.add_succ_r.
  - rewrite retrieve_loop_none; [done|].
    rewrite Forall_fmap in Hall. eapply Forall_impl; [exact Hall|].
    intros row Hle Hrow. simpl in Hle. apply Hthr.
    etrans; [exact Hrow|]. by apply Qc_one_minus_anti.
Qed.

Lemma retrieve_loop_descending (i : nat) (rows : list (string * Metadata.t * Qc)) :
  StronglySorted Qcle rows.*2 →
  StronglySorted (λ a b, (similarity_score b ≤ similarity_score a)%Qc)
                 (retrieve_loop settings i rows).
Proof.
  revert i. induction rows as [|[[doc md] d] rest IH]; intros i Hs; [constructor|].
  rewrite fmap_cons in Hs. apply StronglySorted_inv in Hs as [Hs Hall].
  cbn [retrieve_loop]. case_decide; [|by apply IH].
  constructor; [by apply IH|].
  apply Forall_forall. intros c (row & Hrow & _ & _ & ->)%retrieve_loop_elem.
  simpl. apply Qc_one_minus_anti.
  rewrite Forall_fmap, Forall_forall in Hall. by apply (Hall row).
Qed.

Lemma retrieve_loop_length (i : nat) (rows : list (string * Metadata.t * Qc)) :
  (length (retrieve_loop settings i rows) ≤ length rows)%nat.
Proof.
  revert i. induction rows as [|[[doc md] d] rest IH]; intros i; simpl; [done|].
  case_decide; simpl; specialize (IH (S i)); lia.
Qed.

Lemma retrieve_loop_ranks (i : nat) (rows : list (string * Metadata.t * Qc)) :
  StronglySorted Qcle rows.*2 →
  rank <$> retrieve_loop settings i rows
    = Z.of_nat <$> seq (S i) (length (retrieve_loop settings i rows)).
Proof.
  intros Hs. rewrite (retrieve_loop_sorted i rows Hs) at 1.
  rewrite fmap_imap.
  rewrite (imap_ext _ (λ j _, Z.of_nat (S i + j))).
  - rewrite imap_seq, length_take_le; [done | apply retrieve_loop_length].
  - intros j row _. simpl. lia.
Qed.

Lemma retrieve_loop_scores (i : nat) (rows : list (string * Metadata.t * Qc)) :
  StronglySorted Qcle rows.*2 →
  similarity_score <$> retrieve_loop settings i rows
    = (λ d, 1 - d)%Qc <$> take (length (retrieve_loop settings i rows)) rows.*2.
Proof.
  intros Hs. rewrite (retrieve_loop_sorted i rows Hs) at 1.
  rewrite fmap_imap, <-fmap_take, <-list_fmap_compose.
  rewrite (imap_ext _ (const ((λ d : Qc, (1 - d)%Qc) ∘ snd))); [|done].
  by rewrite imap_const.
Qed.

(** [format_results] runs the loop over the three inner lists zipped. *)
Lemma format_results_rows (results : QueryResult) :
  format_results settings results =
  retrieve_loop settings 0
    (zip (zip (hd [] (res_documents results)) (hd [] (res_metadatas results)))
         (hd [] (res_distances results))).
Proof.
  unfold format_results. by destruct (res_documents results) as [|[|doc docs] ?].
Qed.

End Retrieval.

Lemma snd_zip_take {A B} (l : list A) (k : list B) : (zip l k).*2 = take (length l) k.
Proof.
  revert k. induction l as [|x l IH]; intros [|y k]; simpl; [done..|].
  by rewrite <-IH.
Qed.

Lemma StronglySorted_take {A} (R : relation A) (n : nat) (l : list A) :
  StronglySorted R l → StronglySorted R (take n l).
Proof.
  intros Hs. revert n. induction Hs as [|x l Hs IH Hall]; intros [|n]; simpl;
    [constructor..|].
  constructor; [apply IH | by apply Forall_take].
Qed.

(** C2, as the code has it.  For a query result whose distances are
    in non-decreasing order, as the index returns them, every chunk
    returned has similarity [1 - distance] at least the threshold, the
    scores are those of the first N distances, the sequence is in
    non-increasing order of similarity (equal scores can follow each
    other), and the ranks are exactly 1..N. *)
Theorem format_results_filtered_ranked (settings : Settings) (results : QueryResult) :
  Sorted Qcle (hd [] (res_distances results)) →
  Forall (λ c, (similarity_threshold settings ≤ similarity_score c)%Qc)
         (format_results settings results) ∧
  similarity_score <$> format_results settings results
    = (λ d, 1 - d)%Qc <$> take (length (format_results settings results))
                               (hd [] (res_distances results)) ∧
  StronglySorted chunks_descending (format_results settings results) ∧
  rank <$> format_results settings results
    = Z.of_nat <$> seq 1 (length (format_results settings results)).
Proof.
  intros Hs. apply Sorted_StronglySorted in Hs; [|apply _].
  rewrite format_results_rows.
  set (rows := zip _ _).
  assert (Hrows : StronglySorted Qcle rows.*2).
  { subst rows. rewrite snd_zip_take. by apply StronglySorted_take. }
  split_and!.
  - apply retrieve_loop_threshold.
  - rewrite retrieve_loop_scores by done. subst rows.
    rewrite snd_zip_take, take_take. do 2 f_equal.
    pose proof (retrieve_loop_length settings 0
      (zip (zip (hd [] (res_documents results)) (hd [] (res_metadatas results)))
         (hd [] (res_distances results)))) as Hlen.
    rewrite length_zip in Hlen. lia.
  - by apply retrieve_loop_descending.
  - by apply retrieve_loop_ranks.
Qed.

#[global] Instance by_distance_trans {A} : Transitive (@by_distance A).
Proof. intros a b c. unfold by_distance. apply Qcle_trans. Qed.
#[global] Instance by_distance_total {A} : Total (@by_distance A).
Proof. intros a b. unfold by_distance. apply Qc_le_total. Qed.

Lemma zip_fmap_same {A B C} (f : A → B) (g : A → C) (l : list A) :
  zip (f <$> l) (g <$> l) = (λ x, (f x, g x)) <$> l.
Proof. induction l as [|x l IH]; [done|]. csimpl. by rewrite IH. Qed.

Section Index.
Context `{!Externals}.
Variable settings : Settings.

Lemma format_results_collection_query (coll : Collection) (q : Embedding)
    (k : nat) (w : option Where) :
  format_results settings (collection_query coll q k w)
    = retrieve_loop settings 0 (query_row <$> nearest_rows coll q k w).
Proof.
  rewrite format_results_rows. unfold collection_query. cbn [hd res_documents
    res_metadatas res_distances].
  by rewrite !zip_fmap_same.
Qed.

Lemma nearest_rows_sorted (coll : Collection) (q : Embedding) (k : nat)
    (w : option Where) :
  StronglySorted Qcle (query_row <$> nearest_rows coll q k w).*2.
Proof.
  rewrite <-list_fmap_compose. unfold nearest_rows.
  apply (StronglySorted_fmap _ by_distance); [done|].
  apply StronglySorted_take, StronglySorted_merge_sort; apply _.
Qed.

Lemma nearest_rows_elem (coll : Collection) (q : Embedding) (k : nat)
    (w : option Where) (r : string * StoredChunk * Qc) :
  r ∈ nearest_rows coll q k w →
  coll !! r.1.1 = Some r.1.2 ∧ where_matches w (metadata r.1.2) ∧
  r.2 = cosine_distance q (embedding r.1.2).
Proof.
  unfold nearest_rows, query_candidates. intros Hin%subseteq_take.
  rewrite merge_sort_Permutation in Hin.
  apply list_elem_of_fmap in Hin as ([id c] & -> & [Hw Hin]%list_elem_of_filter).
  apply elem_of_map_to_list in Hin. done.
Qed.

Lemma nearest_rows_complete (coll : Collection) (q : Embedding) (k : nat)
    (w : option Where) (id : string) (c : StoredChunk) :
  (size coll ≤ k)%nat → coll !! id = Some c → where_matches w (metadata c) →
  (id, c, cosine_distance q (embedding c)) ∈ nearest_rows coll q k w.
Proof.
  intros Hk Hc Hw. unfold nearest_rows, query_candidates.
  rewrite take_ge.
  - rewrite merge_sort_Permutation. apply list_elem_of_fmap.
    exists (id, c). split; [done|]. apply list_elem_of_filter. split; [done|].
    by apply elem_of_map_to_list.
  - rewrite merge_sort_Permutation, length_fmap.
    etrans; [apply length_filter|]. by rewrite length_map_to_list.
Qed.

End Index.

Section Scope.
Context `{!Externals}.
Variable settings : Settings.

Lemma retrieve_relevant_chunks_rows (coll : Collection) (query : string)
    (document_ids : list string) (top_k : option nat) :
  retrieve_relevant_chunks settings coll query document_ids top_k
    = retrieve_loop settings 0
        (query_row <$> nearest_rows coll (embed_query query)
                         (effective_top_k settings top_k)
                         (build_where_filter document_ids)).
Proof. unfold retrieve_relevant_chunks. apply format_results_collection_query. Qed.

(** What [retrieve_relevant_chunks] returns is filtered, in
    non-increasing order of similarity and ranked 1..N, whatever the
    index holds. *)
Lemma retrieve_relevant_chunks_filtered_ranked (coll : Collection) (query : string)
    (document_ids : list string) (top_k : option nat) :
  let R := retrieve_relevant_chunks settings coll query document_ids top_k in
  Forall (λ c, (similarity_threshold settings ≤ similarity_score c)%Qc) R ∧
  StronglySorted chunks_descending R ∧
  rank <$> R = Z.of_nat <$> seq 1 (length R).
Proof.
  intros R. subst R. rewrite retrieve_relevant_chunks_rows.
  pose proof (nearest_rows_sorted coll (embed_query query)
                (effective_top_k settings top_k) (build_where_filter document_ids)).
  split_and!.
  - apply retrieve_loop_threshold.
  - by apply retrieve_loop_descending.
  - by apply retrieve_loop_ranks.
Qed.

Lemma retrieve_relevant_chunks_in_scope (coll : Collection) (query : string)
    (document_ids : list string) (top_k : option nat) (r : RetrievedChunk) :
  document_ids ≠ [] →
  r ∈ retrieve_relevant_chunks settings coll query document_ids top_k →
  Metadata.document_id (chunk_metadata r) ∈ document_ids.
Proof.
  intros Hne. rewrite retrieve_relevant_chunks_rows.
  intros (row & Hrow & _ & -> & _)%retrieve_loop_elem.
  apply list_elem_of_fmap in Hrow as (nr & -> & Hnr).
  apply nearest_rows_elem in Hnr as (_ & Hw & _).
  destruct document_ids as [|d ds]; [done|]. simpl in Hw.
  by apply bool_decide_unpack in Hw.
Qed.

Lemma retrieve_relevant_chunks_unscoped (coll : Collection) (query : string)
    (top_k : option nat) (id : string) (c : StoredChunk) :
  coll !! id = Some c →
  (size coll ≤ effective_top_k settings top_k)%nat →
  (similarity_threshold settings
     ≤ 1 - cosine_distance (embed_query query) (embedding c))%Qc →
  ∃ r, r ∈ retrieve_relevant_chunks settings coll query [] top_k ∧
       chunk_content r = document c ∧ chunk_metadata r = metadata c.
Proof.
  intros Hc Hk Hthr. rewrite retrieve_relevant_chunks_rows.
  destruct (retrieve_loop_complete settings 0
              (query_row <$> nearest_rows coll (embed_query query)
                 (effective_top_k settings top_k) (build_where_filter []))
              (query_row (id, c, cosine_distance (embed_query query) (embedding c))))
    as (r & Hr & Hcontent & Hmd & _).
  - apply list_elem_of_fmap. eexists. split; [done|].
    by apply nearest_rows_complete.
  - done.
  - by exists r.
Qed.

End Scope.

(** C10.  With an empty [document_ids] no [where] filter is built: the
    query is the unfiltered one, so a chunk of any document is returned
    when it is among the nearest and meets the threshold; with a
    non-empty list every chunk returned belongs to a listed document. *)
Theorem retrieve_relevant_chunks_empty_scope `{!Externals} (settings : Settings)
    (coll : Collection) (query : string) (top_k : option nat) :
  build_where_filter [] = None ∧
  (∀ md, where_matches None md = true) ∧
  retrieve_relevant_chunks settings coll query [] top_k
    = format_results settings
        (collection_query coll (embed_query query)
           (effective_top_k settings top_k) None) ∧
  (∀ id c,
     coll !! id = Some c →
     (size coll ≤ effective_top_k settings top_k)%nat →
     (similarity_threshold settings
        ≤ 1 - cosine_distance (embed_query query) (embedding c))%Qc →
     ∃ r, r ∈ retrieve_relevant_chunks settings coll query [] top_k ∧
          chunk_content r = document c ∧ chunk_metadata r = metadata c) ∧
  (∀ document_ids r,
     document_ids ≠ [] →
     r ∈ retrieve_relevant_chunks settings coll query document_ids top_k →
     Metadata.document_id (chunk_metadata r) ∈ document_ids).
Proof.
  split_and!; [done | done | done | |].
  - intros id c. apply retrieve_relevant_chunks_unscoped.
  - intros document_ids r. apply retrieve_relevant_chunks_in_scope.
Qed.

Section Deletion.

Lemma collection_get_ids_elem (coll : Collection) (w : option Where) (id : string) :
  id ∈ collection_get_ids coll w ↔
  ∃ c, coll !! id = Some c ∧ where_matches w (metadata c).
Proof.
  unfold collection_get_ids. rewrite list_elem_of_fmap. split.
  - intros ([id' c] & -> & [Hw Hin]%list_elem_of_filter).
    exists c. split; [by apply elem_of_map_to_list | done].
  - intros (c & Hc & Hw). exists (id, c). split; [done|].
    apply list_elem_of_filter. split; [done | by apply elem_of_map_to_list].
Qed.

Lemma collection_delete_lookup (coll : Collection) (ids : list string) (id : string) :
  collection_delete coll ids !! id = if decide (id ∈ ids) then None else coll !! id.
Proof.
  unfold collection_delete. induction ids as [|i ids IH]; cbn [foldr].
  - rewrite decide_False; [done | apply not_elem_of_nil].
  - destruct (decide (i = id)) as [->|Hne].
    + rewrite lookup_delete_eq, decide_True; [done | left].
    + rewrite lookup_delete_ne, IH by done.
      destruct (decide (id ∈ ids)) as [Hin|Hin].
      * rewrite decide_True; [done | by right].
      * rewrite decide_False; [done|]. by intros [?|?]%elem_of_cons.
Qed.

End Deletion.

(** C7.  After [delete_document_chunks coll D] a chunk id is bound in
    the index exactly when it was bound before to a chunk whose
    metadata names another document, and then to the same chunk: every
    chunk of [D] is gone and every other chunk is kept. *)
Theorem delete_document_chunks_exact (coll : Collection) (D : string) (id : string) :
  delete_document_chunks coll D !! id =
  match coll !! id with
  | Some c => if decide (Metadata.document_id (metadata c) = D) then None else Some c
  | None => None
  end.
Proof.
  unfold delete_document_chunks.
  pose proof (collection_get_ids_elem coll (Some (DocumentIdEq D)) id) as Hids.
  pose proof (collection_delete_lookup coll
                (collection_get_ids coll (Some (DocumentIdEq D))) id) as Hdel.
  assert (Hmatch : ∀ c, coll !! id = Some c →
            (id ∈ collection_get_ids coll (Some (DocumentIdEq D))
             ↔ Metadata.document_id (metadata c) = D)).
  { intros c Hc. rewrite Hids. split.
    - intros (c' & Hc' & Hw). simplify_eq. by apply bool_decide_unpack in Hw.
    - intros HD. exists c. split; [done|]. by apply bool_decide_pack. }
  destruct (collection_get_ids coll (Some (DocumentIdEq D))) as [|i ids] eqn:Hget.
  - destruct (coll !! id) as [c|] eqn:Hc; [|done].
    destruct (decide (Metadata.document_id (metadata c) = D)) as [HD|HD]; [|done].
    apply (Hmatch c eq_refl) in HD. by apply elem_of_nil in HD.
  - rewrite Hdel.
    destruct (coll !! id) as [c|] eqn:Hc.
    + destruct (decide (Metadata.document_id (metadata c) = D)) as [HD|HD].
      * rewrite decide_True; [done | by apply (Hmatch c)].
      * rewrite decide_False; [done | by rewrite (Hmatch c)].
    + by case_decide.
Qed.

Section Generation.
Context `{!Externals}.
Variable settings : Settings.

Lemma langchain_of_message_valid (m : Message) :
  valid_role m → is_Some (langchain_of_message m).
Proof.
  unfold valid_role, langchain_of_message.
  rewrite !elem_of_cons, elem_of_nil. intros [->|[->|[->|[]]]]; by eexists.
Qed.

Lemma omap_langchain_length (l : list Message) :
  Forall valid_role l → length (omap langchain_of_message l) = length l.
Proof.
  induction 1 as [|m l Hm _ IH]; [done|]. csimpl.
  destruct (langchain_of_message_valid m Hm) as [lm ->]. simpl. by rewrite IH.
Qed.

Lemma string_prefix_app (p s : string) : String.prefix p (p +:+ s) = true.
Proof.
  induction p as [|c p IH]; simpl; [by destruct s|].
  destruct (ascii_dec c c); [exact IH | done].
Qed.

Lemma select_system_prompt_strict (rag_context : option string) :
  String.prefix rag_system_prompt_prefix (select_system_prompt rag_context None) = true
  ↔ str_truthy rag_context = true.
Proof.
  unfold select_system_prompt.
  destruct rag_context as [[|c ctx]|]; simpl str_truthy; cbv iota.
  - split; [|done]. by vm_compute.
  - split; [done|]. intros _. apply string_prefix_app.
  - split; [|done]. by vm_compute.
Qed.

End Generation.

(** C8.  With no caller-supplied system prompt, [generate_response]
    sends the chosen system prompt followed by the budget-constrained
    history, every message of it when the roles are the three admitted
    ones, and on a reply of the model returns [input_tokens] equal to
    the token sum of that constrained history, [output_tokens] equal to
    the token estimate of the reply and [total_tokens] equal to their
    sum; the documents-only prompt is chosen exactly when the grounding
    text is a non-empty string, the default prompt otherwise. *)
Theorem generate_response_accounting `{!Externals} (settings : Settings)
    (messages : list Message) (rag_context : option string) :
  (Forall valid_role messages →
   length (omap langchain_of_message (get_context_window settings messages None))
     = length (get_context_window settings messages None)) ∧
  generate_response settings messages rag_context None =
    match llm_agenerate
            (SystemMessage (select_system_prompt rag_context None)
               :: omap langchain_of_message
                    (get_context_window settings messages None)) with
    | inl e => inl e
    | inr text =>
        inr {| resp_content := text;
               input_tokens := sum_tokens (get_context_window settings messages None);
               output_tokens := count_tokens text;
               total_tokens :=
                 sum_tokens (get_context_window settings messages None)
                 + count_tokens text |}
    end ∧
  (∀ resp, generate_response settings messages rag_context None = inr resp →
     input_tokens resp = sum_tokens (get_context_window settings messages None) ∧
     output_tokens resp = count_tokens (resp_content resp) ∧
     total_tokens resp = input_tokens resp + output_tokens resp) ∧
  (String.prefix rag_system_prompt_prefix (select_system_prompt rag_context None) = true
   ↔ str_truthy rag_context = true) ∧
  (∀ ctx, rag_context = Some ctx → str_truthy rag_context = true →
     select_system_prompt rag_context None = rag_system_prompt_prefix +:+ ctx) ∧
  (str_truthy rag_context = false →
     select_system_prompt rag_context None = default_system_prompt).
Proof.
  assert (Hprompt : str_truthy (Some (select_system_prompt rag_context None)) = true).
  { unfold select_system_prompt. by destruct rag_context as [[|c ctx]|]. }
  assert (Hgen : generate_response settings messages rag_context None =
    match llm_agenerate
            (SystemMessage (select_system_prompt rag_context None)
               :: omap langchain_of_message
                    (get_context_window settings messages None)) with
    | inl e => inl e
    | inr text =>
        inr {| resp_content := text;
               input_tokens := sum_tokens (get_context_window settings messages None);
               output_tokens := count_tokens text;
               total_tokens :=
                 sum_tokens (get_context_window settings messages None)
                 + count_tokens text |}
    end).
  { unfold generate_response, format_messages_for_llm. by rewrite Hprompt. }
  split_and!.
  - intros Hroles. apply omap_langchain_length.
    destruct (get_context_window_suffix settings messages None) as [k Hk].
    rewrite Hk in Hroles. by apply Forall_app in Hroles as [_ ?].
  - exact Hgen.
  - intros resp. rewrite Hgen. destruct (llm_agenerate _); [done|].
    by intros [= <-].
  - apply select_system_prompt_strict.
  - intros ctx -> Htruthy. unfold select_system_prompt. by rewrite Htruthy.
  - intros Hfalsy. unfold select_system_prompt.
    destruct rag_context as [ctx|]; [by rewrite Hfalsy | done].
Qed.

#[global] Instance by_seq_desc_trans : Transitive by_seq_desc.
Proof. intros a b c. unfold by_seq_desc. lia. Qed.
#[global] Instance by_seq_desc_total : Total by_seq_desc.
Proof. intros a b. unfold by_seq_desc. lia. Qed.

(** The case analysis of a turn on an existing conversation: the
    flush, the mode, the document list, the answer of the index, the
    answer of the model, the commit. *)
Ltac turn_cases conv :=
  cbv zeta;
  match goal with
  | |- context [decide (message_storable ?m)] =>
      destruct (decide (message_storable m)) as [Hflush|Hflush]
  end;
  [ destruct (decide (Conversation.mode conv = "grounded")) as [Hmode|Hmode];
    [ destruct (Conversation.document_ids conv) as [|d ds] eqn:Hids;
      [ | unfold retrieve_relevant_chunks_call, effective_top_k;
          destruct (top_k_chunks _) as [|k] eqn:Hk; cbn [validate_n_results] ]
    | ];
    cbv iota beta;
    try match goal with
        | |- context [generate_response ?s ?m ?r None] =>
            destruct (generate_response s m r None) as [gen_error|gen_resp] eqn:Hgen;
            [ | match goal with
                | |- context [decide (message_storable ?m ∧ ?t)] =>
                    destruct (decide (message_storable m ∧ t)) as [Hcommit|Hcommit]
                end ]
        end
  | ].

Section Turn.
Context `{!Externals}.
Variable settings : Settings.

(** [order_by(sequence_number.desc()).first()] is a row of largest
    sequence number, and is missing only when there are no rows. *)
Lemma head_merge_sort_desc (l : list Message) :
  match head (merge_sort by_seq_desc l) with
  | Some last =>
      last ∈ l ∧
      ∀ m, m ∈ l → Message.sequence_number m ≤ Message.sequence_number last
  | None => l = []
  end.
Proof.
  pose proof (StronglySorted_merge_sort by_seq_desc l) as Hs.
  pose proof (merge_sort_Permutation by_seq_desc l) as Hp.
  destruct (merge_sort by_seq_desc l) as [|last s]; simpl.
  - by apply Permutation_nil_l in Hp.
  - apply StronglySorted_inv in Hs as [_ Hall]. split.
    + rewrite <-Hp. left.
    + intros m Hm. rewrite <-Hp in Hm. apply elem_of_cons in Hm as [->|Hm]; [done|].
      rewrite Forall_forall in Hall. by apply Hall.
Qed.

Lemma get_next_sequence_number_spec (d : Database) (conversation_id : string) :
  let existing :=
    filter (λ m, Message.conversation_id m = conversation_id) (messages d) in
  (existing = [] → get_next_sequence_number d conversation_id = 0) ∧
  (existing ≠ [] →
     (∃ m, m ∈ existing ∧
           get_next_sequence_number d conversation_id = Message.sequence_number m + 1) ∧
     (∀ m, m ∈ existing →
           Message.sequence_number m < get_next_sequence_number d conversation_id)).
Proof.
  intros existing. unfold get_next_sequence_number. fold existing.
  pose proof (head_merge_sort_desc existing) as Hhead.
  destruct (head (merge_sort by_seq_desc existing)) as [last|].
  - destruct Hhead as [Hin Hmax]. split.
    + intros Hnil. rewrite Hnil in Hin. by apply elem_of_nil in Hin.
    + intros _. split; [exists last; split; [exact Hin | reflexivity]|].
      intros m Hm. specialize (Hmax m Hm). lia.
  - split; [done|]. by intros [].
Qed.

(** A turn on an existing conversation: the index is never written,
    and this is the result of a turn that returns. *)
Lemma turn_inv (w : World) (conversation_id content : string) (conv : Conversation) :
  get_conversation (db w) conversation_id = Some conv →
  let out := add_message_and_get_response settings w conversation_id content in
  let retrieved := turn_retrieved settings w conv content in
  collection out.2 = collection w ∧
  ∀ res, out.1 = inr res →
    user_message res = new_user_message w conversation_id content ∧
    Message.sequence_number (assistant_message res)
      = Message.sequence_number (user_message res) + 1 ∧
    Message.tokens (assistant_message res)
      = count_tokens (Message.content (assistant_message res)) ∧
    Message.role (assistant_message res) = "assistant" ∧
    Message.extra_data (assistant_message res)
      = match retrieved with
        | [] => None
        | _ :: _ =>
            Some {| rag_chunks_used := Z.of_nat (length retrieved);
                    rag_similarity_scores := similarity_score <$> retrieved |}
        end ∧
    Conversation.total_tokens (turn_conversation res)
      = Conversation.total_tokens conv
        + (Message.tokens (user_message res)
           + Message.tokens (assistant_message res)) ∧
    Conversation.updated_at (turn_conversation res)
      = Message.created_at (user_message res) ∧
    get_conversation (db out.2) conversation_id = Some (turn_conversation res) ∧
    messages (db out.2)
      = messages (db w) ++ [user_message res; assistant_message res].
Proof.
  intros Hconv. unfold add_message_and_get_response, turn_retrieved. rewrite Hconv.
  turn_cases conv.
  all: cbn [fst snd calls collection db]; (split; [done|]).
  all: try (intros res [=]; fail).
  all: intros res [= <-]; cbn.
  all: unfold generate_response in Hgen;
       try (destruct (llm_agenerate _); [done|]; injection Hgen as <-; cbn).
  all: unfold get_conversation; cbn; rewrite ?lookup_insert_eq; done.
Qed.

End Turn.

Section TurnClaims.
Context `{!Externals}.
Variable settings : Settings.

Lemma turn_not_found (w : World) (conversation_id content : string) :
  get_conversation (db w) conversation_id = None →
  add_message_and_get_response settings w conversation_id content
    = (inl (ValueError "Conversation not found"), w).
Proof. intros Hnone. unfold add_message_and_get_response. by rewrite Hnone. Qed.

Lemma turn_success_conversation (w w' : World) (conversation_id content : string)
    (res : TurnResult) :
  add_message_and_get_response settings w conversation_id content = (inr res, w') →
  ∃ conv, get_conversation (db w) conversation_id = Some conv.
Proof.
  intros Hturn. destruct (get_conversation (db w) conversation_id) as [conv|] eqn:Hc.
  - by exists conv.
  - by rewrite turn_not_found in Hturn.
Qed.

(** The calls of a turn whose user message was flushed: the retrieval
    call, if the conversation is grounded and lists documents, and
    then nothing else but the generation call, which is made when the
    index accepts the query. *)
Lemma turn_calls (w : World) (conversation_id content : string) (conv : Conversation) :
  get_conversation (db w) conversation_id = Some conv →
  message_storable (new_user_message w conversation_id content) →
  ∃ rest,
    calls (add_message_and_get_response settings w conversation_id content).2 =
      calls w
      ++ (if decide (Conversation.mode conv = "grounded"
                     ∧ Conversation.document_ids conv ≠ [])
          then [CallRetrieve content (Conversation.document_ids conv)] else [])
      ++ rest ∧
    (∀ q ids, CallRetrieve q ids ∉ rest) ∧
    ((Conversation.mode conv = "grounded" → Conversation.document_ids conv ≠ [] →
      top_k_chunks settings ≠ 0%nat) →
     rest = [CallGenerate
               (get_messages (db w) conversation_id
                  ++ [new_user_message w conversation_id content])
               (turn_rag_context settings w conv content)]).
Proof.
  intros Hconv.
  unfold add_message_and_get_response, turn_rag_context, turn_retrieved, new_user_message.
  rewrite Hconv. turn_cases conv; intros Hfit; [..|done].
  all: cbn [fst snd calls].
  all: rewrite <-?app_assoc.
  all: first [ rewrite decide_True by (split; [done|congruence])
             | rewrite decide_False by (intros [? ?]; done) ].
  all: first [ exists (@nil Call); rewrite ?app_nil_r; split; [reflexivity|];
               split; [intros q ids Hin; by apply elem_of_nil in Hin|];
               intros Hk'; exfalso; by apply Hk'
             | eexists [_]; split; [reflexivity|];
               split; [intros q ids Hin; by apply list_elem_of_singleton in Hin|];
               intros _; reflexivity ].
Qed.

(** A turn on an existing conversation returns as soon as every row
    can be written, the index accepts the query and the model
    answers; the assistant message is the model's answer. *)
Lemma turn_succeeds (w : World) (conversation_id content : string)
    (conv : Conversation) (resp : LLMResponse) :
  get_conversation (db w) conversation_id = Some conv →
  message_storable (new_user_message w conversation_id content) →
  (Conversation.mode conv = "grounded" → Conversation.document_ids conv ≠ [] →
   top_k_chunks settings ≠ 0%nat) →
  generate_response settings
    (get_messages (db w) conversation_id
       ++ [new_user_message w conversation_id content])
    (turn_rag_context settings w conv content) None = inr resp →
  sqlite_integer (output_tokens resp) →
  sqlite_integer (get_next_sequence_number (db w) conversation_id + 1) →
  sqlite_integer (Conversation.total_tokens conv
                  + (count_tokens content + output_tokens resp)) →
  ∃ res w',
    add_message_and_get_response settings w conversation_id content = (inr res, w') ∧
    Message.content (assistant_message res) = resp_content resp ∧
    Message.tokens (assistant_message res) = output_tokens resp.
Proof.
  intros Hconv.
  unfold add_message_and_get_response, turn_rag_context, turn_retrieved, new_user_message.
  rewrite Hconv. turn_cases conv; intros Hfit Hk' Hresp Hout Hseq Htotal; try done.
  all: try (exfalso; by apply Hk').
  all: try (injection Hresp as <-; first [ by eexists _, _ | exfalso; apply Hcommit; done ]).
Qed.

(** The assistant message of a turn that returns is an answer of the
    generation call. *)
Lemma turn_returns_generated (w : World) (conversation_id content : string)
    (conv : Conversation) (res : TurnResult) :
  get_conversation (db w) conversation_id = Some conv →
  (add_message_and_get_response settings w conversation_id content).1 = inr res →
  ∃ resp,
    generate_response settings
      (get_messages (db w) conversation_id
         ++ [new_user_message w conversation_id content])
      (turn_rag_context settings w conv content) None = inr resp ∧
    Message.content (assistant_message res) = resp_content resp ∧
    Message.tokens (assistant_message res) = output_tokens resp ∧
    message_storable (user_message res) ∧ message_storable (assistant_message res) ∧
    (Conversation.mode conv = "grounded" → Conversation.document_ids conv ≠ [] →
     top_k_chunks settings ≠ 0%nat).
Proof.
  intros Hconv.
  unfold add_message_and_get_response, turn_rag_context, turn_retrieved, new_user_message.
  rewrite Hconv. turn_cases conv; cbn [fst]; intros [= <-].
  all: exists gen_resp; cbn; destruct Hcommit as [? ?]; split_and!; try done.
  all: try congruence.
Qed.

(** A turn that raises stores nothing. *)
Lemma turn_failure_db (w : World) (conversation_id content : string) (e : Exn) :
  (add_message_and_get_response settings w conversation_id content).1 = inl e →
  db (add_message_and_get_response settings w conversation_id content).2 = db w.
Proof.
  unfold add_message_and_get_response.
  destruct (get_conversation (db w) conversation_id) as [conv|]; [|done].
  turn_cases conv; done.
Qed.

(** An error of the generation call is the error of the turn. *)
Lemma turn_generation_error (w : World) (conversation_id content : string)
    (conv : Conversation) (e : Exn) :
  get_conversation (db w) conversation_id = Some conv →
  message_storable (new_user_message w conversation_id content) →
  (Conversation.mode conv = "grounded" → Conversation.document_ids conv ≠ [] →
   top_k_chunks settings ≠ 0%nat) →
  generate_response settings
    (get_messages (db w) conversation_id
       ++ [new_user_message w conversation_id content])
    (turn_rag_context settings w conv content) None = inl e →
  (add_message_and_get_response settings w conversation_id content).1 = inl e.
Proof.
  intros Hconv.
  unfold add_message_and_get_response, turn_rag_context, turn_retrieved, new_user_message.
  rewrite Hconv. turn_cases conv; intros Hfit Hk' Hgen'; try done.
  all: try (exfalso; by apply Hk').
  all: by injection Hgen' as <-.
Qed.

End TurnClaims.

(** C5.  A turn on an identifier that names no conversation raises
    [ValueError "Conversation not found"] and leaves the store, the
    index, the upload directory and the call log as they were: no
    message is created and no conversation is modified. *)
Theorem turn_conversation_not_found `{!Externals} (settings : Settings)
    (w : World) (conversation_id content : string) :
  get_conversation (db w) conversation_id = None →
  add_message_and_get_response settings w conversation_id content
    = (inl (ValueError "Conversation not found"), w).
Proof. apply turn_not_found. Qed.

(** C3.  In a turn that returns, the user message carries sequence
    number 0 when the conversation has no messages and otherwise one
    more than the largest sequence number among them, and the assistant
    message carries the user message's sequence number plus one. *)
Theorem turn_sequence_numbers `{!Externals} (settings : Settings)
    (w w' : World) (conversation_id content : string) (res : TurnResult) :
  add_message_and_get_response settings w conversation_id content = (inr res, w') →
  (filter (λ m, Message.conversation_id m = conversation_id) (messages (db w)) = [] →
     Message.sequence_number (user_message res) = 0 ∧
     Message.sequence_number (assistant_message res) = 1) ∧
  (filter (λ m, Message.conversation_id m = conversation_id) (messages (db w)) ≠ [] →
     (∃ m, m ∈ filter (λ m, Message.conversation_id m = conversation_id)
                      (messages (db w)) ∧
           Message.sequence_number (user_message res)
             = Message.sequence_number m + 1) ∧
     (∀ m, m ∈ filter (λ m, Message.conversation_id m = conversation_id)
                      (messages (db w)) →
           Message.sequence_number m < Message.sequence_number (user_message res))) ∧
  Message.sequence_number (assistant_message res)
    = Message.sequence_number (user_message res) + 1.
Proof.
  intros Hturn.
  destruct (turn_success_conversation settings _ _ _ _ _ Hturn) as [conv Hconv].
  destruct (turn_inv settings w conversation_id content conv Hconv) as [_ Hres].
  rewrite Hturn in Hres. destruct (Hres res eq_refl) as (Huser & Hasst & _).
  destruct (get_next_sequence_number_spec (db w) conversation_id) as [Hempty Hmax].
  rewrite Hasst, Huser. cbn [new_user_message Message.sequence_number].
  split_and!; [|exact Hmax|done].
  intros Hnil. rewrite (Hempty Hnil). done.
Qed.

(** C9.  After a turn that returns, the conversation stored under the
    identifier is the one returned; its [total_tokens] is the previous
    value plus the user message's token estimate plus the assistant
    message's token estimate, and its [updated_at] is the user message's
    [created_at]. *)
Theorem turn_totals `{!Externals} (settings : Settings)
    (w w' : World) (conversation_id content : string) (conv : Conversation)
    (res : TurnResult) :
  get_conversation (db w) conversation_id = Some conv →
  add_message_and_get_response settings w conversation_id content = (inr res, w') →
  get_conversation (db w') conversation_id = Some (turn_conversation res) ∧
  Message.tokens (user_message res) = count_tokens content ∧
  Message.tokens (assistant_message res)
    = count_tokens (Message.content (assistant_message res)) ∧
  Conversation.total_tokens (turn_conversation res)
    = Conversation.total_tokens conv
      + (Message.tokens (user_message res) + Message.tokens (assistant_message res)) ∧
  Conversation.updated_at (turn_conversation res)
    = Message.created_at (user_message res).
Proof.
  intros Hconv Hturn.
  destruct (turn_inv settings w conversation_id content conv Hconv) as [_ Hres].
  rewrite Hturn in Hres.
  destruct (Hres res eq_refl)
    as (Huser & _ & Htok & _ & _ & Htotal & Hupd & Hstored & _).
  split_and!; [done | by rewrite Huser | done | done | done].
Qed.

(** C4.  In a turn on an existing conversation whose user message
    can be written, retrieval is invoked exactly when the mode is
    ["grounded"] and the document list is not empty, and then with the
    user's text and that list; in ["open_chat"] mode it is not
    invoked.  When the turn returns, the assistant message carries
    metadata exactly when retrieval was invoked and returned at least
    one chunk, and the metadata is the number of chunks returned and
    their similarity scores.  And the turn does return, with the
    model's answer as the assistant message and with that metadata,
    whenever the index accepts the query, the model answers and the
    rows can be written. *)
Theorem turn_retrieval_gate `{!Externals} (settings : Settings)
    (w : World) (conversation_id content : string) (conv : Conversation) :
  get_conversation (db w) conversation_id = Some conv →
  message_storable (new_user_message w conversation_id content) →
  (retrieval_invoked (calls w)
     (calls (add_message_and_get_response settings w conversation_id content).2)
   ↔ Conversation.mode conv = "grounded" ∧ Conversation.document_ids conv ≠ []) ∧
  (∀ query document_ids,
     CallRetrieve query document_ids
       ∈ new_calls (calls w)
           (calls (add_message_and_get_response settings w conversation_id content).2) →
     query = content ∧ document_ids = Conversation.document_ids conv) ∧
  (Conversation.mode conv = "open_chat" →
   ¬ retrieval_invoked (calls w)
       (calls (add_message_and_get_response settings w conversation_id content).2)) ∧
  (∀ res,
     (add_message_and_get_response settings w conversation_id content).1 = inr res →
     (is_Some (Message.extra_data (assistant_message res))
      ↔ retrieval_invoked (calls w)
          (calls (add_message_and_get_response settings w conversation_id content).2)
        ∧ retrieve_relevant_chunks settings (collection w) content
            (Conversation.document_ids conv) None ≠ []) ∧
     (∀ md, Message.extra_data (assistant_message res) = Some md →
        rag_chunks_used md
          = Z.of_nat (length (retrieve_relevant_chunks settings (collection w) content
                                (Conversation.document_ids conv) None)) ∧
        rag_similarity_scores md
          = similarity_score <$> retrieve_relevant_chunks settings (collection w)
                                   content (Conversation.document_ids conv) None)) ∧
  (∀ resp,
     (Conversation.mode conv = "grounded" → Conversation.document_ids conv ≠ [] →
      top_k_chunks settings ≠ 0%nat) →
     generate_response settings
       (get_messages (db w) conversation_id
          ++ [new_user_message w conversation_id content])
       (turn_rag_context settings w conv content) None = inr resp →
     sqlite_integer (output_tokens resp) →
     sqlite_integer (get_next_sequence_number (db w) conversation_id + 1) →
     sqlite_integer (Conversation.total_tokens conv
                     + (count_tokens content + output_tokens resp)) →
     ∃ res,
       (add_message_and_get_response settings w conversation_id content).1 = inr res ∧
       Message.content (assistant_message res) = resp_content resp ∧
       Message.extra_data (assistant_message res)
         = match turn_retrieved settings w conv content with
           | [] => None
           | _ :: _ =>
               Some {| rag_chunks_used :=
                         Z.of_nat (length (turn_retrieved settings w conv content));
                       rag_similarity_scores :=
                         similarity_score <$> turn_retrieved settings w conv content |}
           end).
Proof.
  intros Hconv Hflush.
  destruct (turn_calls settings w conversation_id content conv Hconv Hflush)
    as (rest & Hcalls & Hrest & _).
  destruct (turn_inv settings w conversation_id content conv Hconv) as [_ Hres].
  set (out := add_message_and_get_response settings w conversation_id content) in *.
  assert (Hnew : new_calls (calls w) (calls out.2) =
            (if decide (Conversation.mode conv = "grounded"
                        ∧ Conversation.document_ids conv ≠ [])
             then [CallRetrieve content (Conversation.document_ids conv)] else [])
            ++ rest).
  { unfold new_calls. by rewrite Hcalls, drop_app_length. }
  assert (Hinv : retrieval_invoked (calls w) (calls out.2)
                 ↔ Conversation.mode conv = "grounded"
                   ∧ Conversation.document_ids conv ≠ []).
  { unfold retrieval_invoked. rewrite Hnew. case_decide as Hgate.
    - split; [done|]. intros _. eexists _, _. left.
    - split; [|done]. intros (q & ids & Hin). simpl in Hin.
      by destruct (Hrest q ids). }
  split_and!.
  - exact Hinv.
  - intros q ids. rewrite Hnew. case_decide as Hgate; simpl.
    + intros [Heq|Hin]%elem_of_cons; [by simplify_eq|]. by destruct (Hrest q ids).
    + intros Hin. by destruct (Hrest q ids).
  - intros Hmode. rewrite Hinv. intros [Hg _]. by rewrite Hmode in Hg.
  - intros res Hout. destruct (Hres res Hout) as (_ & _ & _ & _ & Hmd & _).
    rewrite Hmd, Hinv. unfold turn_retrieved. clear Hmd.
    destruct (decide (Conversation.mode conv = "grounded")) as [Hmode|Hmode];
      [destruct (Conversation.document_ids conv) as [|d ds] eqn:Hids|].
    + split; [|done]. split; [by intros [? [=]] | by intros [[_ ?] _]].
    + destruct (retrieve_relevant_chunks settings (collection w) content (d :: ds) None)
        as [|c cs] eqn:Hret.
      * split; [|done]. split; [by intros [? [=]] | by intros [_ ?]].
      * split; [|by intros md [= <-]]. split; [done | by eexists].
    + split; [|done]. split; [by intros [? [=]] | by intros [[? _] _]].
  - intros resp Hk Hgen Hout Hseq Htotal.
    destruct (turn_succeeds settings w conversation_id content conv resp
                Hconv Hflush Hk Hgen Hout Hseq Htotal)
      as (res & w' & Hturn & Hcontent & _).
    exists res. fold out in Hturn. rewrite Hturn. split_and!; [done|done|].
    apply Hres. by rewrite Hturn.
Qed.

(** Token counts stay non-negative: the two messages a turn stores
    carry [count_tokens] estimates. *)
Lemma turn_tokens_nonneg `{!Externals} (settings : Settings)
    (w w' : World) (conversation_id content : string) (res : TurnResult) :
  add_message_and_get_response settings w conversation_id content = (inr res, w') →
  Forall (λ m, 0 ≤ Message.tokens m) (messages (db w)) →
  Forall (λ m, 0 ≤ Message.tokens m) (messages (db w')).
Proof.
  intros Hturn Hnn.
  destruct (turn_success_conversation settings _ _ _ _ _ Hturn) as [conv Hconv].
  destruct (turn_inv settings w conversation_id content conv Hconv) as [_ Hres].
  rewrite Hturn in Hres.
  destruct (Hres res eq_refl) as (Huser & _ & Htok & _ & _ & _ & _ & _ & Hmsgs).
  cbn [snd] in Hmsgs. rewrite Hmsgs. apply Forall_app. split; [done|].
  repeat constructor.
  - rewrite Huser. apply count_tokens_nonneg.
  - rewrite Htok. apply count_tokens_nonneg.
Qed.

Section Ingestion.
Context `{!Externals}.
Variable settings : Settings.

Lemma foldl_add_lookup_ne (rows : list (string * (string * (list Qc * Metadata.t))))
    (coll : Collection) (id : string) :
  id ∉ rows.*1 →
  foldl (λ c row, match c !! row.1 with
                  | Some _ => c
                  | None => <[row.1 := stored_row row]> c
                  end) coll rows !! id = coll !! id.
Proof.
  revert coll. induction rows as [|r rows IH]; intros coll Hnotin; [done|].
  rewrite fmap_cons in Hnotin. apply not_elem_of_cons in Hnotin as [Hne Hnotin].
  cbn [foldl]. rewrite IH by done.
  destruct (coll !! r.1); [done|]. by rewrite lookup_insert_ne.
Qed.

(** A record that is in the collection stays what it is. *)
Lemma foldl_add_lookup_kept (rows : list (string * (string * (list Qc * Metadata.t))))
    (coll : Collection) (id : string) (c : StoredChunk) :
  coll !! id = Some c →
  foldl (λ c row, match c !! row.1 with
                  | Some _ => c
                  | None => <[row.1 := stored_row row]> c
                  end) coll rows !! id = Some c.
Proof.
  revert coll. induction rows as [|r rows IH]; intros coll Hc; [done|].
  cbn [foldl]. apply IH. destruct (coll !! r.1) as [old|] eqn:Hold; [done|].
  rewrite lookup_insert_ne; [done|]. intros Heq. rewrite Heq in Hold. congruence.
Qed.

Lemma foldl_add_lookup_new (rows : list (string * (string * (list Qc * Metadata.t))))
    (coll : Collection) (i : nat) row :
  NoDup rows.*1 → rows !! i = Some row → coll !! row.1 = None →
  foldl (λ c row, match c !! row.1 with
                  | Some _ => c
                  | None => <[row.1 := stored_row row]> c
                  end) coll rows !! row.1
    = Some (stored_row row).
Proof.
  revert coll i. induction rows as [|r rows IH]; intros coll i Hnd Hi Hfree; [done|].
  rewrite fmap_cons in Hnd. apply NoDup_cons in Hnd as [Hfresh Hnd].
  cbn [foldl]. destruct i as [|i].
  - injection Hi as ->. rewrite foldl_add_lookup_ne by done.
    rewrite Hfree. by rewrite lookup_insert_eq.
  - apply (IH _ i); [done..|].
    assert (Hne : r.1 ≠ row.1).
    { intros Heq. apply Hfresh. rewrite Heq.
      apply list_elem_of_fmap. exists row. split; [done|].
      by eapply list_elem_of_lookup_2. }
    destruct (coll !! r.1); [done|]. by rewrite lookup_insert_ne.
Qed.

#[global] Instance chunk_id_inj (document_id : string) : Inj (=) (=) (chunk_id document_id).
Proof.
  intros i j Heq. unfold chunk_id in Heq.
  apply (inj (String.app document_id)) in Heq.
  apply (inj (String.app "_chunk_")) in Heq.
  by apply (inj pretty) in Heq.
Qed.

Lemma chunk_ids_seq {A} (document_id : string) (chunks : list A) :
  imap (λ i _, chunk_id document_id i) chunks
    = chunk_id document_id <$> seq 0 (length chunks).
Proof. apply imap_seq_0. Qed.

(** The index after the chunks of a document were added: a chunk
    whose id was free is stored under it, a record that was there is
    kept, and no other id is touched. *)
Lemma collection_add_chunks (coll : Collection) (doc : Document) (chunks : list string) :
  let coll' :=
    collection_add coll chunks (embed_document <$> chunks)
      (imap (λ i _, chunk_metadata_of doc i) chunks)
      (imap (λ i _, chunk_id (Document.id doc) i) chunks) in
  (∀ i chunk, chunks !! i = Some chunk →
     coll !! chunk_id (Document.id doc) i = None →
     coll' !! chunk_id (Document.id doc) i
       = Some {| document := chunk;
                 embedding := embed_document chunk;
                 metadata := chunk_metadata_of doc i |}) ∧
  (∀ id c, coll !! id = Some c → coll' !! id = Some c) ∧
  (∀ id, (∀ i, (i < length chunks)%nat → id ≠ chunk_id (Document.id doc) i) →
     coll' !! id = coll !! id).
Proof.
  intros coll'. subst coll'. unfold collection_add.
  set (ids := imap (λ i _, chunk_id (Document.id doc) i) chunks).
  set (mds := imap (λ i _, chunk_metadata_of doc i) chunks).
  set (rows := zip ids (zip chunks (zip (embed_document <$> chunks) mds))).
  assert (Hids : rows.*1 = ids).
  { subst rows. apply fst_zip.
    rewrite !length_zip, length_fmap. subst ids mds. rewrite !length_imap. lia. }
  split_and!.
  - intros i chunk Hi Hfree.
    assert (Hrow : rows !! i
              = Some (chunk_id (Document.id doc) i,
                      (chunk, (embed_document chunk, chunk_metadata_of doc i)))).
    { subst rows ids mds. rewrite !lookup_zip_Some, list_lookup_fmap, !list_lookup_imap.
      by rewrite Hi. }
    apply (foldl_add_lookup_new rows coll i _) in Hrow; [exact Hrow| |exact Hfree].
    rewrite Hids. subst ids. rewrite chunk_ids_seq.
    apply NoDup_fmap_2; [apply _ | apply NoDup_seq].
  - intros id c Hc. by apply foldl_add_lookup_kept.
  - intros id Hid. apply foldl_add_lookup_ne. rewrite Hids. subst ids.
    rewrite chunk_ids_seq. intros (i & -> & Hi)%list_elem_of_fmap.
    apply elem_of_seq in Hi. by apply (Hid i); [lia|].
Qed.

End Ingestion.

Section IngestionClaims.
Context `{!Externals}.
Variable settings : Settings.

Lemma process_document_failure (files : gmap string string) (coll : Collection)
    (file_path : string) (doc : Document) (e : Exn) (coll' : Collection) :
  process_document files coll file_path doc = (inl e, coll') →
  coll' = coll ∧
  (extract_text_from_pdf files file_path = inl e ∨
   ∃ text, extract_text_from_pdf files file_path = inr text ∧ split_text text = []).
Proof.
  unfold process_document.
  destruct (extract_text_from_pdf files file_path) as [e'|text]; [|].
  - intros [= -> ->]. split; [done | by left].
  - destruct (split_text text) as [|c cs] eqn:Hsplit; [|done].
    intros [= <- <-]. split; [done|]. right. by exists text.
Qed.

Lemma process_document_success (files : gmap string string) (coll : Collection)
    (file_path : string) (doc : Document) (n : Z) (coll' : Collection) :
  process_document files coll file_path doc = (inr n, coll') →
  ∃ text, extract_text_from_pdf files file_path = inr text ∧
          split_text text ≠ [] ∧
          n = Z.of_nat (length (split_text text)) ∧
          coll' = collection_add coll (split_text text)
                    (embed_document <$> split_text text)
                    (imap (λ i _, chunk_metadata_of doc i) (split_text text))
                    (imap (λ i _, chunk_id (Document.id doc) i) (split_text text)).
Proof.
  unfold process_document.
  destruct (extract_text_from_pdf files file_path) as [e'|text]; [done|].
  destruct (split_text text) as [|c cs] eqn:Hsplit; [done|].
  intros [= <- <-]. exists text. by rewrite Hsplit.
Qed.

Lemma extract_no_text (files : gmap string string) (file_path bytes : string)
    (pages : list string) :
  files !! file_path = Some bytes → pdf_pages bytes = inr pages →
  strip (extract_pages 0 pages EmptyString) = EmptyString →
  extract_text_from_pdf files file_path
    = inl (Exception "No text could be extracted from PDF").
Proof.
  intros Hfile Hpages Hstrip. unfold extract_text_from_pdf.
  by rewrite Hfile, Hpages, Hstrip.
Qed.

(** Pages that all extract to the empty string leave no text. *)
Lemma extract_pages_empty (page_num : nat) (pages : list string) (text : string) :
  Forall (λ p, p = EmptyString) pages → extract_pages page_num pages text = text.
Proof.
  intros Hall. revert page_num.
  induction Hall as [|p pages -> _ IH]; intros page_num; [done|]. apply IH.
Qed.

Lemma process_document_empty_pages (files : gmap string string) (coll : Collection)
    (file_path bytes : string) (doc : Document) (pages : list string) :
  files !! file_path = Some bytes → pdf_pages bytes = inr pages →
  Forall (λ p, p = EmptyString) pages →
  process_document files coll file_path doc
    = (inl (Exception "No text could be extracted from PDF"), coll).
Proof.
  intros Hfile Hpages Hall. unfold process_document.
  rewrite (extract_no_text _ _ _ _ Hfile Hpages); [done|].
  by rewrite extract_pages_empty.
Qed.

Lemma upload_document_failure (w : World) (file : UploadFile) (user_id : string)
    (e : Exn) :
  (upload_document settings w file user_id).1 = inl e →
  db (upload_document settings w file user_id).2 = db w ∧
  collection (upload_document settings w file user_id).2 = collection w.
Proof.
  unfold upload_document.
  destruct (users (db w) !! user_id); [|done].
  destruct (negb _); [done|].
  match goal with |- context [if ?b then _ else _] => destruct b end; [done|].
  cbn [save_uploaded_file].
  destruct (process_document _ _ _ _) as [[e'|n] coll'] eqn:Hproc; [|done].
  apply process_document_failure in Hproc as [-> _]. done.
Qed.

Lemma upload_document_success (w : World) (file : UploadFile) (user_id : string)
    (doc : Document) :
  (upload_document settings w file user_id).1 = inr doc →
  documents (db (upload_document settings w file user_id).2) !! Document.id doc
    = Some doc ∧
  ∃ text,
    extract_text_from_pdf (fs (upload_document settings w file user_id).2)
      (Document.file_path doc) = inr text ∧
    split_text text ≠ [] ∧
    Document.chunk_count doc = Z.of_nat (length (split_text text)).
Proof.
  unfold upload_document.
  destruct (users (db w) !! user_id); [|done].
  destruct (negb _); [done|].
  match goal with |- context [if ?b then _ else _] => destruct b end; [done|].
  cbn [save_uploaded_file].
  destruct (process_document _ _ _ _) as [[e'|n] coll'] eqn:Hproc; [done|].
  apply process_document_success in Hproc as (text & Hext & Hne & -> & _).
  cbn. intros [= <-]. cbn. split; [by rewrite lookup_insert_eq|]. by exists text.
Qed.

End IngestionClaims.

(** What [process_document] and the upload around it do, case by
    case.  The text is refused only when it strips to nothing, the
    page headers counted in; a chunk is stored under its id when the
    id is free. *)
Lemma process_document_outcomes `{!Externals} (settings : Settings)
    (files : gmap string string) (coll : Collection) (file_path : string)
    (doc : Document) (w : World) (file : UploadFile) (user_id : string) :
  (∀ e, extract_text_from_pdf files file_path = inl e →
        process_document files coll file_path doc = (inl e, coll)) ∧
  (∀ text, extract_text_from_pdf files file_path = inr text →
           split_text text = [] →
           process_document files coll file_path doc
             = (inl (Exception "No chunks created from document"), coll)) ∧
  (∀ e coll', process_document files coll file_path doc = (inl e, coll') →
              coll' = coll) ∧
  (∀ text, extract_text_from_pdf files file_path = inr text →
           split_text text ≠ [] →
     ∃ coll',
       process_document files coll file_path doc
         = (inr (Z.of_nat (length (split_text text))), coll') ∧
       (∀ i chunk, split_text text !! i = Some chunk →
          coll !! chunk_id (Document.id doc) i = None →
          coll' !! chunk_id (Document.id doc) i
            = Some {| document := chunk;
                      embedding := embed_document chunk;
                      metadata := chunk_metadata_of doc i |}) ∧
       (∀ id, (∀ i, (i < length (split_text text))%nat →
                    id ≠ chunk_id (Document.id doc) i) →
              coll' !! id = coll !! id)) ∧
  (∀ e, (upload_document settings w file user_id).1 = inl e →
        documents (db (upload_document settings w file user_id).2)
          = documents (db w) ∧
        collection (upload_document settings w file user_id).2 = collection w) ∧
  (∀ d, (upload_document settings w file user_id).1 = inr d →
        documents (db (upload_document settings w file user_id).2) !! Document.id d
          = Some d ∧
        ∃ text,
          extract_text_from_pdf (fs (upload_document settings w file user_id).2)
            (Document.file_path d) = inr text ∧
          split_text text ≠ [] ∧
          Document.chunk_count d = Z.of_nat (length (split_text text))).
Proof.
  split_and!.
  - intros e He. unfold process_document. by rewrite He.
  - intros text Htext Hsplit. unfold process_document.
    by rewrite Htext, Hsplit.
  - intros e coll' Hproc. by apply process_document_failure in Hproc as [-> _].
  - intros text Htext Hsplit. eexists. split_and!; cycle 1.
    + apply collection_add_chunks.
    + apply collection_add_chunks.
    + unfold process_document. rewrite Htext. by destruct (split_text text).
  - intros e He. destruct (upload_document_failure settings w file user_id e He)
      as [-> ->]. done.
  - intros d. apply upload_document_success.
Qed.

(** C6.  The code breaks the claim on a document whose pages hold
    white space only.  Such a page extracts to a non-empty string, so
    its header is added to the text and the test [not text.strip()]
    lets the text through, although the document holds no usable
    text: [process_document] returns a chunk count and the index gets
    a chunk that is the page header alone, and the upload records the
    document with that [chunk_count]. *)
Theorem process_document_blank_page :
  strip (upload_bytes Demo.blank_upload) = EmptyString ∧
  @extract_text_from_pdf Demo.stripping_externals Demo.blank_files "p"
    = inr (newline +:+ "--- Page 1 ---" +:+ newline +:+ upload_bytes Demo.blank_upload) ∧
  (@process_document Demo.stripping_externals Demo.blank_files ∅ "p" Demo.document).1
    = inr 1 ∧
  document <$>
    (@process_document Demo.stripping_externals Demo.blank_files ∅ "p"
       Demo.document).2 !! "d_chunk_0"
    = Some "--- Page 1 ---" ∧
  Document.chunk_count <$>
    documents
      (db (@upload_document Demo.stripping_externals default_settings
             (Demo.world "open_chat" []) Demo.blank_upload "u").2) !! "id0"
    = Some 1.
Proof. split_and!; by vm_compute. Qed.

(** ** The scenarios of the specification, run on the model *)

(** Ten messages of 1000 tokens and a budget of 3500: the last three
    are kept. *)
Example context_window_scenario :
  get_context_window default_settings Demo.history (Some 3500)
    = drop 7 Demo.history.
Proof. reflexivity. Qed.

(** Distances 0.1, 0.5, 0.9 at threshold 0.7: only the first row
    survives, with rank 1. *)
Example retrieval_scenario :
  (λ c, (chunk_content c, rank c)) <$> format_results default_settings Demo.scenario_results
    = [("A", 1)].
Proof. by vm_compute. Qed.

(** An empty conversation: the user message gets 0, the assistant 1. *)
Example first_turn_scenario :
  Message.sequence_number (user_message Demo.hello_result) = 0 ∧
  Message.sequence_number (assistant_message Demo.hello_result) = 1 ∧
  Message.tokens (user_message Demo.hello_result) = 1.
Proof. by vm_compute. Qed.

(** A document whose pages extract to nothing is refused. *)
Example empty_extraction_scenario :
  (@upload_document Demo.externals default_settings (Demo.world "open_chat" [])
     {| upload_filename := "a.pdf"; upload_size := None; upload_bytes := EmptyString |}
     "u").1
  = inl (HTTPException 500
           "Error processing document: No text could be extracted from PDF").
Proof. by vm_compute. Qed.

(** A page of blanks still counts as extracted text: the page header
    is part of what [strip] sees. *)
Example blank_page_scenario :
  @extract_text_from_pdf Demo.externals {[ "p" := "  " ]} "p"
    = inr (newline +:+ "--- Page 1 ---" +:+ newline +:+ "  ").
Proof. by vm_compute. Qed.

(** With no document ids the query is unscoped and returns the chunks
    of both documents; scoped to one document it returns that
    document's chunk only. *)
Example unscoped_retrieval_scenario :
  (λ c, Metadata.document_id (chunk_metadata c))
    <$> @retrieve_relevant_chunks Demo.externals default_settings Demo.twin_index
          "hello" [] None = ["d1"; "d2"] ∧
  (λ c, Metadata.document_id (chunk_metadata c))
    <$> @retrieve_relevant_chunks Demo.externals default_settings Demo.twin_index
          "hello" ["d2"] None = ["d2"].
Proof. split; by vm_compute. Qed.

(** Deleting the chunks of one document keeps the other document's. *)
Example deletion_scenario :
  delete_document_chunks Demo.twin_index "d1"
    = {[ "d2_chunk_0" := Demo.chunk "d2" "hello" ]}.
Proof. by vm_compute. Qed.

(** An upload of one page: two chunks are stored under the ids built
    from the document id, and their number is recorded. *)
Example ingestion_scenario :
  match (@upload_document Demo.externals default_settings
           (Demo.world "open_chat" []) Demo.upload "u").1 with
  | inr doc => Document.chunk_count doc = 2
  | inl _ => False
  end ∧
  document <$>
    collection (@upload_document Demo.externals default_settings
                  (Demo.world "open_chat" []) Demo.upload "u").2 !! "id0_chunk_1"
    = Some "tail".
Proof. split; by vm_compute. Qed.


(** ** The theorems at concrete inputs *)

(** C2 fails as stated.  Two documents with the same text: the index
    returns both chunks at the same distance, in non-decreasing order,
    both pass the threshold, and the result is not strictly
    descending. *)
Lemma retrieve_relevant_chunks_ties :
  (λ c, Metadata.document_id (chunk_metadata c))
    <$> @retrieve_relevant_chunks Demo.externals default_settings Demo.twin_index
          "hello" ["d1"; "d2"] None
    = ["d1"; "d2"] ∧
  Sorted Qcle
    (hd [] (res_distances
              (@collection_query Demo.externals Demo.twin_index
                 (@embed_query Demo.externals "hello") 5
                 (Some (DocumentIdIn ["d1"; "d2"]))))) ∧
  ¬ StronglySorted chunks_strictly_descending
      (@retrieve_relevant_chunks Demo.externals default_settings Demo.twin_index
         "hello" ["d1"; "d2"] None).
Proof.
  split_and!.
  - by vm_compute.
  - vm_compute. repeat constructor. by vm_compute.
  - intros Hs. apply StronglySorted_inv in Hs as [_ Hall].
    apply Forall_cons in Hall as [Hlt _]. by vm_compute in Hlt.
Qed.

Lemma format_results_filtered_ranked_witness :
  Sorted Qcle (hd [] (res_distances Demo.scenario_results)) ∧
  Forall (λ c, (similarity_threshold default_settings ≤ similarity_score c)%Qc)
         (format_results default_settings Demo.scenario_results) ∧
  rank <$> format_results default_settings Demo.scenario_results
    = Z.of_nat <$> seq 1 (length (format_results default_settings Demo.scenario_results)).
Proof.
  assert (Hs : Sorted Qcle (hd [] (res_distances Demo.scenario_results))).
  { simpl. repeat constructor; by vm_compute. }
  destruct (format_results_filtered_ranked default_settings Demo.scenario_results Hs)
    as (Hthr & _ & _ & Hrank).
  split_and!; [exact Hs | exact Hthr | exact Hrank].
Defined.

Lemma turn_sequence_numbers_witness :
  Demo.hello_turn = (inr Demo.hello_result, Demo.hello_turn.2) ∧
  Message.sequence_number (user_message Demo.hello_result) = 0 ∧
  Message.sequence_number (assistant_message Demo.hello_result) = 1.
Proof.
  assert (Hturn : @add_message_and_get_response Demo.externals default_settings
                    (Demo.world "open_chat" []) "c1" "Hello"
                  = (inr Demo.hello_result, Demo.hello_turn.2)) by reflexivity.
  destruct (@turn_sequence_numbers Demo.externals default_settings _ _ _ _ _ Hturn)
    as (Hempty & _ & _).
  split; [exact Hturn | exact (Hempty eq_refl)].
Defined.

Lemma turn_totals_witness :
  get_conversation (db (Demo.world "open_chat" [])) "c1"
    = Some (Demo.conversation "open_chat" []) ∧
  Conversation.total_tokens (turn_conversation Demo.hello_result)
    = 0 + (Message.tokens (user_message Demo.hello_result)
           + Message.tokens (assistant_message Demo.hello_result)) ∧
  Conversation.updated_at (turn_conversation Demo.hello_result)
    = Message.created_at (user_message Demo.hello_result).
Proof.
  assert (Hconv : get_conversation (db (Demo.world "open_chat" [])) "c1"
                  = Some (Demo.conversation "open_chat" [])) by reflexivity.
  assert (Hturn : @add_message_and_get_response Demo.externals default_settings
                    (Demo.world "open_chat" []) "c1" "Hello"
                  = (inr Demo.hello_result, Demo.hello_turn.2)) by reflexivity.
  destruct (@turn_totals Demo.externals default_settings _ _ _ _ _ _ Hconv Hturn)
    as (_ & _ & _ & Htotal & Hupd).
  split_and!; [exact Hconv | exact Htotal | exact Hupd].
Defined.

Lemma turn_conversation_not_found_witness :
  get_conversation (db (Demo.world "open_chat" [])) "missing" = None ∧
  @add_message_and_get_response Demo.externals default_settings
    (Demo.world "open_chat" []) "missing" "Hello"
    = (inl (ValueError "Conversation not found"), Demo.world "open_chat" []).
Proof.
  assert (Hnone : get_conversation (db (Demo.world "open_chat" [])) "missing" = None)
    by reflexivity.
  split; [exact Hnone|].
  exact (@turn_conversation_not_found Demo.externals default_settings
           (Demo.world "open_chat" []) "missing" "Hello" Hnone).
Defined.

Lemma turn_retrieval_gate_witness :
  get_conversation (db (Demo.world "grounded" ["d1"])) "c1"
    = Some (Demo.conversation "grounded" ["d1"]) ∧
  message_storable
    (@new_user_message Demo.externals (Demo.world "grounded" ["d1"]) "c1" "hello") ∧
  retrieval_invoked (calls (Demo.world "grounded" ["d1"])) (calls Demo.grounded_turn.2) ∧
  ∃ res,
    Demo.grounded_turn.1 = inr res ∧
    Message.content (assistant_message res) = "Hello there" ∧
    Message.extra_data (assistant_message res)
      = Some {| rag_chunks_used := 1; rag_similarity_scores := [1%Qc] |}.
Proof.
  assert (Hconv : get_conversation (db (Demo.world "grounded" ["d1"])) "c1"
                  = Some (Demo.conversation "grounded" ["d1"])) by reflexivity.
  assert (Hflush : message_storable
                     (@new_user_message Demo.externals (Demo.world "grounded" ["d1"])
                        "c1" "hello")) by (by vm_compute).
  destruct (@turn_retrieval_gate Demo.externals default_settings
              (Demo.world "grounded" ["d1"]) "c1" "hello" _ Hconv Hflush)
    as (Hgate & _ & _ & _ & Hreturns).
  destruct (Hreturns {| resp_content := "Hello there"; input_tokens := 1;
                        output_tokens := 2; total_tokens := 3 |})
    as (res & Hres & Hcontent & Hmd).
  - discriminate.
  - by vm_compute.
  - by vm_compute.
  - by vm_compute.
  - by vm_compute.
  - split_and!; [exact Hconv | exact Hflush | |].
    + apply Hgate. split; [reflexivity | discriminate].
    + exists res. split_and!; [exact Hres | exact Hcontent |].
      rewrite Hmd. by vm_compute.
Defined.

Lemma generate_response_accounting_witness :
  Forall valid_role Demo.history ∧
  length (omap langchain_of_message
            (get_context_window default_settings Demo.history None))
    = length (get_context_window default_settings Demo.history None) ∧
  ∀ resp,
    @generate_response Demo.externals default_settings Demo.history None None
      = inr resp →
    input_tokens resp
      = sum_tokens (get_context_window default_settings Demo.history None) ∧
    output_tokens resp = count_tokens (resp_content resp) ∧
    total_tokens resp = input_tokens resp + output_tokens resp.
Proof.
  assert (Hroles : Forall valid_role Demo.history).
  { repeat constructor. }
  destruct (@generate_response_accounting Demo.externals default_settings
              Demo.history None) as (Hsent & _ & Hacc & _).
  split_and!; [exact Hroles | exact (Hsent Hroles) | exact Hacc].
Defined.

Lemma get_context_window_longest_suffix_witness :
  0 ≤ effective_max_tokens default_settings (Some 3500) ∧
  Forall (λ m, 0 ≤ Message.tokens m) Demo.history ∧
  get_context_window default_settings Demo.history (Some 3500) `suffix_of` Demo.history ∧
  sum_tokens (get_context_window default_settings Demo.history (Some 3500)) ≤ 3500 ∧
  ∀ S, S `suffix_of` Demo.history → sum_tokens S ≤ 3500 →
       (length S ≤ length (get_context_window default_settings Demo.history
                             (Some 3500%Z)))%nat.
Proof.
  assert (H0 : 0 ≤ effective_max_tokens default_settings (Some 3500)) by (simpl; lia).
  assert (Hnn : Forall (λ m, 0 ≤ Message.tokens m) Demo.history).
  { repeat constructor; simpl; lia. }
  destruct (get_context_window_longest_suffix default_settings Demo.history
              (Some 3500)) as (Hsuf & Hsum & Hmax & _).
  split_and!; [exact H0 | exact Hnn | exact Hsuf | exact (Hsum H0) | exact (Hmax Hnn)].
Defined.

(** * Further properties of the code *)

(** ** Strings as lists of characters *)

Section Strings.

Lemma string_length_app (a b : string) :
  String.length (a +:+ b) = (String.length a + String.length b)%nat.
Proof.
  induction a as [|c a IH]; [done|].
  change (String c a +:+ b) with (String c (a +:+ b)). cbn. by rewrite IH.
Qed.

Lemma chars_app (a b : string) :
  list_ascii_of_string (a +:+ b) = list_ascii_of_string a ++ list_ascii_of_string b.
Proof.
  induction a as [|c a IH]; [done|].
  change (String c a +:+ b) with (String c (a +:+ b)). cbn. by rewrite IH.
Qed.

Lemma chars_rev_app (a b : string) :
  list_ascii_of_string (String.rev_app a b)
    = reverse (list_ascii_of_string a) ++ list_ascii_of_string b.
Proof.
  revert b. induction a as [|c a IH]; intros b; [done|].
  cbn [String.rev_app list_ascii_of_string].
  rewrite IH, reverse_cons, <-app_assoc. done.
Qed.

Lemma chars_rev (a : string) :
  list_ascii_of_string (String.rev a) = reverse (list_ascii_of_string a).
Proof. unfold String.rev. by rewrite chars_rev_app, app_nil_r. Qed.

Lemma chars_nil (a : string) : list_ascii_of_string a = [] ↔ a = EmptyString.
Proof. by destruct a. Qed.

Lemma string_length_chars (a : string) :
  String.length a = length (list_ascii_of_string a).
Proof. induction a as [|c a IH]; [done|]. cbn. by rewrite IH. Qed.

Lemma string_length_rev (a : string) : String.length (String.rev a) = String.length a.
Proof. by rewrite !string_length_chars, chars_rev, length_reverse. Qed.

Lemma length_substring_0 (n : nat) (s : string) :
  String.length (substring 0 n s) = Nat.min n (String.length s).
Proof.
  revert s. induction n as [|n IH]; intros [|c s]; cbn; [done..|]. by rewrite IH.
Qed.

(** [lstrip] stops at a character that is not white space. *)
Lemma lstrip_head (s r : string) (c : ascii) :
  lstrip s = String c r → is_space c = false.
Proof.
  induction s as [|c' s IH]; [done|]. cbn.
  destruct (is_space c') eqn:Hc'; [done|]. by intros [= <- _].
Qed.

Lemma lstrip_empty (s : string) :
  lstrip s = EmptyString ↔ Forall (λ c, is_space c = true) (list_ascii_of_string s).
Proof.
  induction s as [|c s IH]; cbn; [by split; [constructor|]|].
  destruct (is_space c) eqn:Hc.
  - rewrite IH. split; [by constructor | by intros [_ ?]%Forall_cons].
  - split; [done|]. intros [Hc' _]%Forall_cons. congruence.
Qed.

(** [strip] leaves nothing exactly when the text is all white space. *)
Lemma string_rev_empty (s : string) : String.rev s = EmptyString ↔ s = EmptyString.
Proof.
  rewrite <-!chars_nil, chars_rev. split; [|by intros ->].
  intros Hrev. apply (f_equal length) in Hrev. rewrite length_reverse in Hrev.
  by apply nil_length_inv.
Qed.

Lemma strip_empty (s : string) :
  strip s = EmptyString ↔ Forall (λ c, is_space c = true) (list_ascii_of_string s).
Proof.
  unfold strip. rewrite string_rev_empty, lstrip_empty, chars_rev, Forall_reverse.
  split.
  - intros Hall. apply lstrip_empty.
    destruct (lstrip s) as [|c r] eqn:Hs; [done|].
    apply Forall_cons in Hall as [Hc _]. apply lstrip_head in Hs. congruence.
  - intros Hall%lstrip_empty. rewrite Hall. constructor.
Qed.

End Strings.

(** ** LLMService *)

(** X1.  The token estimate is the length divided by four, rounded
    down: it never decreases when the text gets longer, texts under
    four characters cost nothing, and the estimate of a concatenation
    is the sum of the two estimates or one more. *)
Theorem count_tokens_estimate (a b : string) :
  4 * count_tokens a ≤ Z.of_nat (String.length a) < 4 * count_tokens a + 4 ∧
  ((String.length a < 4)%nat → count_tokens a = 0) ∧
  ((String.length a ≤ String.length b)%nat → count_tokens a ≤ count_tokens b) ∧
  count_tokens a + count_tokens b ≤ count_tokens (a +:+ b)
    ≤ count_tokens a + count_tokens b + 1.
Proof.
  unfold count_tokens. rewrite string_length_app, Nat2Z.inj_add.
  split_and!; Z.div_mod_to_equations; lia.
Qed.

Section Prompt.

Lemma langchain_of_message_content (m : Message) :
  valid_role m →
  ∃ lm, langchain_of_message m = Some lm ∧ langchain_content lm = Message.content m.
Proof.
  unfold valid_role, langchain_of_message.
  rewrite !elem_of_cons, elem_of_nil. intros [->|[->|[->|[]]]]; by eexists.
Qed.

Lemma omap_langchain_contents (l : list Message) :
  Forall valid_role l →
  langchain_content <$> omap langchain_of_message l = Message.content <$> l.
Proof.
  induction 1 as [|m l Hm _ IH]; [done|]. csimpl.
  destruct (langchain_of_message_content m Hm) as (lm & -> & <-).
  csimpl. by rewrite IH.
Qed.

Lemma omap_langchain_drop (l1 l2 : list Message) (m : Message) :
  ¬ valid_role m →
  omap langchain_of_message (l1 ++ m :: l2) = omap langchain_of_message (l1 ++ l2).
Proof.
  intros Hm. rewrite !omap_app. f_equal. csimpl.
  assert (langchain_of_message m = None) as ->; [|done].
  unfold valid_role in Hm. rewrite !elem_of_cons, elem_of_nil in Hm.
  unfold langchain_of_message.
  repeat case_decide; try done; exfalso; apply Hm; auto.
Qed.

End Prompt.

(** X2.  [format_messages_for_llm] puts the system prompt first when
    it is a non-empty string and no system entry otherwise; for
    messages with admitted roles the prompt carries their contents, one
    entry each, in the order given; a message with any other role is
    left out. *)
Theorem format_messages_for_llm_contents (messages l1 l2 : list Message)
    (m : Message) (system_prompt : option string) :
  (Forall valid_role messages →
   langchain_content <$> format_messages_for_llm messages system_prompt
     = (if str_truthy system_prompt then [default EmptyString system_prompt] else [])
       ++ (Message.content <$> messages)) ∧
  (str_truthy system_prompt = true →
   head (format_messages_for_llm messages system_prompt)
     = Some (SystemMessage (default EmptyString system_prompt))) ∧
  (¬ valid_role m →
   format_messages_for_llm (l1 ++ m :: l2) system_prompt
     = format_messages_for_llm (l1 ++ l2) system_prompt).
Proof.
  unfold format_messages_for_llm. split_and!.
  - intros Hroles. rewrite fmap_app, omap_langchain_contents by done.
    by destruct system_prompt as [[|c s]|].
  - by destruct system_prompt as [[|c s]|].
  - intros Hm. by rewrite omap_langchain_drop.
Qed.

Section Window.

Lemma context_window_loop_suffix (B : Z) (rs sel : list Message) (tc : Z) :
  sel `suffix_of` context_window_loop B rs sel tc.
Proof.
  destruct (context_window_loop_spec B rs sel tc) as (k & _ & -> & _).
  by apply suffix_app_r.
Qed.

Lemma context_window_loop_mono (B B' : Z) (rs sel : list Message) (tc : Z) :
  B ≤ B' →
  context_window_loop B rs sel tc `suffix_of` context_window_loop B' rs sel tc.
Proof.
  intros HB. revert sel tc. induction rs as [|msg rest IH]; intros sel tc; [done|].
  cbn [context_window_loop]. repeat case_decide; [done | | lia | apply IH].
  etrans; [|apply context_window_loop_suffix]. by apply suffix_cons_r.
Qed.

End Window.

(** X3.  When the token counts are not negative, a history that fits
    the budget is returned whole, and windowing a window again changes
    nothing. *)
Theorem get_context_window_fits (settings : Settings) (H : list Message)
    (max_tokens : option Z) :
  Forall (λ m, 0 ≤ Message.tokens m) H →
  (sum_tokens H ≤ effective_max_tokens settings max_tokens →
   get_context_window settings H max_tokens = H) ∧
  (0 ≤ effective_max_tokens settings max_tokens →
   get_context_window settings (get_context_window settings H max_tokens) max_tokens
     = get_context_window settings H max_tokens).
Proof.
  assert (Hfits : ∀ l, Forall (λ m, 0 ≤ Message.tokens m) l →
            sum_tokens l ≤ effective_max_tokens settings max_tokens →
            get_context_window settings l max_tokens = l).
  { intros l Hnn Hsum. apply suffix_length_eq; [apply get_context_window_suffix|].
    by apply get_context_window_maximal. }
  intros Hnn. split; [by apply Hfits|]. intros HB. apply Hfits.
  - destruct (get_context_window_suffix settings H max_tokens) as [k Hk].
    rewrite Hk in Hnn. by apply Forall_app in Hnn as [_ ?].
  - by apply get_context_window_sum_le.
Qed.

(** X4.  A larger budget never loses a message: the window for a
    budget is a suffix of the window for any larger budget. *)
Theorem get_context_window_budget_mono (settings : Settings) (H : list Message)
    (B B' : Z) :
  B ≤ B' →
  get_context_window settings H (Some B) `suffix_of` get_context_window settings H (Some B').
Proof. intros HB. unfold get_context_window. by apply context_window_loop_mono. Qed.

(** X5.  The newest message is the last one of the window exactly when
    its own token count is within the budget. *)
Theorem get_context_window_newest (settings : Settings) (H : list Message)
    (m : Message) (max_tokens : option Z) :
  last (get_context_window settings (H ++ [m]) max_tokens) = Some m
  ↔ Message.tokens m ≤ effective_max_tokens settings max_tokens.
Proof.
  unfold get_context_window. rewrite reverse_app. cbn [reverse rev_append app
    context_window_loop].
  change (rev_append [m] []) with [m]. cbn [app context_window_loop].
  case_decide as Hfit.
  - split; [done | lia].
  - split; [lia|]. intros _.
    destruct (context_window_loop_spec (effective_max_tokens settings max_tokens)
                (reverse H) [m] (0 + Message.tokens m)) as (k & _ & -> & _).
    by rewrite last_snoc.
Qed.

(** X6.  When the newest message alone exceeds the context budget, as
    a long user message does, [generate_response] sends the model the
    system prompt and nothing else, and reports zero input tokens. *)
Theorem generate_response_over_budget `{!Externals} (settings : Settings)
    (history : list Message) (m : Message) (rag_context : option string) :
  Message.tokens m > max_context_tokens settings →
  generate_response settings (history ++ [m]) rag_context None =
    match llm_agenerate [SystemMessage (select_system_prompt rag_context None)] with
    | inl e => inl e
    | inr text =>
        inr {| resp_content := text;
               input_tokens := 0;
               output_tokens := count_tokens text;
               total_tokens := 0 + count_tokens text |}
    end.
Proof.
  intros Hm. unfold generate_response.
  rewrite (get_context_window_most_recent_exceeds settings history m None Hm).
  unfold format_messages_for_llm.
  assert (str_truthy (Some (select_system_prompt rag_context None)) = true) as ->.
  { unfold select_system_prompt. by destruct rag_context as [[|c ctx]|]. }
  done.
Qed.

(** X7.  A generated title is never longer than 60 characters: a reply
    that is longer after stripping is cut to its first 57 characters
    followed by three dots. *)
Theorem generate_title_length `{!Externals} (first_message title : string) :
  generate_title first_message = inr title →
  (String.length title ≤ 60)%nat.
Proof.
  unfold generate_title. destruct (llm_agenerate _) as [e|text]; [done|].
  set (stripped := strip_chars _ _).
  destruct (decide (Z.of_nat (String.length stripped) > 60)) as [Hlong|Hshort].
  - intros [= <-]. rewrite string_length_app, length_substring_0.
    change (String.length "...") with 3%nat. lia.
  - intros [= <-]. lia.
Qed.

(** ** DocumentService *)

Section Extraction.
Context `{!Externals}.

Lemma string_app_assoc (a b c : string) : (a +:+ b) +:+ c = a +:+ (b +:+ c).
Proof.
  induction a as [|x a IH]; [done|].
  change (String x a +:+ b) with (String x (a +:+ b)).
  change (String x (a +:+ b) +:+ c) with (String x ((a +:+ b) +:+ c)).
  by rewrite IH.
Qed.

Lemma string_app_empty_r (a : string) : a +:+ EmptyString = a.
Proof.
  induction a as [|x a IH]; [done|].
  change (String x a +:+ EmptyString) with (String x (a +:+ EmptyString)).
  by rewrite IH.
Qed.

(** The page loop only appends to the text gathered so far. *)
Lemma extract_pages_acc (page_num : nat) (pages : list string) (text : string) :
  ∃ suffix, extract_pages page_num pages text = text +:+ suffix.
Proof.
  revert page_num text. induction pages as [|p pages IH]; intros page_num text.
  - exists EmptyString. by rewrite string_app_empty_r.
  - cbn [extract_pages]. destruct (str_truthy (Some p)).
    + destruct (IH (S page_num)
                  (text +:+ newline +:+ "--- Page " +:+ pretty (page_num + 1)%nat
                        +:+ " ---" +:+ newline +:+ p)) as [suffix ->].
      eexists. by rewrite string_app_assoc.
    + apply IH.
Qed.

Lemma not_all_space_app (a b : string) :
  ¬ Forall (λ c, is_space c = true) (list_ascii_of_string a) →
  ¬ Forall (λ c, is_space c = true) (list_ascii_of_string (a +:+ b)).
Proof. rewrite chars_app, Forall_app. tauto. Qed.

(** One page with text leaves text that does not strip to nothing:
    its header is in it. *)
Lemma extract_pages_some_text (page_num : nat) (pages : list string) (text : string) :
  Exists (λ p, p ≠ EmptyString) pages →
  strip (extract_pages page_num pages text) ≠ EmptyString.
Proof.
  intros Hex. revert page_num text.
  induction Hex as [p pages Hp|p pages _ IH]; intros page_num text.
  - cbn [extract_pages]. destruct p as [|c p]; [done|]. cbn [str_truthy].
    destruct (extract_pages_acc (S page_num) pages
                (text +:+ newline +:+ "--- Page " +:+ pretty (page_num + 1)%nat
                      +:+ " ---" +:+ newline +:+ String c p)) as [suffix ->].
    rewrite strip_empty. apply not_all_space_app.
    rewrite !chars_app, !Forall_app. intros (_ & _ & Hpage & _).
    by apply Forall_cons in Hpage as [? _].
  - cbn [extract_pages]. apply IH.
Qed.

End Extraction.

(** X8.  For a file that is there and that the PDF reader can read,
    extraction fails with "No text could be extracted from PDF" when
    every page extracts to the empty string, and returns the gathered
    text as soon as one page extracts to anything, white space
    included. *)
Theorem extract_text_from_pdf_outcome `{!Externals} (files : gmap string string)
    (file_path bytes : string) (pages : list string) :
  files !! file_path = Some bytes → pdf_pages bytes = inr pages →
  (Forall (λ p, p = EmptyString) pages →
   extract_text_from_pdf files file_path
     = inl (Exception "No text could be extracted from PDF")) ∧
  (Exists (λ p, p ≠ EmptyString) pages →
   extract_text_from_pdf files file_path = inr (extract_pages 0 pages EmptyString)).
Proof.
  intros Hfile Hpages. unfold extract_text_from_pdf. rewrite Hfile, Hpages. split.
  - intros Hall. by rewrite extract_pages_empty.
  - intros Hex. pose proof (extract_pages_some_text 0 pages EmptyString Hex) as Hne.
    by destruct (strip (extract_pages 0 pages EmptyString)).
Qed.

Section MoreRetrieval.
Context `{!Externals}.
Variable settings : Settings.

Lemma retrieve_relevant_chunks_elem (coll : Collection) (query : string)
    (document_ids : list string) (top_k : option nat) (r : RetrievedChunk) :
  r ∈ retrieve_relevant_chunks settings coll query document_ids top_k →
  ∃ id c,
    coll !! id = Some c ∧
    where_matches (build_where_filter document_ids) (metadata c) ∧
    chunk_content r = document c ∧ chunk_metadata r = metadata c ∧
    similarity_score r = (1 - cosine_distance (embed_query query) (embedding c))%Qc.
Proof.
  rewrite retrieve_relevant_chunks_rows.
  intros (row & Hrow & -> & -> & ->)%retrieve_loop_elem.
  apply list_elem_of_fmap in Hrow as ([[id c] dist] & -> & Hnr).
  apply nearest_rows_elem in Hnr as (Hc & Hw & Hd). simpl in *.
  exists id, c. by rewrite Hd.
Qed.

Lemma retrieve_relevant_chunks_length (coll : Collection) (query : string)
    (document_ids : list string) (top_k : option nat) :
  (length (retrieve_relevant_chunks settings coll query document_ids top_k)
     ≤ Nat.min (effective_top_k settings top_k) (size coll))%nat.
Proof.
  rewrite retrieve_relevant_chunks_rows.
  etrans; [apply retrieve_loop_length|].
  rewrite length_fmap. unfold nearest_rows.
  rewrite length_take, merge_sort_Permutation, length_fmap.
  unfold query_candidates.
  pose proof (length_filter
    (λ kv : string * StoredChunk,
       where_matches (build_where_filter document_ids) (metadata kv.2))
    (map_to_list coll)) as Hlen.
  rewrite length_map_to_list in Hlen. lia.
Qed.

End MoreRetrieval.

(** X9.  Every chunk [retrieve_relevant_chunks] returns is a chunk
    stored in the index, carries that chunk's text and metadata, has as
    score one minus its distance to the query embedding, and meets the
    threshold; no more than [top_k] chunks, and no more than the index
    holds, are returned. *)
Theorem retrieve_relevant_chunks_sound `{!Externals} (settings : Settings)
    (coll : Collection) (query : string) (document_ids : list string)
    (top_k : option nat) :
  (∀ r, r ∈ retrieve_relevant_chunks settings coll query document_ids top_k →
     ∃ id c,
       coll !! id = Some c ∧
       chunk_content r = document c ∧ chunk_metadata r = metadata c ∧
       similarity_score r
         = (1 - cosine_distance (embed_query query) (embedding c))%Qc ∧
       (similarity_threshold settings ≤ similarity_score r)%Qc) ∧
  (length (retrieve_relevant_chunks settings coll query document_ids top_k)
     ≤ effective_top_k settings top_k)%nat ∧
  (length (retrieve_relevant_chunks settings coll query document_ids top_k)
     ≤ size coll)%nat.
Proof.
  pose proof (retrieve_relevant_chunks_length settings coll query document_ids top_k).
  split_and!; [|lia..].
  intros r Hr.
  destruct (retrieve_relevant_chunks_elem settings _ _ _ _ _ Hr)
    as (id & c & Hc & _ & Hdoc & Hmd & Hsim).
  exists id, c. split_and!; try done.
  destruct (retrieve_relevant_chunks_filtered_ranked settings coll query
              document_ids top_k) as (Hthr & _).
  rewrite Forall_forall in Hthr. by apply Hthr.
Qed.

(** X10.  A call of [retrieve_relevant_chunks] scoped to a non-empty
    list of documents raises when [top_k] is 0, which the index
    refuses, and returns a list otherwise.  The list is empty when the
    index holds no chunk of the listed documents; and when the index
    holds no more chunks than [top_k], every chunk of a listed
    document that meets the threshold is in the list. *)
Theorem retrieve_relevant_chunks_scoped `{!Externals} (settings : Settings)
    (coll : Collection) (query : string) (document_ids : list string)
    (top_k : option nat) :
  document_ids ≠ [] →
  (effective_top_k settings top_k = 0%nat →
   ∃ e, retrieve_relevant_chunks_call settings coll query document_ids top_k = inl e) ∧
  ((0 < effective_top_k settings top_k)%nat →
   ∃ chunks,
     retrieve_relevant_chunks_call settings coll query document_ids top_k = inr chunks ∧
     ((∀ id c, coll !! id = Some c →
               Metadata.document_id (metadata c) ∉ document_ids) →
      chunks = []) ∧
     (∀ id c,
        coll !! id = Some c →
        Metadata.document_id (metadata c) ∈ document_ids →
        (size coll ≤ effective_top_k settings top_k)%nat →
        (similarity_threshold settings
           ≤ 1 - cosine_distance (embed_query query) (embedding c))%Qc →
        ∃ r, r ∈ chunks ∧
             chunk_content r = document c ∧ chunk_metadata r = metadata c)).
Proof.
  intros Hne. unfold retrieve_relevant_chunks_call. split.
  - intros ->. by eexists.
  - intros Hpos.
    destruct (effective_top_k settings top_k) as [|k] eqn:Hk; [lia|].
    cbn [validate_n_results]. eexists. split; [reflexivity|]. rewrite <-Hk. split.
    + intros Hnone.
      destruct (retrieve_relevant_chunks settings coll query document_ids top_k)
        as [|r rs] eqn:Hret; [done|]. exfalso.
      assert (Hr : r ∈ retrieve_relevant_chunks settings coll query document_ids top_k)
        by (rewrite Hret; left).
      pose proof (retrieve_relevant_chunks_in_scope settings _ _ _ _ _ Hne Hr) as Hin.
      destruct (retrieve_relevant_chunks_elem settings _ _ _ _ _ Hr)
        as (id & c & Hc & _ & _ & Hmd & _).
      rewrite Hmd in Hin. by apply (Hnone id c).
    + intros id c Hc Hin Hsize Hthr. rewrite retrieve_relevant_chunks_rows.
      destruct (retrieve_loop_complete settings 0
                  (query_row <$> nearest_rows coll (embed_query query)
                     (effective_top_k settings top_k) (build_where_filter document_ids))
                  (query_row (id, c, cosine_distance (embed_query query) (embedding c))))
        as (r & Hr & Hcontent & Hmd & _).
      * apply list_elem_of_fmap. eexists. split; [done|].
        apply nearest_rows_complete; [done..|].
        destruct document_ids; [done|]. simpl. by apply bool_decide_pack.
      * done.
      * by exists r.
Qed.

Section MoreDeletion.

Lemma delete_document_chunks_lookup_Some (coll : Collection) (D id : string)
    (c : StoredChunk) :
  delete_document_chunks coll D !! id = Some c
  ↔ coll !! id = Some c ∧ Metadata.document_id (metadata c) ≠ D.
Proof.
  unfold delete_document_chunks.
  pose proof (collection_get_ids_elem coll (Some (DocumentIdEq D)) id) as Hids.
  assert (Hin : id ∈ collection_get_ids coll (Some (DocumentIdEq D))
                ↔ ∃ c', coll !! id = Some c' ∧ Metadata.document_id (metadata c') = D).
  { rewrite Hids. split; intros (c' & Hc' & Hw); exists c'; (split; [done|]).
    - by apply bool_decide_unpack in Hw.
    - by apply bool_decide_pack. }
  clear Hids.
  pose proof (collection_delete_lookup coll
                (collection_get_ids coll (Some (DocumentIdEq D))) id) as Hdel.
  destruct (collection_get_ids coll (Some (DocumentIdEq D))) as [|i ids] eqn:Hget.
  - split; [|by intros [? _]]. intros Hc. split; [done|]. intros HD.
    eapply not_elem_of_nil, Hin. by exists c.
  - rewrite Hdel. destruct (decide (id ∈ i :: ids)) as [Hmem|Hmem].
    + split; [done|]. intros [Hc HD]. apply Hin in Hmem as (c' & Hc' & HD').
      by simplify_eq.
    + split; [|by intros [? _]]. intros Hc. split; [done|]. intros HD.
      apply Hmem, Hin. by exists c.
Qed.

End MoreDeletion.

(** X11.  Deleting the chunks of a document that has none leaves the
    index as it is, deleting twice is the same as deleting once, and
    deletions for two documents give the same index in either
    order. *)
Theorem delete_document_chunks_algebra (coll : Collection) (D D' : string) :
  ((∀ id c, coll !! id = Some c → Metadata.document_id (metadata c) ≠ D) →
   delete_document_chunks coll D = coll) ∧
  delete_document_chunks (delete_document_chunks coll D) D
    = delete_document_chunks coll D ∧
  delete_document_chunks (delete_document_chunks coll D) D'
    = delete_document_chunks (delete_document_chunks coll D') D.
Proof.
  split_and!.
  - intros Hnone. apply map_eq. intros id. apply option_eq. intros c.
    rewrite delete_document_chunks_lookup_Some.
    split; [by intros [? _]|]. intros Hc. split; [done | by apply (Hnone id)].
  - apply map_eq. intros id. apply option_eq. intros c.
    rewrite !delete_document_chunks_lookup_Some. tauto.
  - apply map_eq. intros id. apply option_eq. intros c.
    rewrite !delete_document_chunks_lookup_Some. tauto.
Qed.

Section MoreIngestion.
Context `{!Externals}.

Lemma collection_get_ids_NoDup (coll : Collection) (w : option Where) :
  NoDup (collection_get_ids coll w).
Proof.
  unfold collection_get_ids.
  eapply sublist_NoDup; [apply (NoDup_fst_map_to_list coll)|].
  apply fmap_sublist, sublist_filter.
Qed.

(** The chunk ids of a document after its ingestion, when none of
    them was in use. *)
Lemma process_document_lookup (files : gmap string string) (coll coll' : Collection)
    (file_path : string) (doc : Document) (n : Z) :
  process_document files coll file_path doc = (inr n, coll') →
  (∀ i, coll !! chunk_id (Document.id doc) i = None) →
  ∃ chunks : list string,
    n = Z.of_nat (length chunks) ∧
    (∀ i, (i < length chunks)%nat →
       ∃ c, coll' !! chunk_id (Document.id doc) i = Some c ∧
            Metadata.document_id (metadata c) = Document.id doc) ∧
    (∀ id, id ∉ chunk_id (Document.id doc) <$> seq 0 (length chunks) →
           coll' !! id = coll !! id).
Proof.
  intros (text & _ & _ & -> & ->)%process_document_success Hfree.
  exists (split_text text). split; [done|].
  destruct (collection_add_chunks coll doc (split_text text)) as (Hnew & _ & Hold). split.
  - intros i Hi. destruct (lookup_lt_is_Some_2 (split_text text) i Hi) as [chunk Hchunk].
    eexists. split; [by apply Hnew|done].
  - intros id Hid. apply Hold. intros i Hi ->. apply Hid.
    apply list_elem_of_fmap. exists i. split; [done|]. apply elem_of_seq. lia.
Qed.

(** Chunks written under the ids of one document, all marked with
    that document, are exactly what its deletion removes. *)
Lemma delete_added_chunks (coll coll' : Collection) (D : string) (n : nat) :
  (∀ i, (i < n)%nat →
     ∃ c, coll' !! chunk_id D i = Some c ∧ Metadata.document_id (metadata c) = D) →
  (∀ id, id ∉ chunk_id D <$> seq 0 n → coll' !! id = coll !! id) →
  (∀ id c, coll !! id = Some c → Metadata.document_id (metadata c) ≠ D) →
  (∀ i, coll !! chunk_id D i = None) →
  delete_document_chunks coll' D = coll.
Proof.
  intros Hnew Hold Hnone Hfresh.
  apply map_eq. intros id. apply option_eq. intros c.
  rewrite delete_document_chunks_lookup_Some.
  destruct (decide (id ∈ chunk_id D <$> seq 0 n)) as [Hin|Hout].
  - apply list_elem_of_fmap in Hin as (i & -> & Hi). apply elem_of_seq in Hi.
    destruct (Hnew i ltac:(lia)) as (c' & Hc' & HD). rewrite Hc', Hfresh.
    split; [|done]. intros [[= <-] Hne]. done.
  - rewrite (Hold id Hout). split; [by intros [? _]|].
    intros Hc. split; [done | by apply (Hnone id)].
Qed.

End MoreIngestion.

(** X12.  Ingesting a document and then deleting its chunks gives back
    the index as it was, provided the index held no chunk of that
    document and none of its chunk ids was in use. *)
Theorem process_document_then_delete `{!Externals} (files : gmap string string)
    (coll coll' : Collection) (file_path : string) (doc : Document) (n : Z) :
  process_document files coll file_path doc = (inr n, coll') →
  (∀ id c, coll !! id = Some c →
           Metadata.document_id (metadata c) ≠ Document.id doc) →
  (∀ i, coll !! chunk_id (Document.id doc) i = None) →
  delete_document_chunks coll' (Document.id doc) = coll.
Proof.
  intros Hproc Hnone Hfresh.
  destruct (process_document_lookup _ _ _ _ _ _ Hproc Hfresh)
    as (chunks & _ & Hnew & Hold).
  by apply (delete_added_chunks coll coll' (Document.id doc) (length chunks)).
Qed.

(** X13.  After the ingestion of a document, when the index held no
    chunk of that document and none of its chunk ids was in use, the
    chunks the index holds for the document are exactly the ones just
    written, as many as [process_document] returned. *)
Theorem process_document_chunk_count `{!Externals} (files : gmap string string)
    (coll coll' : Collection) (file_path : string) (doc : Document) (n : Z) :
  process_document files coll file_path doc = (inr n, coll') →
  (∀ id c, coll !! id = Some c →
           Metadata.document_id (metadata c) ≠ Document.id doc) →
  (∀ i, coll !! chunk_id (Document.id doc) i = None) →
  collection_get_ids coll' (Some (DocumentIdEq (Document.id doc)))
    ≡ₚ chunk_id (Document.id doc) <$> seq 0 (Z.to_nat n) ∧
  Z.of_nat (length (collection_get_ids coll' (Some (DocumentIdEq (Document.id doc)))))
    = n.
Proof.
  intros Hproc Hnone Hfresh.
  destruct (process_document_lookup _ _ _ _ _ _ Hproc Hfresh)
    as (chunks & -> & Hnew & Hold).
  rewrite Nat2Z.id.
  assert (Hperm : collection_get_ids coll' (Some (DocumentIdEq (Document.id doc)))
                  ≡ₚ chunk_id (Document.id doc) <$> seq 0 (length chunks)).
  { apply NoDup_Permutation.
    - apply collection_get_ids_NoDup.
    - apply NoDup_fmap_2; [apply _ | apply NoDup_seq].
    - intros id. rewrite collection_get_ids_elem. split.
      + intros (c & Hc & Hw). simpl in Hw. apply bool_decide_unpack in Hw.
        destruct (decide (id ∈ chunk_id (Document.id doc) <$> seq 0 (length chunks)))
          as [Hin|Hout]; [done|].
        rewrite (Hold id Hout) in Hc. by destruct (Hnone id c Hc).
      + intros (i & -> & Hi)%list_elem_of_fmap. apply elem_of_seq in Hi.
        destruct (Hnew i ltac:(lia)) as (c & Hc & HD).
        exists c. split; [done|]. simpl. by apply bool_decide_pack. }
  split; [done|]. by rewrite Hperm, length_fmap, length_seq.
Qed.

(** ** ConversationService: what a turn keeps *)

Section TurnWorld.
Context `{!Externals}.
Variable settings : Settings.

(** The world after a turn that returned. *)
Lemma turn_world (w w' : World) (conversation_id content : string)
    (res : TurnResult) :
  add_message_and_get_response settings w conversation_id content = (inr res, w') →
  ∃ conv,
    get_conversation (db w) conversation_id = Some conv ∧
    db w' = {| users := users (db w);
               conversations :=
                 <[conversation_id := turn_conversation res]> (conversations (db w));
               messages := messages (db w) ++ [user_message res; assistant_message res];
               documents := documents (db w) |} ∧
    collection w' = collection w ∧ fs w' = fs w ∧
    turn_conversation res =
      {| Conversation.id := Conversation.id conv;
         Conversation.user_id := Conversation.user_id conv;
         Conversation.title := Conversation.title conv;
         Conversation.mode := Conversation.mode conv;
         Conversation.document_ids := Conversation.document_ids conv;
         Conversation.created_at := Conversation.created_at conv;
         Conversation.updated_at := Message.created_at (user_message res);
         Conversation.total_tokens :=
           Conversation.total_tokens conv
           + (Message.tokens (user_message res)
              + Message.tokens (assistant_message res)) |} ∧
    user_message res = new_user_message w conversation_id content ∧
    Message.conversation_id (assistant_message res) = conversation_id ∧
    Message.role (assistant_message res) = "assistant" ∧
    Message.sequence_number (assistant_message res)
      = Message.sequence_number (user_message res) + 1 ∧
    Message.tokens (assistant_message res)
      = count_tokens (Message.content (assistant_message res)).
Proof.
  unfold add_message_and_get_response, new_user_message.
  destruct (get_conversation (db w) conversation_id) as [conv|]; [|done].
  turn_cases conv; try done.
  all: intros [= <- <-]; exists conv; cbn.
  all: unfold generate_response in Hgen;
       destruct (llm_agenerate _); [done|]; injection Hgen as <-; cbn.
  all: by rewrite ?Hids.
Qed.

Lemma conversation_messages_app (d : Database) (l : list Message)
    (users' : gmap string User) (convs' : gmap string Conversation)
    (docs' : gmap string Document) (conversation_id : string) :
  conversation_messages
    {| users := users'; conversations := convs';
       messages := messages d ++ l; documents := docs' |} conversation_id
  = conversation_messages d conversation_id
    ++ filter (λ m, Message.conversation_id m = conversation_id) l.
Proof. unfold conversation_messages. cbn. by rewrite filter_app. Qed.

(** The messages of each conversation after a turn that returned. *)
Lemma turn_conversation_messages (w w' : World) (conversation_id content : string)
    (res : TurnResult) (cid : string) :
  add_message_and_get_response settings w conversation_id content = (inr res, w') →
  conversation_messages (db w') cid =
    conversation_messages (db w) cid
    ++ (if decide (cid = conversation_id)
        then [user_message res; assistant_message res] else []).
Proof.
  intros (conv & _ & -> & _ & _ & _ & Huser & Hasst & _)%turn_world.
  rewrite conversation_messages_app. f_equal.
  rewrite !filter_cons, filter_nil, Hasst, Huser. cbn.
  destruct (decide (cid = conversation_id)) as [->|Hne].
  - by rewrite !decide_True.
  - by rewrite !decide_False.
Qed.

End TurnWorld.

(** X14.  A turn that returns touches only its own conversation: the
    users, the documents, the vector index and the upload directory
    are as before, every other conversation and its messages are as
    before, and of its own conversation only [updated_at] and
    [total_tokens] change. *)
Theorem turn_frame `{!Externals} (settings : Settings) (w w' : World)
    (conversation_id content : string) (res : TurnResult) (conv : Conversation) :
  add_message_and_get_response settings w conversation_id content = (inr res, w') →
  get_conversation (db w) conversation_id = Some conv →
  users (db w') = users (db w) ∧ documents (db w') = documents (db w) ∧
  collection w' = collection w ∧ fs w' = fs w ∧
  (∀ cid, cid ≠ conversation_id →
     conversations (db w') !! cid = conversations (db w) !! cid ∧
     conversation_messages (db w') cid = conversation_messages (db w) cid) ∧
  Conversation.id (turn_conversation res) = Conversation.id conv ∧
  Conversation.user_id (turn_conversation res) = Conversation.user_id conv ∧
  Conversation.title (turn_conversation res) = Conversation.title conv ∧
  Conversation.mode (turn_conversation res) = Conversation.mode conv ∧
  Conversation.document_ids (turn_conversation res) = Conversation.document_ids conv ∧
  Conversation.created_at (turn_conversation res) = Conversation.created_at conv.
Proof.
  intros Hturn Hconv.
  pose proof (λ cid, turn_conversation_messages settings _ _ _ _ _ cid Hturn) as Hmsgs.
  destruct (turn_world settings _ _ _ _ _ Hturn)
    as (conv' & Hconv' & Hdb & Hcoll & Hfs & Hres & _).
  rewrite Hconv in Hconv'. injection Hconv' as <-.
  assert (Hother : ∀ cid, cid ≠ conversation_id →
            conversation_messages (db w') cid = conversation_messages (db w) cid).
  { intros cid Hne. rewrite (Hmsgs cid), decide_False by done. by rewrite app_nil_r. }
  rewrite Hres. cbn. split_and!; try done; try by rewrite Hdb.
  intros cid Hne. split; [|by apply Hother].
  rewrite Hdb. cbn. by rewrite lookup_insert_ne.
Qed.

#[global] Instance by_seq_asc_trans : Transitive by_seq_asc.
Proof. intros a b c. unfold by_seq_asc. lia. Qed.
#[global] Instance by_seq_asc_total : Total by_seq_asc.
Proof. intros a b. unfold by_seq_asc. lia. Qed.

Section TurnInvariants.
Context `{!Externals}.
Variable settings : Settings.

(** The two messages of a turn are numbered above every message the
    conversation had. *)
Lemma turn_numbers_above (w w' : World) (conversation_id content : string)
    (res : TurnResult) (m : Message) :
  add_message_and_get_response settings w conversation_id content = (inr res, w') →
  m ∈ conversation_messages (db w) conversation_id →
  Message.sequence_number m < Message.sequence_number (user_message res).
Proof.
  intros (conv & _ & _ & _ & _ & _ & -> & _)%turn_world Hm.
  cbn [new_user_message Message.sequence_number].
  destruct (get_next_sequence_number_spec (db w) conversation_id) as [_ Hmax].
  apply Hmax; [|done]. intros Hnil. unfold conversation_messages in Hm.
  rewrite Hnil in Hm. by apply elem_of_nil in Hm.
Qed.

Lemma get_messages_sorted (d : Database) (conversation_id : string) :
  StronglySorted by_seq_asc (get_messages d conversation_id) ∧
  get_messages d conversation_id ≡ₚ conversation_messages d conversation_id.
Proof.
  unfold get_messages, conversation_messages. split.
  - apply StronglySorted_merge_sort; apply _.
  - apply merge_sort_Permutation.
Qed.

End TurnInvariants.

(** X15.  If no two messages of a conversation share a sequence
    number before a turn that returns, none do after it, in any
    conversation; the two new numbers are above every number the
    conversation had. *)
Theorem turn_sequence_numbers_distinct `{!Externals} (settings : Settings)
    (w w' : World) (conversation_id content : string) (res : TurnResult) :
  add_message_and_get_response settings w conversation_id content = (inr res, w') →
  sequence_numbers_distinct (db w) →
  sequence_numbers_distinct (db w') ∧
  ∀ m, m ∈ conversation_messages (db w) conversation_id →
       Message.sequence_number m < Message.sequence_number (user_message res)
       ∧ Message.sequence_number m < Message.sequence_number (assistant_message res).
Proof.
  intros Hturn Hdistinct.
  pose proof (λ m, turn_numbers_above settings _ _ _ _ _ m Hturn) as Habove.
  destruct (turn_world settings _ _ _ _ _ Hturn)
    as (conv & _ & _ & _ & _ & _ & _ & _ & _ & Hasst & _).
  split; [|intros m Hm; specialize (Habove m Hm); lia].
  intros cid. rewrite (turn_conversation_messages settings _ _ _ _ _ cid Hturn).
  destruct (decide (cid = conversation_id)) as [->|Hne];
    [|rewrite app_nil_r; apply Hdistinct].
  rewrite fmap_app. apply NoDup_app. split_and!.
  - apply Hdistinct.
  - intros n (m & -> & Hm)%list_elem_of_fmap Hin. specialize (Habove m Hm).
    cbn in Hin. rewrite !elem_of_cons, elem_of_nil in Hin. lia.
  - cbn. apply NoDup_cons. split; [|apply NoDup_singleton].
    rewrite list_elem_of_singleton. lia.
Qed.

(** X16.  After a turn that returns, the next sequence number of the
    conversation is the assistant message's plus one, and, when the
    conversation's numbers were distinct, its ordered history is the
    previous ordered history followed by the user message and the
    assistant message. *)
Theorem turn_then_next `{!Externals} (settings : Settings)
    (w w' : World) (conversation_id content : string) (res : TurnResult) :
  add_message_and_get_response settings w conversation_id content = (inr res, w') →
  get_next_sequence_number (db w') conversation_id
    = Message.sequence_number (assistant_message res) + 1 ∧
  (NoDup (Message.sequence_number <$> conversation_messages (db w) conversation_id) →
   get_messages (db w') conversation_id
     = get_messages (db w) conversation_id
       ++ [user_message res; assistant_message res]).
Proof.
  intros Hturn.
  pose proof (λ m, turn_numbers_above settings _ _ _ _ _ m Hturn) as Habove.
  pose proof (turn_conversation_messages settings _ _ _ _ _ conversation_id Hturn)
    as Hmsgs.
  rewrite decide_True in Hmsgs by done.
  destruct (turn_world settings _ _ _ _ _ Hturn)
    as (conv & _ & _ & _ & _ & _ & _ & _ & _ & Hasst & _).
  split.
  - destruct (get_next_sequence_number_spec (db w') conversation_id) as [_ Hmax].
    fold (conversation_messages (db w') conversation_id) in Hmax.
    rewrite Hmsgs in Hmax.
    destruct Hmax as [(m & Hm & Hnext) Hall]; [by destruct (conversation_messages _ _)|].
    pose proof (Hall (assistant_message res)) as Ha.
    rewrite !elem_of_app, !elem_of_cons in Ha. specialize (Ha ltac:(auto)).
    rewrite !elem_of_app, !elem_of_cons, elem_of_nil in Hm.
    destruct Hm as [Hm|[->|[->|[]]]]; [specialize (Habove m Hm)|..]; lia.
  - intros Hdistinct.
    destruct (get_messages_sorted (db w') conversation_id) as [Hs' Hp'].
    destruct (get_messages_sorted (db w) conversation_id) as [Hs Hp].
    apply (StronglySorted_unique_strong by_seq_asc); [|done| |].
    + intros x1 x2 Hx1 Hx2 H12 H21. unfold by_seq_asc in H12, H21.
      assert (Heq : Message.sequence_number x1 = Message.sequence_number x2) by lia.
      rewrite Hp', Hmsgs in Hx1. rewrite Hp in Hx2.
      rewrite !elem_of_app, !elem_of_cons, elem_of_nil in Hx1, Hx2.
      destruct Hx1 as [H1|[E1|[E1|[]]]], Hx2 as [H2|[E2|[E2|[]]]].
      * apply list_elem_of_lookup in H1 as [i Hi], H2 as [j Hj].
        assert (i = j); [|by simplify_eq].
        eapply NoDup_lookup; [exact Hdistinct|..]; rewrite list_lookup_fmap.
        -- by rewrite Hi.
        -- rewrite Hj. cbn. by rewrite Heq.
      * specialize (Habove x1 H1). rewrite E2 in Heq. lia.
      * specialize (Habove x1 H1). rewrite E2 in Heq. lia.
      * specialize (Habove x2 H2). rewrite E1 in Heq. lia.
      * by rewrite E1, E2.
      * rewrite E1, E2 in Heq. lia.
      * specialize (Habove x2 H2). rewrite E1 in Heq. lia.
      * rewrite E1, E2 in Heq. lia.
      * by rewrite E1, E2.
    + apply StronglySorted_app_2; [|done|].
      * intros x1 x2 Hx1 Hx2. rewrite Hp in Hx1. specialize (Habove x1 Hx1).
        rewrite !elem_of_cons, elem_of_nil in Hx2. unfold by_seq_asc.
        destruct Hx2 as [->|[->|[]]]; lia.
      * repeat constructor. unfold by_seq_asc. lia.
    + by rewrite Hp', Hmsgs, Hp.
Qed.

(** X17.  If every conversation's [total_tokens] equals the token sum
    of its messages before a turn that returns, the same holds after
    it. *)
Theorem turn_totals_consistent `{!Externals} (settings : Settings)
    (w w' : World) (conversation_id content : string) (res : TurnResult) :
  add_message_and_get_response settings w conversation_id content = (inr res, w') →
  totals_consistent (db w) → totals_consistent (db w').
Proof.
  intros Hturn Htotals cid c Hc.
  rewrite (turn_conversation_messages settings _ _ _ _ _ cid Hturn).
  destruct (turn_world settings _ _ _ _ _ Hturn)
    as (conv & Hconv & Hdb & _ & _ & Hres & _).
  rewrite Hdb in Hc. cbn in Hc.
  destruct (decide (cid = conversation_id)) as [->|Hne].
  - rewrite lookup_insert_eq in Hc. injection Hc as <-.
    rewrite sum_tokens_app, Hres. cbn.
    rewrite (Htotals conversation_id conv Hconv). lia.
  - rewrite lookup_insert_ne in Hc by done.
    rewrite app_nil_r. by apply Htotals.
Qed.

(** X18.  A turn that returns keeps the stored rows within the
    constraints of the tables: every message belongs to a stored
    conversation, has role ["user"], ["assistant"] or ["system"] and a
    token count that is not negative, and every conversation has mode
    ["open_chat"] or ["grounded"]. *)
Theorem turn_database_wf `{!Externals} (settings : Settings)
    (w w' : World) (conversation_id content : string) (res : TurnResult) :
  add_message_and_get_response settings w conversation_id content = (inr res, w') →
  database_wf (db w) → database_wf (db w').
Proof.
  intros Hturn [Hatt Hroles Htok Hmodes].
  destruct (turn_world settings _ _ _ _ _ Hturn)
    as (conv & Hconv & Hdb & _ & _ & Hres & Huser & Hacid & Harole & _ & Hatok).
  rewrite Hdb. split; cbn [messages conversations].
  - intros m [Hm|Hm]%elem_of_app.
    + destruct (decide (Message.conversation_id m = conversation_id)) as [->|Hne].
      * rewrite lookup_insert_eq. by eexists.
      * rewrite lookup_insert_ne by done. by apply Hatt.
    + rewrite !elem_of_cons, elem_of_nil in Hm.
      assert (Message.conversation_id m = conversation_id) as ->.
      { destruct Hm as [->|[->|[]]]; [by rewrite Huser | done]. }
      rewrite lookup_insert_eq. by eexists.
  - apply Forall_app. split; [done|].
    apply Forall_cons. split; [|apply Forall_singleton].
    + rewrite Huser. unfold valid_role, new_user_message. cbn [Message.role].
      rewrite !elem_of_cons. auto.
    + unfold valid_role. rewrite Harole, !elem_of_cons. auto.
  - apply Forall_app. split; [done|].
    apply Forall_cons. split; [|apply Forall_singleton].
    + rewrite Huser. apply count_tokens_nonneg.
    + rewrite Hatok. apply count_tokens_nonneg.
  - intros cid c Hc. destruct (decide (cid = conversation_id)) as [->|Hne].
    + rewrite lookup_insert_eq in Hc. injection Hc as <-. rewrite Hres. cbn.
      by apply (Hmodes conversation_id).
    + rewrite lookup_insert_ne in Hc by done. by apply (Hmodes cid).
Qed.

Section Grounding.
Context `{!Externals}.
Variable settings : Settings.

(** The grounding text of a non-empty list of chunks is not empty. *)
Lemma format_rag_context_truthy (c : RetrievedChunk) (cs : list RetrievedChunk) :
  str_truthy (Some (format_rag_context (c :: cs))) = true.
Proof.
  unfold format_rag_context. rewrite fmap_cons. cbn [String.concat].
  destruct (_ <$> cs); reflexivity.
Qed.

(** A turn whose user message cannot be written raises at the flush,
    before any call. *)
Lemma turn_flush_refused (w : World) (conversation_id content : string)
    (conv : Conversation) :
  get_conversation (db w) conversation_id = Some conv →
  ¬ message_storable (new_user_message w conversation_id content) →
  (∃ e, (add_message_and_get_response settings w conversation_id content).1 = inl e) ∧
  calls (add_message_and_get_response settings w conversation_id content).2 = calls w.
Proof.
  intros Hconv. unfold add_message_and_get_response, new_user_message. rewrite Hconv.
  turn_cases conv; intros Hfit; try done. by split; [eexists|].
Qed.

(** A grounded turn raises after the retrieval call when the index
    refuses the query, and makes no generation call. *)
Lemma turn_query_refused (w : World) (conversation_id content : string)
    (conv : Conversation) :
  get_conversation (db w) conversation_id = Some conv →
  message_storable (new_user_message w conversation_id content) →
  Conversation.mode conv = "grounded" → Conversation.document_ids conv ≠ [] →
  top_k_chunks settings = 0%nat →
  (∃ e, (add_message_and_get_response settings w conversation_id content).1 = inl e) ∧
  calls (add_message_and_get_response settings w conversation_id content).2
    = calls w ++ [CallRetrieve content (Conversation.document_ids conv)].
Proof.
  intros Hconv. unfold add_message_and_get_response, new_user_message. rewrite Hconv.
  turn_cases conv; intros Hfit Hg Hdocs Hzero; try done; try congruence.
  by split; [eexists|].
Qed.

(** A turn raises at the commit when the model has answered and a row
    cannot be written. *)
Lemma turn_commit_refused (w : World) (conversation_id content : string)
    (conv : Conversation) (resp : LLMResponse) :
  get_conversation (db w) conversation_id = Some conv →
  message_storable (new_user_message w conversation_id content) →
  (Conversation.mode conv = "grounded" → Conversation.document_ids conv ≠ [] →
   top_k_chunks settings ≠ 0%nat) →
  generate_response settings
    (get_messages (db w) conversation_id
       ++ [new_user_message w conversation_id content])
    (turn_rag_context settings w conv content) None = inr resp →
  ¬ (sqlite_integer (output_tokens resp)
     ∧ sqlite_integer (get_next_sequence_number (db w) conversation_id + 1)
     ∧ sqlite_integer (Conversation.total_tokens conv
                       + (count_tokens content + output_tokens resp))) →
  ∃ e, (add_message_and_get_response settings w conversation_id content).1 = inl e.
Proof.
  intros Hconv.
  unfold add_message_and_get_response, turn_rag_context, turn_retrieved, new_user_message.
  rewrite Hconv. turn_cases conv; intros Hfit Hk' Hresp Hno; try done.
  all: try (exfalso; by apply Hk').
  all: injection Hresp as <-.
  all: first [ by eexists
             | exfalso; apply Hno; destruct Hcommit as [[? ?] ?]; by split_and! ].
Qed.

End Grounding.

(** X19.  How a turn on an existing conversation goes.  When the
    user message cannot be written it raises before any call.  When
    the conversation is grounded, lists documents and [top_k_chunks] is
    0, it raises after the retrieval call, without a generation call.
    Otherwise the last call is the generation call, made with the
    ordered history followed by the new user message and with a
    grounding text exactly when retrieval returned a chunk, in which
    case the documents-only prompt is the one chosen; an error of that
    call is the error of the turn; and when the model answers, the
    turn returns the answer as the assistant message if the rows can
    be written and raises if they cannot.  A turn that raises stores
    nothing. *)
Theorem turn_generation `{!Externals} (settings : Settings) (w : World)
    (conversation_id content : string) (conv : Conversation) :
  get_conversation (db w) conversation_id = Some conv →
  (¬ message_storable (new_user_message w conversation_id content) →
   (∃ e, (add_message_and_get_response settings w conversation_id content).1 = inl e) ∧
   calls (add_message_and_get_response settings w conversation_id content).2
     = calls w) ∧
  (message_storable (new_user_message w conversation_id content) →
   Conversation.mode conv = "grounded" → Conversation.document_ids conv ≠ [] →
   top_k_chunks settings = 0%nat →
   (∃ e, (add_message_and_get_response settings w conversation_id content).1 = inl e) ∧
   calls (add_message_and_get_response settings w conversation_id content).2
     = calls w ++ [CallRetrieve content (Conversation.document_ids conv)]) ∧
  (message_storable (new_user_message w conversation_id content) →
   (Conversation.mode conv = "grounded" → Conversation.document_ids conv ≠ [] →
    top_k_chunks settings ≠ 0%nat) →
   last (calls (add_message_and_get_response settings w conversation_id content).2)
     = Some (CallGenerate
               (get_messages (db w) conversation_id
                  ++ [new_user_message w conversation_id content])
               (turn_rag_context settings w conv content)) ∧
   (∀ e, generate_response settings
           (get_messages (db w) conversation_id
              ++ [new_user_message w conversation_id content])
           (turn_rag_context settings w conv content) None = inl e →
         (add_message_and_get_response settings w conversation_id content).1 = inl e) ∧
   (∀ resp, generate_response settings
              (get_messages (db w) conversation_id
                 ++ [new_user_message w conversation_id content])
              (turn_rag_context settings w conv content) None = inr resp →
      if decide (sqlite_integer (output_tokens resp)
                 ∧ sqlite_integer
                     (get_next_sequence_number (db w) conversation_id + 1)
                 ∧ sqlite_integer
                     (Conversation.total_tokens conv
                      + (count_tokens content + output_tokens resp)))
      then ∃ res,
             (add_message_and_get_response settings w conversation_id content).1
               = inr res ∧
             Message.content (assistant_message res) = resp_content resp ∧
             Message.tokens (assistant_message res) = output_tokens resp
      else ∃ e,
             (add_message_and_get_response settings w conversation_id content).1
               = inl e)) ∧
  (turn_rag_context settings w conv content = None
   ↔ turn_retrieved settings w conv content = []) ∧
  select_system_prompt (turn_rag_context settings w conv content) None
    = match turn_retrieved settings w conv content with
      | [] => default_system_prompt
      | _ :: _ =>
          rag_system_prompt_prefix
          +:+ format_rag_context (turn_retrieved settings w conv content)
      end ∧
  (∀ e, (add_message_and_get_response settings w conversation_id content).1 = inl e →
        db (add_message_and_get_response settings w conversation_id content).2 = db w).
Proof.
  intros Hconv. split_and!.
  - by apply (turn_flush_refused settings w conversation_id content conv).
  - by apply turn_query_refused.
  - intros Hfit Hk. split_and!.
    + destruct (turn_calls settings w conversation_id content conv Hconv Hfit)
        as (rest & -> & _ & Hrest).
      rewrite (Hrest Hk), !app_assoc. apply last_snoc.
    + intros e. by apply (turn_generation_error settings w conversation_id content conv).
    + intros resp Hgen. case_decide as Hcommit.
      * destruct Hcommit as (Hout & Hseq & Htotal).
        destruct (turn_succeeds settings w conversation_id content conv resp
                    Hconv Hfit Hk Hgen Hout Hseq Htotal)
          as (res & w' & -> & Hcontent & Htokens).
        by exists res.
      * by apply (turn_commit_refused settings w conversation_id content conv resp).
  - unfold turn_rag_context. by destruct (turn_retrieved settings w conv content).
  - unfold turn_rag_context, select_system_prompt.
    destruct (turn_retrieved settings w conv content) as [|c cs]; [done|].
    by rewrite format_rag_context_truthy.
  - apply turn_failure_db.
Qed.

(** ** ConversationService: creating, deleting and listing *)

Section ConversationLife.
Context `{!Externals}.

Lemma conversation_messages_delete (d : Database) (users' : gmap string User)
    (convs' : gmap string Conversation) (docs' : gmap string Document)
    (deleted cid : string) :
  conversation_messages
    {| users := users'; conversations := convs';
       messages := filter (λ m, Message.conversation_id m ≠ deleted) (messages d);
       documents := docs' |} cid
  = if decide (cid = deleted) then [] else conversation_messages d cid.
Proof.
  unfold conversation_messages. cbn [messages].
  induction (messages d) as [|m l IH]; [by case_decide|].
  rewrite !filter_cons.
  destruct (decide (cid = deleted)) as [->|Hcid].
  - destruct (decide (Message.conversation_id m ≠ deleted)) as [Hne|Heq%dec_stable];
      [|done].
    rewrite filter_cons, decide_False by done. done.
  - destruct (decide (Message.conversation_id m ≠ deleted)) as [Hne|Heq%dec_stable].
    + rewrite filter_cons, IH. done.
    + rewrite IH, decide_False by congruence. done.
Qed.

(** The world after a deletion that found the conversation. *)
Lemma delete_conversation_found (w : World) (conversation_id : string)
    (conv : Conversation) :
  get_conversation (db w) conversation_id = Some conv →
  delete_conversation w conversation_id =
    (true,
     {| db := {| users := users (db w);
                 conversations := delete conversation_id (conversations (db w));
                 messages :=
                   filter (λ m, Message.conversation_id m ≠ conversation_id)
                          (messages (db w));
                 documents := documents (db w) |};
        collection := collection w; fs := fs w;
        ticks := ticks w; calls := calls w |}).
Proof. intros Hconv. unfold delete_conversation. by rewrite Hconv. Qed.

End ConversationLife.

(** X20.  [delete_conversation] returns [False] and changes nothing
    when the conversation does not exist.  When it exists it returns
    [True]; afterwards the conversation is gone together with all its
    messages, every other conversation and its messages are as before,
    and a turn on the deleted identifier raises "Conversation not
    found". *)
Theorem delete_conversation_outcome `{!Externals} (settings : Settings)
    (w : World) (conversation_id content : string) :
  (get_conversation (db w) conversation_id = None →
   delete_conversation w conversation_id = (false, w)) ∧
  (is_Some (get_conversation (db w) conversation_id) →
   (delete_conversation w conversation_id).1 = true ∧
   get_conversation (db (delete_conversation w conversation_id).2) conversation_id
     = None ∧
   conversation_messages (db (delete_conversation w conversation_id).2)
     conversation_id = [] ∧
   (∀ cid, cid ≠ conversation_id →
      get_conversation (db (delete_conversation w conversation_id).2) cid
        = get_conversation (db w) cid ∧
      conversation_messages (db (delete_conversation w conversation_id).2) cid
        = conversation_messages (db w) cid) ∧
   (add_message_and_get_response settings
      (delete_conversation w conversation_id).2 conversation_id content).1
     = inl (ValueError "Conversation not found")).
Proof.
  split.
  - intros Hnone. unfold delete_conversation. by rewrite Hnone.
  - intros [conv Hconv]. rewrite (delete_conversation_found w _ conv Hconv).
    cbn [fst snd db].
    assert (Hgone : get_conversation
              {| users := users (db w);
                 conversations := delete conversation_id (conversations (db w));
                 messages :=
                   filter (λ m, Message.conversation_id m ≠ conversation_id)
                          (messages (db w));
                 documents := documents (db w) |} conversation_id = None).
    { unfold get_conversation. cbn. apply lookup_delete_eq. }
    split_and!; [done | done | | |].
    + by rewrite conversation_messages_delete, decide_True.
    + intros cid Hne. split.
      * unfold get_conversation. cbn. by rewrite lookup_delete_ne.
      * by rewrite conversation_messages_delete, decide_False.
    + by rewrite turn_not_found.
Qed.

(** X21.  [delete_conversation] keeps the stored rows within the
    constraints of the tables, keeps every running total equal to the
    token sum of the conversation's messages, and keeps sequence
    numbers distinct within each conversation. *)
Theorem delete_conversation_invariants `{!Externals} (w : World)
    (conversation_id : string) :
  (database_wf (db w) → database_wf (db (delete_conversation w conversation_id).2)) ∧
  (totals_consistent (db w) →
   totals_consistent (db (delete_conversation w conversation_id).2)) ∧
  (sequence_numbers_distinct (db w) →
   sequence_numbers_distinct (db (delete_conversation w conversation_id).2)).
Proof.
  destruct (get_conversation (db w) conversation_id) as [conv|] eqn:Hconv;
    [|unfold delete_conversation; by rewrite Hconv].
  rewrite (delete_conversation_found w _ conv Hconv). cbn [snd db].
  split_and!.
  - intros [Hatt Hroles Htok Hmodes]. split; cbn [messages conversations].
    + intros m [Hne Hm]%list_elem_of_filter. rewrite lookup_delete_ne by done.
      by apply Hatt.
    + apply Forall_forall. intros m [_ Hm]%list_elem_of_filter.
      rewrite Forall_forall in Hroles. by apply Hroles.
    + apply Forall_forall. intros m [_ Hm]%list_elem_of_filter.
      rewrite Forall_forall in Htok. by apply Htok.
    + intros cid c [_ Hc]%lookup_delete_Some. by apply (Hmodes cid).
  - intros Htotals cid c Hc. cbn [conversations] in Hc.
    apply lookup_delete_Some in Hc as [Hne Hc].
    rewrite conversation_messages_delete, decide_False by done. by apply Htotals.
  - intros Hdistinct cid. rewrite conversation_messages_delete.
    case_decide; [constructor | apply Hdistinct].
Qed.

Section ConversationCreate.
Context `{!Externals}.

(** A conversation nobody refers to has no messages. *)
Lemma conversation_messages_unattached (d : Database) (cid : string) :
  database_wf d → conversations d !! cid = None → conversation_messages d cid = [].
Proof.
  intros [Hatt _ _ _] Hnone. unfold conversation_messages.
  destruct (filter _ _) as [|m l] eqn:Hfilter; [done|]. exfalso.
  assert (Hm : m ∈ filter (λ m, Message.conversation_id m = cid) (messages d))
    by (rewrite Hfilter; left).
  apply list_elem_of_filter in Hm as [<- Hm].
  destruct (Hatt m Hm) as [c Hc]. congruence.
Qed.

(** The world after a creation with an admitted mode. *)
Lemma create_conversation_valid (w : World) (user_id title mode : string)
    (document_ids : option (list string)) :
  valid_mode mode →
  ∃ c,
    create_conversation w user_id title mode document_ids =
      (inr c,
       {| db := {| users := users (db w);
                   conversations := <[Conversation.id c := c]> (conversations (db w));
                   messages := messages (db w);
                   documents := documents (db w) |};
          collection := collection w; fs := fs w;
          ticks := S (S (ticks w)); calls := calls w |}) ∧
    Conversation.id c = uuid4 (ticks w) ∧
    Conversation.user_id c = user_id ∧ Conversation.title c = title ∧
    Conversation.mode c = mode ∧
    Conversation.document_ids c = default [] document_ids ∧
    Conversation.total_tokens c = 0.
Proof.
  intros Hmode. unfold create_conversation. rewrite decide_True by done.
  eexists. split; [reflexivity|]. cbn. split_and!; try done.
  by destruct document_ids as [[|d ds]|].
Qed.

Lemma create_conversation_invalid (w : World) (user_id title mode : string)
    (document_ids : option (list string)) :
  ¬ valid_mode mode →
  (create_conversation w user_id title mode document_ids).1
    = inl (Exception "IntegrityError: CHECK constraint failed: check_mode") ∧
  db (create_conversation w user_id title mode document_ids).2 = db w.
Proof. intros Hmode. unfold create_conversation. by rewrite decide_False. Qed.

End ConversationCreate.

(** X22.  [create_conversation] stores a conversation only when its
    mode is ["open_chat"] or ["grounded"]; any other mode makes the
    commit fail and leaves the store as it was.  The stored
    conversation can be read back under its id, starts with zero
    tokens and the document list given (empty when none was given),
    and no other conversation and no message is touched. *)
Theorem create_conversation_outcome `{!Externals} (w : World)
    (user_id title mode : string) (document_ids : option (list string)) :
  (∀ c, (create_conversation w user_id title mode document_ids).1 = inr c →
     valid_mode mode ∧
     get_conversation
       (db (create_conversation w user_id title mode document_ids).2)
       (Conversation.id c) = Some c ∧
     Conversation.total_tokens c = 0 ∧ Conversation.mode c = mode ∧
     Conversation.user_id c = user_id ∧ Conversation.title c = title ∧
     Conversation.document_ids c = default [] document_ids ∧
     messages (db (create_conversation w user_id title mode document_ids).2)
       = messages (db w) ∧
     ∀ cid, cid ≠ Conversation.id c →
       get_conversation
         (db (create_conversation w user_id title mode document_ids).2) cid
         = get_conversation (db w) cid) ∧
  (¬ valid_mode mode →
   (∃ e, (create_conversation w user_id title mode document_ids).1 = inl e) ∧
   db (create_conversation w user_id title mode document_ids).2 = db w).
Proof.
  split.
  - intros c Hc. destruct (decide (valid_mode mode)) as [Hmode|Hmode].
    + destruct (create_conversation_valid w user_id title mode document_ids Hmode)
        as (c' & Hcreate & Hid & Huser & Htitle & Hm & Hdocs & Htotal).
      rewrite Hcreate in Hc |- *. cbn [fst snd db] in Hc |- *. injection Hc as <-.
      unfold get_conversation. cbn [conversations messages].
      split_and!; try done.
      * apply lookup_insert_eq.
      * intros cid Hne. by rewrite lookup_insert_ne.
    + destruct (create_conversation_invalid w user_id title mode document_ids Hmode)
        as [Hfail _]. congruence.
  - intros Hmode.
    destruct (create_conversation_invalid w user_id title mode document_ids Hmode)
      as [Hfail Hdb]. split; [by eexists | done].
Qed.

(** X23.  When the id drawn for the new conversation is not in use,
    [create_conversation] keeps the stored rows within the constraints
    of the tables, keeps every running total equal to the token sum of
    the conversation's messages, and keeps sequence numbers distinct;
    the new conversation has no messages. *)
Theorem create_conversation_invariants `{!Externals} (w : World)
    (user_id title mode : string) (document_ids : option (list string)) :
  conversations (db w) !! uuid4 (ticks w) = None →
  database_wf (db w) →
  database_wf (db (create_conversation w user_id title mode document_ids).2) ∧
  (totals_consistent (db w) →
   totals_consistent (db (create_conversation w user_id title mode document_ids).2)) ∧
  (sequence_numbers_distinct (db w) →
   sequence_numbers_distinct
     (db (create_conversation w user_id title mode document_ids).2)) ∧
  conversation_messages
    (db (create_conversation w user_id title mode document_ids).2)
    (uuid4 (ticks w)) = [].
Proof.
  intros Hfresh Hwf.
  pose proof (conversation_messages_unattached (db w) _ Hwf Hfresh) as Hnone.
  destruct (decide (valid_mode mode)) as [Hmode|Hmode].
  - destruct (create_conversation_valid w user_id title mode document_ids Hmode)
      as (c & -> & Hid & _ & _ & Hm & _ & Htotal).
    cbn [snd db]. rewrite Hid.
    assert (Hmsgs : ∀ cid,
              conversation_messages
                {| users := users (db w);
                   conversations := <[uuid4 (ticks w) := c]> (conversations (db w));
                   messages := messages (db w);
                   documents := documents (db w) |} cid
              = conversation_messages (db w) cid) by done.
    split_and!.
    + destruct Hwf as [Hatt Hroles Htok Hmodes]. split; cbn [messages conversations].
      * intros m Hm'. destruct (decide (Message.conversation_id m = uuid4 (ticks w)))
          as [->|Hne].
        -- rewrite lookup_insert_eq. by eexists.
        -- rewrite lookup_insert_ne by done. by apply Hatt.
      * done.
      * done.
      * intros cid c' Hc'. destruct (decide (cid = uuid4 (ticks w))) as [->|Hne].
        -- rewrite lookup_insert_eq in Hc'. injection Hc' as <-. by rewrite Hm.
        -- rewrite lookup_insert_ne in Hc' by done. by apply (Hmodes cid).
    + intros Htotals cid c' Hc'. rewrite Hmsgs. cbn [conversations] in Hc'.
      destruct (decide (cid = uuid4 (ticks w))) as [->|Hne].
      * rewrite lookup_insert_eq in Hc'. injection Hc' as <-.
        by rewrite Htotal, Hnone.
      * rewrite lookup_insert_ne in Hc' by done. by apply Htotals.
    + intros Hdistinct cid. rewrite Hmsgs. apply Hdistinct.
    + by rewrite Hmsgs.
  - destruct (create_conversation_invalid w user_id title mode document_ids Hmode)
      as [_ ->]. done.
Qed.

#[global] Instance by_updated_desc_trans : Transitive by_updated_desc.
Proof. intros a b c Hab Hbc. unfold by_updated_desc in *. by etrans. Qed.
#[global] Instance by_updated_desc_total : Total by_updated_desc.
Proof. intros a b. unfold by_updated_desc. apply (total String.le). Qed.

Section Listing.

(** The conversations [list_conversations] counts. *)
Lemma list_conversations_unfold (d : Database) (user_id : string)
    (limit offset : nat) (mode : option string) :
  ∃ query : list Conversation,
    list_conversations d user_id limit offset mode
      = (take limit (drop offset (merge_sort by_updated_desc query)),
         Z.of_nat (length query)) ∧
    ∀ c, c ∈ query ↔
         (∃ cid, conversations d !! cid = Some c) ∧
         Conversation.user_id c = user_id ∧
         (str_truthy mode = true → Some (Conversation.mode c) = mode).
Proof.
  unfold list_conversations.
  set (mine := filter (λ c, Conversation.user_id c = user_id)
                      (map_to_list (conversations d)).*2).
  assert (Hmine : ∀ c, c ∈ mine ↔
            (∃ cid, conversations d !! cid = Some c) ∧ Conversation.user_id c = user_id).
  { intros c. subst mine. rewrite list_elem_of_filter, list_elem_of_fmap. split.
    - intros [Hu ([cid c'] & -> & Hin)]. split; [|done].
      exists cid. by apply elem_of_map_to_list.
    - intros [[cid Hc] Hu]. split; [done|]. exists (cid, c). split; [done|].
      by apply elem_of_map_to_list. }
  destruct mode as [[|ch m]|]; cbn [str_truthy].
  - exists mine. split; [done|]. intros c. rewrite Hmine. split; [intros [? ?]; split_and!; [done|done|discriminate]|tauto].
  - eexists. split; [reflexivity|]. intros c. rewrite list_elem_of_filter, Hmine.
    split.
    + intros [-> ?]. tauto.
    + intros [? [? Hm]]. specialize (Hm eq_refl). split; [congruence|tauto].
  - exists mine. split; [done|]. intros c. rewrite Hmine. split; [intros [? ?]; split_and!; [done|done|discriminate]|tauto].
Qed.

End Listing.

(** X24.  [list_conversations] returns at most [limit] conversations,
    never more than the total it reports; each one is a stored
    conversation of the user, of the requested mode when a mode is
    given, and they come most recently updated first; the first page,
    when the total fits the limit, holds every matching
    conversation. *)
Theorem list_conversations_page (d : Database) (user_id : string)
    (limit offset : nat) (mode : option string) :
  (length (list_conversations d user_id limit offset mode).1 ≤ limit)%nat ∧
  Z.of_nat (length (list_conversations d user_id limit offset mode).1)
    ≤ (list_conversations d user_id limit offset mode).2 ∧
  (∀ c, c ∈ (list_conversations d user_id limit offset mode).1 →
     (∃ cid, conversations d !! cid = Some c) ∧
     Conversation.user_id c = user_id ∧
     (str_truthy mode = true → Some (Conversation.mode c) = mode)) ∧
  StronglySorted by_updated_desc (list_conversations d user_id limit offset mode).1 ∧
  (∀ cid c,
     conversations d !! cid = Some c →
     Conversation.user_id c = user_id →
     (str_truthy mode = true → Some (Conversation.mode c) = mode) →
     offset = 0%nat →
     (list_conversations d user_id limit offset mode).2 ≤ Z.of_nat limit →
     c ∈ (list_conversations d user_id limit offset mode).1).
Proof.
  destruct (list_conversations_unfold d user_id limit offset mode)
    as (query & -> & Hquery).
  cbn [fst snd]. split_and!.
  - rewrite length_take. lia.
  - rewrite length_take, length_drop, merge_sort_Permutation. lia.
  - intros c Hc%subseteq_take%subseteq_drop.
    rewrite merge_sort_Permutation in Hc. by apply Hquery.
  - apply StronglySorted_take.
    assert (Hs : StronglySorted by_updated_desc (merge_sort by_updated_desc query))
      by (apply StronglySorted_merge_sort; apply _).
    rewrite <-(take_drop offset (merge_sort by_updated_desc query)) in Hs.
    by apply StronglySorted_app in Hs as (_ & _ & ?).
  - intros cid c Hc Hu Hm -> Htotal. rewrite drop_0, take_ge.
    + rewrite merge_sort_Permutation. apply Hquery. eauto.
    + rewrite merge_sort_Permutation. lia.
Qed.

(** ** The routes *)

Section RouteLemmas.
Context `{!Externals}.
Variable settings : Settings.

Lemma first_missing_document_None (d : Database) (document_ids : list string) :
  Routes.first_missing_document d document_ids = None ↔
  ∀ doc_id, doc_id ∈ document_ids → is_Some (documents d !! doc_id).
Proof.
  induction document_ids as [|doc_id rest IH]; cbn [Routes.first_missing_document].
  - split; [|done]. intros _ doc_id Hin. by apply elem_of_nil in Hin.
  - destruct (documents d !! doc_id) as [doc|] eqn:Hdoc.
    + rewrite IH. split.
      * intros Hrest x [->|Hx]%elem_of_cons; [by eexists | by apply Hrest].
      * intros Hall x Hx. apply Hall. by right.
    + split; [done|]. intros Hall.
      destruct (Hall doc_id) as [doc Hsome]; [by left | congruence].
Qed.

Lemma first_missing_document_Some (d : Database) (document_ids : list string)
    (doc_id : string) :
  Routes.first_missing_document d document_ids = Some doc_id →
  ∃ before after,
    document_ids = before ++ doc_id :: after ∧
    documents d !! doc_id = None ∧
    ∀ x, x ∈ before → is_Some (documents d !! x).
Proof.
  induction document_ids as [|x rest IH]; cbn [Routes.first_missing_document]; [done|].
  destruct (documents d !! x) as [doc|] eqn:Hdoc.
  - intros (before & after & -> & Hnone & Hbefore)%IH.
    exists (x :: before), after. split_and!; [done|done|].
    intros y [->|Hy]%elem_of_cons; [by eexists | by apply Hbefore].
  - intros [= <-]. exists [], rest. split_and!; [done|done|].
    intros y Hy. by apply elem_of_nil in Hy.
Qed.

End RouteLemmas.

(** X25.  [create_user] refuses, with status 400 and no change, a
    username or an email that a stored user already has; otherwise it
    stores the user, who can then be read back with [get_user], and
    the usernames and emails of the stored users stay pairwise
    distinct. *)
Theorem create_user_unique `{!Externals} (w : World) (username email : string) :
  users_unique (db w) →
  match Routes.create_user w username email with
  | (inl e, w') =>
      e = HTTPException 400 "User with this email or username already exists" ∧
      w' = w ∧
      ∃ i u, users (db w) !! i = Some u ∧
             (User.email u = email ∨ User.username u = username)
  | (inr user, w') =>
      (∀ i u, users (db w) !! i = Some u →
              User.email u ≠ email ∧ User.username u ≠ username) ∧
      User.username user = username ∧ User.email user = email ∧
      Routes.get_user w' (User.id user) = inr user ∧
      users_unique (db w') ∧
      conversations (db w') = conversations (db w) ∧
      messages (db w') = messages (db w) ∧
      documents (db w') = documents (db w)
  end.
Proof.
  intros Hunique. unfold Routes.create_user.
  destruct (head _) as [u|] eqn:Hhead.
  - split_and!; [done|done|].
    apply head_Some_elem_of, list_elem_of_filter in Hhead as [Hu Hin].
    apply list_elem_of_fmap in Hin as ([i u'] & -> & Hin).
    apply elem_of_map_to_list in Hin. by exists i, u'.
  - apply head_None in Hhead.
    assert (Hnew : ∀ i u, users (db w) !! i = Some u →
                          User.email u ≠ email ∧ User.username u ≠ username).
    { intros i u Hu.
      assert (Hin : u ∈ (map_to_list (users (db w))).*2).
      { apply list_elem_of_fmap. exists (i, u). split; [done|].
        by apply elem_of_map_to_list. }
      assert (Hnot : u ∉ filter (λ u, User.email u = email ∨ User.username u = username)
                                (map_to_list (users (db w))).*2)
        by (rewrite Hhead; apply not_elem_of_nil).
      rewrite list_elem_of_filter in Hnot. tauto. }
    cbn [db users conversations messages documents User.id User.username User.email].
    split_and!; try done.
    + unfold Routes.get_user. cbn [db users]. by rewrite lookup_insert_eq.
    + intros i j u v Hu Hv Hsame. cbn [users] in Hu, Hv.
      destruct (decide (i = uuid4 (ticks w))) as [->|Hi];
        destruct (decide (j = uuid4 (ticks w))) as [->|Hj]; [done|..].
      * rewrite lookup_insert_eq in Hu. rewrite lookup_insert_ne in Hv by done.
        injection Hu as <-. cbn [User.email User.username] in Hsame.
        destruct (Hnew j v Hv) as [? ?]. destruct Hsame; congruence.
      * rewrite lookup_insert_eq in Hv. rewrite lookup_insert_ne in Hu by done.
        injection Hv as <-. cbn [User.email User.username] in Hsame.
        destruct (Hnew i u Hu) as [? ?]. destruct Hsame; congruence.
      * rewrite lookup_insert_ne in Hu, Hv by done. by apply (Hunique i j u v).
Qed.

(** X26.  [POST /conversations] answers 404 and changes nothing when
    the user is unknown or when, in grounded mode, a listed document
    is not stored (the first such document is named).  When it
    returns, the user and the documents of a grounded conversation
    exist, the conversation is stored under its id with the fields of
    the request, and the messages are those of the first turn, if a
    first message was sent, and none otherwise.  When the first turn
    fails, the request fails but the conversation stays stored,
    without messages. *)
Theorem create_conversation_route `{!Externals} (settings : Settings) (w : World)
    (conversation : ConversationCreate) :
  (users (db w) !! req_user_id conversation = None →
   Routes.create_conversation settings w conversation
     = (inl (HTTPException 404 "User not found"), w)) ∧
  (is_Some (users (db w) !! req_user_id conversation) →
   req_mode conversation = "grounded" →
   ∀ before doc_id after,
     req_document_ids conversation = before ++ doc_id :: after →
     (∀ x, x ∈ before → is_Some (documents (db w) !! x)) →
     documents (db w) !! doc_id = None →
     Routes.create_conversation settings w conversation
       = (inl (HTTPException 404 ("Document " +:+ doc_id +:+ " not found")), w)) ∧
  (∀ created w',
     Routes.create_conversation settings w conversation = (inr created, w') →
     is_Some (users (db w) !! req_user_id conversation) ∧
     valid_mode (req_mode conversation) ∧
     (req_mode conversation = "grounded" →
      ∀ doc_id, doc_id ∈ req_document_ids conversation →
                is_Some (documents (db w) !! doc_id)) ∧
     get_conversation (db w') (uuid4 (ticks w)) = Some (created_conversation created) ∧
     Conversation.id (created_conversation created) = uuid4 (ticks w) ∧
     Conversation.user_id (created_conversation created) = req_user_id conversation ∧
     Conversation.title (created_conversation created) = req_title conversation ∧
     Conversation.mode (created_conversation created) = req_mode conversation ∧
     Conversation.document_ids (created_conversation created)
       = req_document_ids conversation ∧
     Conversation.total_tokens (created_conversation created)
       = sum_tokens (created_messages created) ∧
     messages (db w') = messages (db w) ++ created_messages created ∧
     if str_truthy (req_first_message conversation) then
       ∃ user_message assistant_message,
         created_messages created = [user_message; assistant_message] ∧
         Message.role user_message = "user" ∧
         Some (Message.content user_message) = req_first_message conversation ∧
         Message.role assistant_message = "assistant" ∧
         Message.conversation_id user_message = uuid4 (ticks w) ∧
         Message.conversation_id assistant_message = uuid4 (ticks w)
     else created_messages created = []) ∧
  (∀ e w',
     Routes.create_conversation settings w conversation = (inl e, w') →
     is_Some (users (db w) !! req_user_id conversation) →
     (req_mode conversation = "grounded" →
      ∀ doc_id, doc_id ∈ req_document_ids conversation →
                is_Some (documents (db w) !! doc_id)) →
     valid_mode (req_mode conversation) →
     is_Some (get_conversation (db w') (uuid4 (ticks w))) ∧
     messages (db w') = messages (db w)).
Proof.
  unfold Routes.create_conversation. split_and!.
  - by intros ->.
  - intros [user ->] Hmode before doc_id after Hids Hbefore Hmissing.
    rewrite decide_True by done.
    destruct (Routes.first_missing_document (db w) (req_document_ids conversation))
      as [found|] eqn:Hfound.
    + apply first_missing_document_Some in Hfound
        as (before' & after' & Hids' & Hnone & Hbefore').
      assert (found = doc_id) as ->; [|done].
      rewrite Hids in Hids'. clear Hids.
      revert before' Hids' Hbefore'.
      induction before as [|b before IH]; intros [|b' before'] Hids' Hbefore'.
      * by injection Hids'.
      * injection Hids' as -> _. destruct (Hbefore' b'); [by left | congruence].
      * injection Hids' as -> _. destruct (Hbefore found); [by left | congruence].
      * injection Hids' as -> Hrest. eapply IH; [|done|].
        -- intros x Hx. apply Hbefore. by right.
        -- intros x Hx. apply Hbefore'. by right.
    + rewrite first_missing_document_None in Hfound.
      destruct (Hfound doc_id) as [doc Hdoc]; [|congruence].
      rewrite Hids. apply elem_of_app. right. by left.
  - intros created w'.
    destruct (users (db w) !! req_user_id conversation) as [user|]; [|done].
    destruct (if decide (req_mode conversation = "grounded")
              then Routes.first_missing_document (db w) (req_document_ids conversation)
              else None) as [missing|] eqn:Hmissing; [done|].
    destruct (decide (valid_mode (req_mode conversation))) as [Hvalid|Hinvalid].
    2:{ pose proof (create_conversation_invalid w (req_user_id conversation)
                      (req_title conversation) (req_mode conversation)
                      (Some (req_document_ids conversation)) Hinvalid) as [Hfail _].
        destruct (create_conversation _ _ _ _ _) as [[e|c] w1]; [done|].
        by cbn in Hfail. }
    destruct (create_conversation_valid w (req_user_id conversation)
                (req_title conversation) (req_mode conversation)
                (Some (req_document_ids conversation)) Hvalid)
      as (c & -> & Hid & Huser & Htitle & Hmode & Hdocs & Htotal).
    rewrite Hid. change (Conversation.document_ids c = req_document_ids conversation) in Hdocs.
    assert (Hexist : req_mode conversation = "grounded" →
              ∀ doc_id, doc_id ∈ req_document_ids conversation →
                        is_Some (documents (db w) !! doc_id)).
    { intros Hgrounded. rewrite decide_True in Hmissing by done.
      by apply first_missing_document_None. }
    destruct (req_first_message conversation) as [[|ch first]|] eqn:Hfirst;
      cbn [str_truthy default].
    + intros [= <- <-]. cbn [created_conversation created_messages db messages].
      unfold get_conversation. cbn [conversations]. rewrite lookup_insert_eq.
      rewrite app_nil_r. by split_and!.
    + destruct (add_message_and_get_response _ _ _ _) as [[e|res] w2] eqn:Hturn; [done|].
      intros [= <- <-]. cbn [created_conversation created_messages].
      apply turn_world in Hturn
        as (conv & Hconv & Hdb & _ & _ & Hres & Hum & Hac & Har & _ & _).
      unfold get_conversation in Hconv. cbn [db conversations messages] in Hconv, Hdb.
      rewrite lookup_insert_eq in Hconv. injection Hconv as <-.
      rewrite Hdb, Hres. unfold get_conversation. cbn [conversations messages].
      rewrite lookup_insert_eq.
      cbn [Conversation.id Conversation.user_id Conversation.title Conversation.mode
           Conversation.document_ids Conversation.total_tokens].
      split_and!; try done.
      * rewrite Htotal. unfold sum_tokens. cbn. lia.
      * eexists _, _. split; [done|]. rewrite Hum.
        unfold new_user_message. cbn [Message.role Message.content Message.conversation_id].
        by split_and!.
    + intros [= <- <-]. cbn [created_conversation created_messages db messages].
      unfold get_conversation. cbn [conversations]. rewrite lookup_insert_eq.
      rewrite app_nil_r. by split_and!.
  - intros e w' Hres [user Huser] Hdocs Hvalid. rewrite Huser in Hres.
    assert (Hnone : (if decide (req_mode conversation = "grounded")
                     then Routes.first_missing_document (db w)
                            (req_document_ids conversation)
                     else None) = None).
    { destruct (decide _) as [Hg|]; [|done].
      by apply first_missing_document_None, Hdocs. }
    rewrite Hnone in Hres.
    destruct (create_conversation_valid w (req_user_id conversation)
                (req_title conversation) (req_mode conversation)
                (Some (req_document_ids conversation)) Hvalid)
      as (c & Hcreate & Hid & _).
    rewrite Hcreate in Hres. rewrite Hid in Hres.
    destruct (str_truthy (req_first_message conversation)); [|done].
    match type of Hres with
    | context [add_message_and_get_response ?s ?w1 ?cid ?content] =>
        pose proof (turn_failure_db s w1 cid content) as Hfail;
        destruct (add_message_and_get_response s w1 cid content) as [[e'|res] w2]
    end; [|done].
    injection Hres as <- <-. specialize (Hfail e' eq_refl). cbn [snd] in Hfail.
    rewrite Hfail.
    unfold get_conversation. cbn [db conversations messages].
    rewrite lookup_insert_eq. by split; [eexists|].
Qed.

(** X27.  [POST /conversations/{id}/messages] answers 404 and changes
    nothing when the conversation does not exist.  Every failure of
    the route is an HTTP error with status 404 (a [ValueError] of the
    service) or 500 (any other error, reported after the words
    ["Error generating response: "]), and leaves the store and the
    index as they were; a turn that returns is passed on as it is. *)
Theorem add_message_status `{!Externals} (settings : Settings) (w : World)
    (conversation_id content : string) :
  (get_conversation (db w) conversation_id = None →
   Routes.add_message settings w conversation_id content
     = (inl (HTTPException 404 "Conversation not found"), w)) ∧
  (∀ e w',
     Routes.add_message settings w conversation_id content = (inl e, w') →
     db w' = db w ∧ collection w' = collection w ∧
     ∃ e',
       (add_message_and_get_response settings w conversation_id content).1 = inl e' ∧
       ((∃ msg, e' = ValueError msg ∧ e = HTTPException 404 msg) ∨
        ((∀ msg, e' ≠ ValueError msg) ∧
         e = HTTPException 500 ("Error generating response: " +:+ exn_str e')))) ∧
  (∀ res w',
     Routes.add_message settings w conversation_id content = (inr res, w') ↔
     add_message_and_get_response settings w conversation_id content = (inr res, w')).
Proof.
  unfold Routes.add_message. split_and!.
  - intros Hnone. by rewrite (turn_not_found settings w conversation_id content Hnone).
  - intros e w' Hres.
    pose proof (turn_failure_db settings w conversation_id content) as Hdb.
    assert (Hcoll : collection (add_message_and_get_response settings w
                                  conversation_id content).2 = collection w).
    { destruct (get_conversation (db w) conversation_id) as [conv|] eqn:Hconv.
      - by destruct (turn_inv settings w conversation_id content conv Hconv)
          as [? _].
      - by rewrite (turn_not_found settings w conversation_id content Hconv). }
    destruct (add_message_and_get_response settings w conversation_id content)
      as [[e'|res] w1]; [|by destruct w1].
    specialize (Hdb e' eq_refl). cbn [fst snd] in Hdb, Hcoll |- *.
    destruct e' as [msg|msg|code detail]; injection Hres as <- <-.
    all: split_and!; [done|done|]; eexists; split; [done|].
    + left. by eexists.
    + right. by split.
    + right. by split.
  - intros res w'.
    destruct (add_message_and_get_response settings w conversation_id content)
      as [[[msg|msg|code detail]|res'] w1]; split; intros Heq; by simplify_eq.
Qed.

(** X28.  [POST /documents] rejects an upload before anything is
    written when the user is unknown (404), the file name does not end
    in [.pdf] (400) or the declared size is above [max_file_size]
    (400).  When the processing fails it answers 500 and the saved
    file is removed again.  When it returns, the checks passed, the
    bytes are stored under the path of the document, and the recorded
    size is the number of bytes stored. *)
Theorem upload_document_checks `{!Externals} (settings : Settings) (w : World)
    (file : UploadFile) (user_id : string) :
  match upload_document settings w file user_id with
  | (inl e, w') =>
      (users (db w) !! user_id = None ∧
       e = HTTPException 404 "User not found" ∧ w' = w) ∨
      (endswith (upload_filename file) ".pdf" = false ∧
       e = HTTPException 400 "Only PDF files are supported" ∧ w' = w) ∨
      ((∃ size, upload_size file = Some size ∧ size ≠ 0 ∧
                max_file_size settings < size) ∧
       e = HTTPException 400
             ("File too large. Max size: " +:+ pretty (max_file_size settings)
              +:+ " bytes") ∧
       w' = w) ∨
      ((∃ e', e = HTTPException 500 ("Error processing document: " +:+ exn_str e')) ∧
       db w' = db w ∧ collection w' = collection w ∧
       fs w' !! path_join (upload_dir settings)
                  (user_id +:+ "_" +:+ upload_filename file) = None)
  | (inr doc, w') =>
      is_Some (users (db w) !! user_id) ∧
      endswith (upload_filename file) ".pdf" = true ∧
      (∀ size, upload_size file = Some size →
               size = 0 ∨ size ≤ max_file_size settings) ∧
      Document.user_id doc = user_id ∧
      Document.filename doc = upload_filename file ∧
      Document.file_path doc
        = path_join (upload_dir settings) (user_id +:+ "_" +:+ upload_filename file) ∧
      fs w' !! Document.file_path doc = Some (upload_bytes file) ∧
      Document.file_size doc = Z.of_nat (String.length (upload_bytes file)) ∧
      0 < Document.chunk_count doc
  end.
Proof.
  unfold upload_document.
  destruct (users (db w) !! user_id) as [user|]; [|by left].
  destruct (endswith (upload_filename file) ".pdf") eqn:Hpdf; cbn [negb];
    [|right; by left].
  destruct (match upload_size file with
            | Some size => negb (size =? 0) && (max_file_size settings <? size)
            | None => false
            end) eqn:Hsize.
  { right. right. left. split_and!; [|done|done].
    destruct (upload_size file) as [size|]; [|done].
    apply andb_true_iff in Hsize as [Hnz Hlt]. exists size.
    apply negb_true_iff, Z.eqb_neq in Hnz. apply Z.ltb_lt in Hlt. done. }
  unfold save_uploaded_file. cbv zeta; cbv iota beta.
  destruct (process_document _ _ _ _) as [[e|n] coll'] eqn:Hproc.
  - right. right. right.
    apply process_document_failure in Hproc as [-> _].
    cbn [db collection fs]. split_and!; [by eexists|done|done|].
    apply lookup_delete_eq.
  - apply process_document_success in Hproc as (text & _ & Hchunks & -> & _).
    cbn [db collection fs Document.user_id Document.filename Document.file_path
         Document.file_size Document.chunk_count Document.id].
    split_and!; try done.
    + intros size Hs. rewrite Hs in Hsize.
      apply andb_false_iff in Hsize as [Hz|Hle].
      * left. by apply negb_false_iff, Z.eqb_eq in Hz.
      * right. by apply Z.ltb_ge in Hle.
    + apply lookup_insert_eq.
    + destruct (split_text text); [done|]. cbn [length]. lia.
Qed.

(** X29.  [DELETE /documents/{id}] answers 404 and changes nothing
    when the document is not stored.  Otherwise the row, the file and
    every chunk of the document are gone, and only those: the document
    can no longer be read, no retrieval returns one of its chunks
    again, and all other rows, files and chunks are as before. *)
Theorem delete_document_outcome `{!Externals} (settings : Settings) (w : World)
    (document_id : string) :
  match Routes.delete_document w document_id with
  | (inl e, w') =>
      documents (db w) !! document_id = None ∧
      e = HTTPException 404 "Document not found" ∧ w' = w
  | (inr deleted, w') =>
      deleted = document_id ∧
      ∃ doc,
        documents (db w) !! document_id = Some doc ∧
        Routes.get_document w' document_id
          = inl (HTTPException 404 "Document not found") ∧
        (∀ other, other ≠ document_id →
                  Routes.get_document w' other = Routes.get_document w other) ∧
        fs w' !! Document.file_path doc = None ∧
        (∀ path, path ≠ Document.file_path doc → fs w' !! path = fs w !! path) ∧
        (∀ id c, collection w' !! id = Some c ↔
                 collection w !! id = Some c ∧
                 Metadata.document_id (metadata c) ≠ document_id) ∧
        (∀ query document_ids top_k r,
           r ∈ retrieve_relevant_chunks settings (collection w') query
                 document_ids top_k →
           Metadata.document_id (chunk_metadata r) ≠ document_id) ∧
        users (db w') = users (db w) ∧
        conversations (db w') = conversations (db w) ∧
        messages (db w') = messages (db w)
  end.
Proof.
  unfold Routes.delete_document.
  destruct (documents (db w) !! document_id) as [doc|] eqn:Hdoc; [|done].
  split; [done|]. exists doc.
  cbn [db collection fs users conversations messages].
  split_and!; try done.
  - unfold Routes.get_document. cbn [db documents]. by rewrite lookup_delete_eq.
  - intros other Hne. unfold Routes.get_document. cbn [db documents].
    by rewrite lookup_delete_ne.
  - apply lookup_delete_eq.
  - intros path Hne. by apply lookup_delete_ne.
  - intros id c. apply delete_document_chunks_lookup_Some.
  - intros query document_ids top_k r Hr.
    destruct (retrieve_relevant_chunks_elem settings _ _ _ _ _ Hr)
      as (id & c & Hc & _ & _ & -> & _).
    by apply delete_document_chunks_lookup_Some in Hc as [_ ?].
Qed.

(** X30.  Uploading a document and then deleting it gives back the
    store and the index as they were, and removes the file, provided
    the id drawn for the document was not in use, neither as a
    document id nor in the index. *)
Theorem upload_then_delete_document `{!Externals} (settings : Settings)
    (w w1 : World) (file : UploadFile) (user_id : string) (doc : Document) :
  upload_document settings w file user_id = (inr doc, w1) →
  documents (db w) !! uuid4 (ticks w) = None →
  (∀ id c, collection w !! id = Some c →
           Metadata.document_id (metadata c) ≠ uuid4 (ticks w)) →
  (∀ i, collection w !! chunk_id (uuid4 (ticks w)) i = None) →
  ∃ w2,
    Routes.delete_document w1 (Document.id doc) = (inr (Document.id doc), w2) ∧
    db w2 = db w ∧ collection w2 = collection w ∧
    fs w2 = delete (Document.file_path doc) (fs w).
Proof.
  intros Hup Hfresh Hnone Hunused. unfold upload_document in Hup.
  destruct (users (db w) !! user_id) as [user|]; [|done].
  destruct (negb (endswith (upload_filename file) ".pdf")); [done|].
  destruct (match upload_size file with
            | Some size => negb (size =? 0) && (max_file_size settings <? size)
            | None => false
            end); [done|].
  unfold save_uploaded_file in Hup. cbv zeta in Hup. cbv iota beta in Hup.
  destruct (process_document _ _ _ _) as [[e|n] coll'] eqn:Hproc; [done|].
  injection Hup as <- <-.
  destruct (process_document_lookup _ _ _ _ _ _ Hproc Hunused)
    as (chunks & _ & Hnew & Hold).
  cbn [Document.id] in Hnew, Hold.
  unfold Routes.delete_document.
  cbn [db documents collection fs Document.id Document.file_path
       users conversations messages ticks calls].
  rewrite lookup_insert_eq. eexists. split; [reflexivity|].
  cbn [db documents collection fs Document.id Document.file_path
       users conversations messages].
  split_and!.
  - rewrite delete_insert_eq, delete_id by done. by destruct (db w).
  - by apply (delete_added_chunks (collection w) coll' (uuid4 (ticks w))
                (length chunks)).
  - by rewrite delete_insert_eq.
Qed.

(** ** The further properties at concrete inputs *)

Lemma demo_history_tokens : Forall (λ m, 0 ≤ Message.tokens m) Demo.history.
Proof. unfold Demo.history. apply Forall_fmap, Forall_forall. intros i _. simpl. lia. Qed.

Lemma demo_world_messages (cid : string) :
  conversation_messages (db (Demo.world "open_chat" [])) cid = [].
Proof. done. Qed.

Lemma demo_world_conversation (cid : string) (c : Conversation) :
  conversations (db (Demo.world "open_chat" [])) !! cid = Some c →
  cid = "c1" ∧ c = Demo.conversation "open_chat" [].
Proof. cbn [Demo.world db conversations]. by intros [-> <-]%lookup_singleton_Some. Qed.

Lemma demo_world_distinct : sequence_numbers_distinct (db (Demo.world "open_chat" [])).
Proof. intros cid. rewrite demo_world_messages. constructor. Qed.

Lemma demo_world_totals : totals_consistent (db (Demo.world "open_chat" [])).
Proof.
  intros cid c [-> ->]%demo_world_conversation. by rewrite demo_world_messages.
Qed.

Lemma demo_world_wf : database_wf (db (Demo.world "open_chat" [])).
Proof.
  split.
  - intros m Hm. by apply elem_of_nil in Hm.
  - constructor.
  - constructor.
  - intros cid c [-> ->]%demo_world_conversation. unfold valid_mode.
    cbn [Demo.conversation Conversation.mode]. by left.
Qed.

Lemma demo_world_users_unique : users_unique (db (Demo.world "open_chat" [])).
Proof.
  intros i j u v Hu Hv _. cbn [Demo.world db users] in Hu, Hv.
  apply lookup_singleton_Some in Hu as [<- _].
  by apply lookup_singleton_Some in Hv as [<- _].
Qed.

Lemma twin_index_lookup (id : string) (c : StoredChunk) :
  Demo.twin_index !! id = Some c →
  Metadata.document_id (metadata c) = "d1" ∨ Metadata.document_id (metadata c) = "d2".
Proof.
  unfold Demo.twin_index. rewrite lookup_insert_Some, lookup_singleton_Some.
  intros [[_ <-]|[_ [_ <-]]]; [by left | by right].
Qed.

Lemma twin_index_fresh (i : nat) : Demo.twin_index !! chunk_id "id0" i = None.
Proof.
  unfold Demo.twin_index.
  rewrite lookup_insert_ne, lookup_singleton_ne; [done|..];
    unfold chunk_id; change ("id0" +:+ ?s) with (String "i" ("d0" +:+ s)); discriminate.
Qed.

Lemma hello_turn_returns :
  @add_message_and_get_response Demo.externals default_settings
    (Demo.world "open_chat" []) "c1" "Hello"
  = (inr Demo.hello_result, Demo.hello_turn.2).
Proof. reflexivity. Qed.

Lemma get_context_window_fits_witness :
  Forall (λ m, 0 ≤ Message.tokens m) Demo.history ∧
  get_context_window default_settings Demo.history (Some 10000) = Demo.history ∧
  get_context_window default_settings
    (get_context_window default_settings Demo.history (Some 3500)) (Some 3500)
    = get_context_window default_settings Demo.history (Some 3500).
Proof.
  destruct (get_context_window_fits default_settings Demo.history (Some 10000)
              demo_history_tokens) as [Hfit _].
  destruct (get_context_window_fits default_settings Demo.history (Some 3500)
              demo_history_tokens) as [_ Hidem].
  split_and!; [exact demo_history_tokens | apply Hfit; by vm_compute
              | apply Hidem; by vm_compute].
Defined.

Lemma get_context_window_budget_mono_witness :
  3500 ≤ 5000 ∧
  get_context_window default_settings Demo.history (Some 3500)
    `suffix_of` get_context_window default_settings Demo.history (Some 5000).
Proof.
  assert (Hle : 3500 ≤ 5000) by lia.
  split; [exact Hle|].
  exact (get_context_window_budget_mono default_settings Demo.history 3500 5000 Hle).
Defined.

Lemma generate_response_over_budget_witness :
  Message.tokens Scenario.long_message > max_context_tokens default_settings ∧
  @generate_response Demo.externals default_settings
    (Demo.history ++ [Scenario.long_message]) None None
  = inr {| resp_content := "Hello there";
           input_tokens := 0;
           output_tokens := 2;
           total_tokens := 2 |}.
Proof.
  assert (Hlong : Message.tokens Scenario.long_message
                  > max_context_tokens default_settings) by (by vm_compute).
  split; [exact Hlong|].
  exact (@generate_response_over_budget Demo.externals default_settings
           Demo.history Scenario.long_message None Hlong).
Defined.

Lemma generate_title_length_witness :
  @generate_title Demo.externals "Hi" = inr "Hello there" ∧
  (String.length "Hello there" ≤ 60)%nat.
Proof.
  assert (Htitle : @generate_title Demo.externals "Hi" = inr "Hello there")
    by reflexivity.
  split; [exact Htitle|].
  exact (@generate_title_length Demo.externals "Hi" "Hello there" Htitle).
Defined.

Lemma extract_text_from_pdf_outcome_witness :
  Scenario.files !! "p" = Some "hello world" ∧
  @pdf_pages Demo.externals "hello world" = inr ["hello world"] ∧
  @extract_text_from_pdf Demo.externals Scenario.files "p"
    = inr (extract_pages 0 ["hello world"] EmptyString).
Proof.
  assert (Hfile : Scenario.files !! "p" = Some "hello world") by reflexivity.
  assert (Hpages : @pdf_pages Demo.externals "hello world" = inr ["hello world"])
    by reflexivity.
  destruct (@extract_text_from_pdf_outcome Demo.externals Scenario.files "p"
              "hello world" ["hello world"] Hfile Hpages) as [_ Hsome].
  split_and!; [exact Hfile | exact Hpages |].
  apply Hsome. apply Exists_cons_hd. discriminate.
Defined.

Lemma retrieve_relevant_chunks_scoped_witness :
  ["d3"] ≠ @nil string ∧
  @retrieve_relevant_chunks_call Demo.externals default_settings Demo.twin_index
    "hello" ["d3"] None = inr [] ∧
  ∃ e, @retrieve_relevant_chunks_call Demo.externals default_settings Demo.twin_index
         "hello" ["d3"] (Some 0%nat) = inl e.
Proof.
  assert (Hne : ["d3"] ≠ @nil string) by discriminate.
  destruct (@retrieve_relevant_chunks_scoped Demo.externals default_settings
              Demo.twin_index "hello" ["d3"] None Hne) as [_ Hreturns].
  destruct (@retrieve_relevant_chunks_scoped Demo.externals default_settings
              Demo.twin_index "hello" ["d3"] (Some 0%nat) Hne) as [Hraises _].
  destruct Hreturns as (chunks & Hcall & Hnone & _); [cbn; lia|].
  split_and!; [exact Hne | | exact (Hraises eq_refl)].
  rewrite Hcall. f_equal. apply Hnone.
  intros id c Hc Hin. apply list_elem_of_singleton in Hin.
  destruct (twin_index_lookup id c Hc) as [Hd|Hd]; rewrite Hd in Hin; discriminate.
Defined.

Lemma process_document_then_delete_witness :
  Scenario.ingested = (inr 2, Scenario.ingested.2) ∧
  delete_document_chunks Scenario.ingested.2 "d" = ∅.
Proof.
  assert (Hproc : @process_document Demo.externals Scenario.files ∅ "p"
                    Scenario.document = (inr 2, Scenario.ingested.2)) by reflexivity.
  split; [exact Hproc|].
  apply (@process_document_then_delete Demo.externals Scenario.files ∅
           Scenario.ingested.2 "p" Scenario.document 2 Hproc).
  - intros id c Hc. by rewrite lookup_empty in Hc.
  - intros i. apply lookup_empty.
Defined.

Lemma process_document_chunk_count_witness :
  Scenario.ingested = (inr 2, Scenario.ingested.2) ∧
  Z.of_nat (length (collection_get_ids Scenario.ingested.2 (Some (DocumentIdEq "d"))))
    = 2.
Proof.
  assert (Hproc : @process_document Demo.externals Scenario.files ∅ "p"
                    Scenario.document = (inr 2, Scenario.ingested.2)) by reflexivity.
  split; [exact Hproc|].
  apply (@process_document_chunk_count Demo.externals Scenario.files ∅
           Scenario.ingested.2 "p" Scenario.document 2 Hproc).
  - intros id c Hc. by rewrite lookup_empty in Hc.
  - intros i. apply lookup_empty.
Defined.

Lemma turn_frame_witness :
  Demo.hello_turn = (inr Demo.hello_result, Demo.hello_turn.2) ∧
  get_conversation (db (Demo.world "open_chat" [])) "c1"
    = Some (Demo.conversation "open_chat" []) ∧
  users (db Demo.hello_turn.2) = users (db (Demo.world "open_chat" [])) ∧
  collection Demo.hello_turn.2 = Demo.twin_index ∧
  Conversation.title (turn_conversation Demo.hello_result) = "T".
Proof.
  assert (Hconv : get_conversation (db (Demo.world "open_chat" [])) "c1"
                  = Some (Demo.conversation "open_chat" [])) by reflexivity.
  destruct (@turn_frame Demo.externals default_settings _ _ _ _ _ _
              hello_turn_returns Hconv)
    as (Husers & _ & Hcoll & _ & _ & _ & _ & Htitle & _).
  split_and!; [exact hello_turn_returns | exact Hconv | exact Husers
              | exact Hcoll | exact Htitle].
Defined.

Lemma turn_sequence_numbers_distinct_witness :
  Demo.hello_turn = (inr Demo.hello_result, Demo.hello_turn.2) ∧
  sequence_numbers_distinct (db (Demo.world "open_chat" [])) ∧
  sequence_numbers_distinct (db Demo.hello_turn.2).
Proof.
  destruct (@turn_sequence_numbers_distinct Demo.externals default_settings _ _ _ _ _
              hello_turn_returns demo_world_distinct) as [Hafter _].
  split_and!; [exact hello_turn_returns | exact demo_world_distinct | exact Hafter].
Defined.

Lemma turn_then_next_witness :
  Demo.hello_turn = (inr Demo.hello_result, Demo.hello_turn.2) ∧
  get_next_sequence_number (db Demo.hello_turn.2) "c1"
    = Message.sequence_number (assistant_message Demo.hello_result) + 1.
Proof.
  destruct (@turn_then_next Demo.externals default_settings _ _ _ _ _
              hello_turn_returns) as [Hnext _].
  split; [exact hello_turn_returns | exact Hnext].
Defined.

Lemma turn_totals_consistent_witness :
  Demo.hello_turn = (inr Demo.hello_result, Demo.hello_turn.2) ∧
  totals_consistent (db (Demo.world "open_chat" [])) ∧
  totals_consistent (db Demo.hello_turn.2).
Proof.
  split_and!; [exact hello_turn_returns | exact demo_world_totals |].
  exact (@turn_totals_consistent Demo.externals default_settings _ _ _ _ _
           hello_turn_returns demo_world_totals).
Defined.

Lemma turn_database_wf_witness :
  Demo.hello_turn = (inr Demo.hello_result, Demo.hello_turn.2) ∧
  database_wf (db (Demo.world "open_chat" [])) ∧
  database_wf (db Demo.hello_turn.2).
Proof.
  split_and!; [exact hello_turn_returns | exact demo_world_wf |].
  exact (@turn_database_wf Demo.externals default_settings _ _ _ _ _
           hello_turn_returns demo_world_wf).
Defined.

Lemma turn_generation_witness :
  get_conversation (db (Demo.world "open_chat" [])) "c1"
    = Some (Demo.conversation "open_chat" []) ∧
  last (calls Demo.hello_turn.2)
    = Some (CallGenerate
              [@new_user_message Demo.externals (Demo.world "open_chat" []) "c1" "Hello"]
              None) ∧
  ∃ res,
    Demo.hello_turn.1 = inr res ∧
    Message.content (assistant_message res) = "Hello there".
Proof.
  assert (Hconv : get_conversation (db (Demo.world "open_chat" [])) "c1"
                  = Some (Demo.conversation "open_chat" [])) by reflexivity.
  destruct (@turn_generation Demo.externals default_settings
              (Demo.world "open_chat" []) "c1" "Hello" _ Hconv)
    as (_ & _ & Hgeneration & _).
  destruct Hgeneration as (Hlast & _ & Hanswer); [by vm_compute | discriminate |].
  specialize (Hanswer {| resp_content := "Hello there"; input_tokens := 1;
                         output_tokens := 2; total_tokens := 3 |} eq_refl).
  rewrite decide_True in Hanswer by (by vm_compute).
  destruct Hanswer as (res & Hres & Hcontent & _).
  split_and!; [exact Hconv | exact Hlast | exists res; split; [exact Hres | exact Hcontent]].
Defined.

Lemma create_conversation_invariants_witness :
  conversations (db (Demo.world "open_chat" [])) !! @uuid4 Demo.externals 0%nat = None ∧
  database_wf (db (Demo.world "open_chat" [])) ∧
  database_wf
    (db (@create_conversation Demo.externals (Demo.world "open_chat" [])
           "u" "Second" "grounded" None).2).
Proof.
  assert (Hfresh : conversations (db (Demo.world "open_chat" []))
                     !! @uuid4 Demo.externals (ticks (Demo.world "open_chat" []))
                   = None) by reflexivity.
  destruct (@create_conversation_invariants Demo.externals
              (Demo.world "open_chat" []) "u" "Second" "grounded" None
              Hfresh demo_world_wf) as [Hwf _].
  split_and!; [exact Hfresh | exact demo_world_wf | exact Hwf].
Defined.

Lemma create_user_unique_witness :
  users_unique (db (Demo.world "open_chat" [])) ∧
  users_unique
    (db (@Routes.create_user Demo.externals (Demo.world "open_chat" [])
           "second" "second@example.org").2).
Proof.
  split; [exact demo_world_users_unique|].
  pose proof (@create_user_unique Demo.externals (Demo.world "open_chat" [])
                "second" "second@example.org" demo_world_users_unique) as Hout.
  destruct (@Routes.create_user Demo.externals (Demo.world "open_chat" [])
              "second" "second@example.org") as [[e|user] w'].
  - destruct Hout as (_ & -> & _). exact demo_world_users_unique.
  - destruct Hout as (_ & _ & _ & _ & Hunique & _). exact Hunique.
Defined.

Lemma upload_then_delete_document_witness :
  Scenario.uploaded = (inr Scenario.uploaded_document, Scenario.uploaded.2) ∧
  ∃ w2,
    Routes.delete_document Scenario.uploaded.2
      (Document.id Scenario.uploaded_document)
      = (inr (Document.id Scenario.uploaded_document), w2) ∧
    db w2 = db (Demo.world "open_chat" []) ∧ collection w2 = Demo.twin_index.
Proof.
  assert (Hup : @upload_document Demo.externals default_settings
                  (Demo.world "open_chat" []) Demo.upload "u"
                = (inr Scenario.uploaded_document, Scenario.uploaded.2))
    by reflexivity.
  split; [exact Hup|].
  destruct (@upload_then_delete_document Demo.externals default_settings
              (Demo.world "open_chat" []) Scenario.uploaded.2 Demo.upload "u"
              Scenario.uploaded_document Hup) as (w2 & Hdel & Hdb & Hcoll & _).
  - reflexivity.
  - intros id c Hc. destruct (twin_index_lookup id c Hc) as [-> | ->]; discriminate.
  - exact twin_index_fresh.
  - exists w2. split_and!; [exact Hdel | exact Hdb | exact Hcoll].
Defined.
